(* ===================================================================== *)
(*  firedpy: event classification (EventGrid) and tile stitching          *)
(*  (ModelBuilder.buildEvents), embedded from src/firedpy/functions.py    *)
(* ===================================================================== *)
From stdpp Require Import gmap strings list fin_maps pretty sorting.
From Stdlib Require Import ZArith Lia Sorted Ascii.

Open Scope Z_scope.

(* --------------------------------------------------------------------- *)
(*  Python and numpy conventions used by the source                       *)
(* --------------------------------------------------------------------- *)
Module Py.

Inductive exn := IndexError | TypeError | ValueError | NameError | OverflowError.

(* a[i] on a sequence of length len: negative i counts from the end,
   anything outside [-len, len) raises IndexError. *)
Definition index (len : nat) (i : Z) : option nat :=
  if decide (0 ≤ i < Z.of_nat len) then Some (Z.to_nat i)
  else if decide (- Z.of_nat len ≤ i < 0) then Some (Z.to_nat (Z.of_nat len + i))
  else None.

(* The position a slice bound denotes in a[start:stop]: negative bounds
   count from the end, and every bound is clipped to [0, len]. *)
Definition clip (len : nat) (i : Z) : nat :=
  if decide (i < 0) then Z.to_nat (Z.max 0 (Z.of_nat len + i))
  else Z.to_nat (Z.min i (Z.of_nat len)).

(* l[start:stop]; None stands for an omitted bound. *)
Definition slice {A} (l : list A) (start stop : option Z) : list A :=
  let s := from_option (clip (length l)) 0%nat start in
  let e := from_option (clip (length l)) (length l) stop in
  take (e - s) (drop s l).

(* range(n) *)
Definition range (n : Z) : list Z := Z.of_nat <$> seq 0 (Z.to_nat n).

(* any(l) on a list of booleans *)
Definition any (l : list bool) : bool := existsb id l.

End Py.

(* A three dimensional numpy array [time, y, x]: its shape and its cells. *)
Record ndarray3 := mk_ndarray3 {
  nz : nat;
  ny : nat;
  nx : nat;
  data : nat → nat → nat → Z
}.

(* Building an array from nested lists (cells outside the lists read 0). *)
Definition of_lists (nz ny nx : nat) (l : list (list (list Z))) : ndarray3 :=
  mk_ndarray3 nz ny nx (λ t y x, ((l !!! t) !!! y) !!! x).

(* np.where(cond) on a two dimensional mask: C order, rows first. *)
Definition np_where2 (ny nx : nat) (cond : nat → nat → bool) : list (nat * nat) :=
  y ← seq 0 ny; x ← seq 0 nx; if cond y x then [(y, x)] else [].

(* np.where(cond) on a three dimensional array: C order, time first. *)
Definition np_where3 (nz ny nx : nat) (cond : nat → nat → nat → bool)
  : list (nat * nat * nat) :=
  t ← seq 0 nz; y ← seq 0 ny; x ← seq 0 nx;
  if cond t y x then [(t, y, x)] else [].

(* a[:, y0:y1, x0:x1] *)
Definition slice_yx (a : ndarray3) (y0 y1 x0 x1 : Z) : ndarray3 :=
  let ys := Py.clip (ny a) y0 in
  let ye := Py.clip (ny a) y1 in
  let xs := Py.clip (nx a) x0 in
  let xe := Py.clip (nx a) x1 in
  mk_ndarray3 (nz a) (ye - ys) (xe - xs)
              (λ t i j, data a t (ys + i)%nat (xs + j)%nat).

(* a[:, cy, cx] *)
Definition column (a : ndarray3) (cy cx : Z) : Py.exn + list Z :=
  match Py.index (ny a) cy, Py.index (nx a) cx with
  | Some i, Some j => inr ((λ t, data a t i j) <$> seq 0 (nz a))
  | _, _ => inl Py.IndexError
  end.

(* v[idx] for a list of integer positions idx (numpy fancy indexing) *)
Fixpoint take_at (v : list Z) (idx : list Z) : Py.exn + list Z :=
  match idx with
  | [] => inr []
  | i :: idx' =>
      match Py.index (length v) i with
      | None => inl Py.IndexError
      | Some k =>
          match take_at v idx' with
          | inl e => inl e
          | inr r => inr (v !!! k :: r)
          end
      end
  end.

(* --------------------------------------------------------------------- *)
(*  EventGrid.get_availables                                              *)
(* --------------------------------------------------------------------- *)

(* input_array.max(dim="time") at one cell, for an array with nz > 0 *)
Definition max_time (a : ndarray3) (y x : nat) : Z :=
  foldr Z.max (data a 0 y x) ((λ t, data a t y x) <$> seq 1 (nz a - 1)).

Definition get_availables (a : ndarray3) : Py.exn + list (Z * Z) :=
  if decide (nz a = 0%nat) then inl Py.ValueError
  else
    let locs := np_where2 (ny a) (nx a) (λ y x, bool_decide (max_time a y x > 0)) in
    inr ((λ p, (Z.of_nat p.1, Z.of_nat p.2)) <$> locs).

(* Row-major order on cells: y ascending, then x ascending. *)
Definition row_major_lt (p q : Z * Z) : Prop :=
  p.1 < q.1 ∨ (p.1 = q.1 ∧ p.2 < q.2).

(* --------------------------------------------------------------------- *)
(*  EventGrid.get_spatial_window                                          *)
(* --------------------------------------------------------------------- *)

Record spatial_window := mk_window {
  top : Z; bottom : Z; left : Z; right : Z;
  center : Z * Z;
  origin : Z * Z
}.

Definition get_spatial_window (spatial_param : Z) (y x : Z) (array_dims : Z * Z)
  : spatial_window :=
  let top := Z.max 0 (y - spatial_param) in
  let bottom := Z.min array_dims.1 (y + spatial_param) in
  let left := Z.max 0 (x - spatial_param) in
  let right := Z.min array_dims.2 (x + spatial_param) in
  let ydim := array_dims.1 in
  let xdim := array_dims.2 in
  let tps := Py.range spatial_param in
  let x_edges_1 := (λ t, 0 + t) <$> tps in
  let x_edges_2 := (λ t, xdim - t) <$> tps in
  let y_edges_1 := (λ t, 0 + t) <$> tps in
  let y_edges_2 := (λ t, ydim - t) <$> tps in
  let '(ycenter, oy) :=
    if bool_decide (y ∈ y_edges_1) then (y, 0)
    else if bool_decide (y ∈ y_edges_2) then (y - ydim, y - spatial_param)
    else (spatial_param, y - spatial_param) in
  let '(xcenter, ox) :=
    if bool_decide (x ∈ x_edges_1) then (x, 0)
    else if bool_decide (x ∈ x_edges_2) then (x - xdim, x - spatial_param)
    else (spatial_param, x - spatial_param) in
  mk_window top bottom left right (ycenter, xcenter) (oy, ox).

(* window = arr[:, top:bottom+1, left:right+1] *)
Definition extract_window (arr : ndarray3) (w : spatial_window) : ndarray3 :=
  slice_yx arr (top w) (bottom w + 1) (left w) (right w + 1).

(* --------------------------------------------------------------------- *)
(*  EventPerimeter                                                        *)
(* --------------------------------------------------------------------- *)

(* A point (y coordinate, x coordinate, burn day), as the tuple curr_pt. *)
Definition point : Type := Z * Z * Z.

(* What a perimeter's coords list can hold: the points of a live perimeter,
   or, after merge_perimeters, the pair [merge_notice, new_pts]. *)
#[local] Set Warnings "-register-all".
Inductive coord :=
| Pt (p : point)
| Notice (s : string)
| PtList (l : list coord).

Record EventPerimeter := mk_perimeter {
  event_id : Z;
  merge_id : option Z;          (* None is np.nan *)
  coords : list coord
}.

Definition add_coordinates (p : EventPerimeter) (coord_list : list coord)
  : EventPerimeter :=
  mk_perimeter (event_id p) (merge_id p) (coords p ++ coord_list).

(* EventPerimeter(event_id, coord_list) *)
Definition new_perimeter (event_id : Z) (coord_list : list coord) : EventPerimeter :=
  add_coordinates (mk_perimeter event_id None []) coord_list.

Definition set_merge_id (m : Z) (p : EventPerimeter) : EventPerimeter :=
  mk_perimeter (event_id p) (Some m) (coords p).

Definition set_coords (c : list coord) (p : EventPerimeter) : EventPerimeter :=
  mk_perimeter (event_id p) (merge_id p) c.

(* type(p.coords[0]) is str, the test buildEvents uses for merged perimeters *)
Definition starts_with_notice (p : EventPerimeter) : option bool :=
  match coords p with
  | [] => None
  | Notice _ :: _ => Some true
  | _ :: _ => Some false
  end.

(* --------------------------------------------------------------------- *)
(*  EventGrid: the mutable store and the monad threading it               *)
(* --------------------------------------------------------------------- *)

(* Keys of the event_grid dict: point tuples, and whatever else hashes. *)
Definition key : Type := point + string.

(* hash(p) for a dict key: tuples and strings hash, lists do not. *)
Definition hashable (c : coord) : option key :=
  match c with
  | Pt p => Some (inl p)
  | Notice s => Some (inr s)
  | PtList _ => None
  end.

(* The objects mutated during classification: self.event_grid,
   self.next_event_id and the perimeters list of get_event_perimeters
   (passed to merge_perimeters and updated in place). *)
Record store := mk_store {
  event_grid : gmap key Z;
  next_event_id : Z;
  perimeters : list EventPerimeter
}.

Definition init_store : store := mk_store ∅ 1 [].

Inductive outcome (A : Type) :=
| Done (a : A) (s : store)
| Raised (e : Py.exn) (s : store)
| Hangs.
Arguments Done {A} a s.
Arguments Raised {A} e s.
Arguments Hangs {A}.

Definition M (A : Type) : Type := store → outcome A.

Definition ret {A} (a : A) : M A := λ s, Done a s.
Definition bind {A B} (m : M A) (k : A → M B) : M B :=
  λ s, match m s with
       | Done a s' => k a s'
       | Raised e s' => Raised e s'
       | Hangs => Hangs
       end.
Definition raise {A} (e : Py.exn) : M A := λ s, Raised e s.
Definition hang {A} : M A := λ _, Hangs.
Definition get : M store := λ s, Done s s.
Definition put (s : store) : M unit := λ _, Done tt s.
Definition lift {A} (r : Py.exn + A) : M A :=
  match r with inl e => raise e | inr a => ret a end.

Notation "'do' x <- m ; k" := (bind m (λ x, k))
  (at level 10, x name, m at level 100, k at level 200).
Notation "m ;; k" := (bind m (λ _, k))
  (at level 100, k at level 200, right associativity).

(* for x in l: body(x) *)
Fixpoint for_each {A} (l : list A) (body : A → M unit) : M unit :=
  match l with
  | [] => ret tt
  | x :: l' => body x ;; for_each l' body
  end.

(* perimeters[i], for reading or for updating the object found there *)
Definition perimeter_index (i : Z) : M nat :=
  do s <- get;
  match Py.index (length (perimeters s)) i with
  | Some k => ret k
  | None => raise Py.IndexError
  end.

Definition update_perimeter (k : nat) (f : EventPerimeter → EventPerimeter) : M unit :=
  do s <- get;
  put (mk_store (event_grid s) (next_event_id s) (alter f k (perimeters s))).

(* self.event_grid[p] = event_id *)
Definition grid_set (p : coord) (event_id : Z) : M unit :=
  match hashable p with
  | None => raise Py.TypeError
  | Some k =>
      do s <- get;
      put (mk_store (<[k := event_id]> (event_grid s)) (next_event_id s) (perimeters s))
  end.

Definition add_event_grid (event_id : Z) (new_pts : list coord) : M unit :=
  for_each new_pts (λ p, grid_set p event_id).

(* "Merged with event {}".format(event_id) *)
Definition merge_notice (event_id : Z) : string :=
  "Merged with event " +:+ pretty event_id.

Definition merge_perimeters (event_id obsolete_id : Z) : M unit :=
  (* set the merge id in the obsolete id *)
  do io <- perimeter_index (obsolete_id - 1);
  update_perimeter io (set_merge_id event_id) ;;
  do s <- get;
  let new_pts := from_option coords [] (perimeters s !! io) in
  (* update the event_grid and add points to event_id perimeter *)
  for_each new_pts (λ p, grid_set p event_id) ;;
  do ie <- perimeter_index (event_id - 1);
  (if decide (ie = io) then
     (* add_coordinates walks the very list it appends to *)
     match new_pts with [] => ret tt | _ :: _ => @hang unit end
   else update_perimeter ie (λ p, add_coordinates p new_pts)) ;;
  (* set old perimeter to null *)
  update_perimeter io (set_coords [Notice (merge_notice event_id); PtList new_pts]).

(* --------------------------------------------------------------------- *)
(*  EventGrid.get_event_perimeters                                        *)
(* --------------------------------------------------------------------- *)

(* The fields of an EventGrid object that classification only reads. *)
Record tile := mk_tile {
  spatial_param : Z;
  temporal_param : Z;
  input_array : ndarray3;
  coord_y : list Z;             (* self.coordinates["y"].data *)
  coord_x : list Z              (* self.coordinates["x"].data *)
}.

(* The points within temporal_param of burn anywhere in the window:
   val_locs = np.where(abs(burn - window) <= temporal_param), turned into
   (y coordinate, x coordinate, value) triples. *)
Definition candidates (T : tile) (window : ndarray3) (origin : Z * Z) (burn : Z)
  : Py.exn + list point :=
  let val_locs :=
    np_where3 (nz window) (ny window) (nx window)
      (λ t i j, bool_decide (Z.abs (burn - data window t i j) ≤ temporal_param T)) in
  let y_locs := (λ l, l.1.2) <$> val_locs in
  let x_locs := (λ l, l.2) <$> val_locs in
  let '(oy, ox) := origin in
  let vals := (λ l, data window l.1.1 l.1.2 l.2) <$> val_locs in
  let ys := (λ yl, oy + Z.of_nat yl) <$> y_locs in
  let xs := (λ xl, ox + Z.of_nat xl) <$> x_locs in
  match take_at (coord_y T) ys with
  | inl e => inl e
  | inr ys =>
      match take_at (coord_x T) xs with
      | inl e => inl e
      | inr xs => inr (zip (zip ys xs) vals)
      end
  end.

(* The loop over the candidate points: ids already in the grid are
   collected in order of discovery, the other points are new. *)
Fixpoint assign_points (eg : gmap key Z) (pts : list point)
  (new_pts : list point) (curr_event_ids : list Z) : list point * list Z :=
  match pts with
  | [] => (new_pts, curr_event_ids)
  | curr_pt :: pts' =>
      match eg !! (inl curr_pt : key) with
      | Some e =>
          if bool_decide (e ∈ curr_event_ids)
          then assign_points eg pts' new_pts curr_event_ids
          else assign_points eg pts' new_pts (curr_event_ids ++ [e])
      | None => assign_points eg pts' (new_pts ++ [curr_pt]) curr_event_ids
      end
  end.

(* The body of "for burn in center_burn". *)
Definition process_burn (T : tile) (window : ndarray3) (origin : Z * Z) (burn : Z)
  : M unit :=
  do pts <- lift (candidates T window origin burn);
  do s <- get;
  let found := assign_points (event_grid s) pts [] [] in
  let new_pts := Pt <$> found.1 in
  match found.2 with
  | [] =>
      (* a new event *)
      let perimeter := new_perimeter (next_event_id s) new_pts in
      put (mk_store (event_grid s) (next_event_id s) (perimeters s ++ [perimeter])) ;;
      add_event_grid (next_event_id s) new_pts ;;
      do s' <- get;
      put (mk_store (event_grid s') (next_event_id s' + 1) (perimeters s'))
  | [event_id] =>
      (* all points part of the same existing event *)
      match new_pts with
      | [] => ret tt
      | _ :: _ =>
          do k <- perimeter_index (event_id - 1);
          update_perimeter k (λ p, add_coordinates p new_pts) ;;
          add_event_grid event_id new_pts
      end
  | event_id :: obsolete_id :: _ =>
      (* events overlap *)
      merge_perimeters event_id obsolete_id
  end.

(* The body of "for pair in available_pairs". *)
Definition process_pair (T : tile) (pair : Z * Z) : M unit :=
  let arr := input_array T in
  let dims := (Z.of_nat (ny arr), Z.of_nat (nx arr)) in
  let w := get_spatial_window (spatial_param T) pair.1 pair.2 dims in
  let window := extract_window arr w in
  do center_burn <- lift (column window (center w).1 (center w).2);
  let center_burn := filter (λ b, b > 0) center_burn in
  for_each center_burn (process_burn T window (origin w)).

Definition get_event_perimeters (T : tile) : M (list EventPerimeter) :=
  do available_pairs <- lift (get_availables (input_array T));
  do s <- get;
  put (mk_store (event_grid s) (next_event_id s) []) ;;
  for_each available_pairs (process_pair T) ;;
  do s' <- get;
  ret (perimeters s').

(* One classification step seen from outside: the cell whose window is
   searched and the detection day looked for. *)
Definition classify_step (T : tile) (step : Z * Z * Z) : M unit :=
  let arr := input_array T in
  let dims := (Z.of_nat (ny arr), Z.of_nat (nx arr)) in
  let w := get_spatial_window (spatial_param T) step.1.1 step.1.2 dims in
  process_burn T (extract_window arr w) (origin w) step.2.

(* The parts of Python's datetime module the source uses, with a date as
   its proleptic Gregorian ordinal (date.toordinal()). *)
Module Datetime.

Inductive exn := ValueError | OverflowError.

(* datetime._days_before_year: the days before January 1 of year *)
Definition days_before_year (year : Z) : Z :=
  let y := year - 1 in y * 365 + y / 4 - y / 100 + y / 400.

(* datetime(year, 1, 1): year must lie in [MINYEAR, MAXYEAR] *)
Definition january_first (year : Z) : exn + Z :=
  if decide (1 ≤ year ≤ 9999) then inr (days_before_year year + 1)
  else inl ValueError.

(* timedelta(days) *)
Definition timedelta (days : Z) : exn + Z :=
  if decide (-999999999 ≤ days ≤ 999999999) then inr days
  else inl OverflowError.

(* date + delta: the result must lie in [datetime.min, datetime.max] *)
Definition add (date delta : Z) : exn + Z :=
  if decide (1 ≤ date + delta ≤ 3652059) then inr (date + delta)
  else inl OverflowError.

Definition to_py (e : exn) : Py.exn :=
  match e with
  | ValueError => Py.ValueError
  | OverflowError => Py.OverflowError
  end.

End Datetime.

(* --------------------------------------------------------------------- *)
(*  ModelBuilder.buildEvents, the table of one tile                       *)
(* --------------------------------------------------------------------- *)

Definition edgeCheck (yedges xedges : list Z) (coord : point) (sp_buffer : Z) : bool :=
  let y := coord.1.1 in
  let x := coord.1.2 in
  if bool_decide (y ∈ yedges) then true
  else if bool_decide (x ∈ xedges) then true
  else false.

Record event_row := mk_row {
  row_id : Z;
  row_date : Z;                 (* days since 1970-01-01 *)
  row_x : Z;
  row_y : Z;
  row_edge : bool
}.

(* perims = [p for p in perims if type(p.coords[0]) is not str] *)
Fixpoint remove_merged (perims : list EventPerimeter) : Py.exn + list EventPerimeter :=
  match perims with
  | [] => inr []
  | p :: rest =>
      match starts_with_notice p with
      | None => inl Py.IndexError
      | Some b =>
          match remove_merged rest with
          | inl e => inl e
          | inr r => inr (if b then r else p :: r)
          end
      end
  end.

(* The coords of a kept perimeter read as (y, x, day) triples; indexing
   anything else as c[0], c[1], c[2] and building a timedelta from it fails. *)
Fixpoint as_points (cs : list coord) : Py.exn + list point :=
  match cs with
  | [] => inr []
  | Pt p :: rest =>
      match as_points rest with
      | inl e => inl e
      | inr r => inr (p :: r)
      end
  | _ :: _ => inl Py.TypeError
  end.

Definition yedges_of (T : tile) : list Z :=
  let maxys := Py.slice (coord_y T) None (Some (spatial_param T)) in
  let minys := Py.slice (coord_y T) (Some (- spatial_param T)) None in
  maxys ++ minys.

Definition xedges_of (T : tile) : list Z :=
  let maxxs := Py.slice (coord_x T) (Some (- spatial_param T)) None in
  let minxs := Py.slice (coord_x T) None (Some (spatial_param T)) in
  maxxs ++ minxs.

(* base + dt.timedelta(days) with base = datetime(1970, 1, 1); the date is
   kept as its number of days since base. *)
Definition to_date (days : Z) : Py.exn + Z :=
  let base := Datetime.days_before_year 1970 + 1 in
  match Datetime.timedelta days with
  | inl e => inl (Datetime.to_py e)
  | inr delta =>
      match Datetime.add base delta with
      | inl e => inl (Datetime.to_py e)
      | inr date => inr (date - base)
      end
  end.

(* date = [base + dt.timedelta(c[2]) for c in coord] *)
Fixpoint dates_of (coord : list point) : Py.exn + list Z :=
  match coord with
  | [] => inr []
  | c :: rest =>
      match to_date c.2 with
      | inl e => inl e
      | inr d =>
          match dates_of rest with
          | inl e => inl e
          | inr ds => inr (d :: ds)
          end
      end
  end.

(* The rows one kept perimeter contributes. *)
Definition perimeter_rows (T : tile) (sp_buf : Z) (event : Z) (coord : list point)
  : Py.exn + list event_row :=
  let edge := (λ c, edgeCheck (yedges_of T) (xedges_of T) c sp_buf) <$> coord in
  let edge := if Py.any edge then (λ _, true) <$> edge else edge in
  match dates_of coord with
  | inl e => inl e
  | inr date =>
      inr ((λ cde, mk_row event cde.1.2 cde.1.1.1.2 cde.1.1.1.1 cde.2)
             <$> zip (zip coord date) edge)
  end.

Fixpoint table_rows (T : tile) (sp_buf : Z) (perims : list EventPerimeter)
  : Py.exn + list event_row :=
  match perims with
  | [] => inr []
  | p :: rest =>
      match as_points (coords p) with
      | inl e => inl e
      | inr coord =>
          match perimeter_rows T sp_buf (event_id p) coord with
          | inl e => inl e
          | inr rows =>
              match table_rows T sp_buf rest with
              | inl e => inl e
              | inr r => inr (rows ++ r)
              end
          end
      end
  end.

Definition tile_table (T : tile) (sp_buf : Z) (perims : list EventPerimeter)
  : Py.exn + list event_row :=
  match remove_merged perims with
  | inl e => inl e
  | inr kept => table_rows T sp_buf kept
  end.

(* Classification of a fresh EventGrid followed by the table; None when
   classification does not return. *)
Definition classify_tile (T : tile) (sp_buf : Z) : option (Py.exn + list event_row) :=
  match get_event_perimeters T init_store with
  | Done perims _ => Some (tile_table T sp_buf perims)
  | Raised e _ => Some (inl e)
  | Hangs => None
  end.

(* --------------------------------------------------------------------- *)
(*  ModelBuilder.buildEvents, merging the edge events of all tiles        *)
(* --------------------------------------------------------------------- *)

(* A row of the concatenated data frame df. *)
Record df_row := mk_df_row {
  id : string;
  days : Z;
  ypos : Z;
  xpos : Z;
  edge : bool;
  tile_name : string
}.

(* df["id"] = df["tile"] + "_" + df["id"].astype(str) *)
Definition unique_id (tile_id : string) (local_id : Z) : string :=
  tile_id +:+ "_" +:+ pretty local_id.

Definition to_df (tile_id : string) (rows : list event_row) : list df_row :=
  (λ r, mk_df_row (unique_id tile_id (row_id r)) (row_date r) (row_y r) (row_x r)
                  (row_edge r) tile_id) <$> rows.

(* Series.unique(): the distinct values in order of first appearance *)
Definition unique (l : list string) : list string :=
  foldl (λ acc x, if bool_decide (x ∈ acc) then acc else acc ++ [x]) [] l.

(* edges[edges["id"] == iden] *)
Definition rows_of (edges : list df_row) (iden : string) : list df_row :=
  filter (λ r, id r = iden) edges.

(* edges["id"][edges["id"] == old] = new *)
Definition relabel (edges : list df_row) (old new : string) : list df_row :=
  (λ r, if bool_decide (id r = old)
        then mk_df_row new (days r) (ypos r) (xpos r) (edge r) (tile_name r)
        else r) <$> edges.

(* any(checks) on a list of numbers: some element is not zero *)
Definition any_nonzero (l : list Z) : bool := existsb (λ e, negb (e =? 0)) l.

Definition spCheck (diffs : list Z) (sp_buf : Z) : bool :=
  let checks := filter (λ e, Z.abs e < sp_buf) diffs in
  if any_nonzero checks then true else false.

(* The spatial test of the pair loop: edf is the frame of iden taken when
   its scan started, edf2 the current frame of iden2. *)
Definition close_in_space (sp_buf : Z) (edf edf2 : list df_row) : bool :=
  let ydiffs := (λ y, (λ y2, y - y2) <$> (ypos <$> edf2)) <$> (ypos <$> edf) in
  let xdiffs := (λ x, (λ x2, x - x2) <$> (xpos <$> edf2)) <$> (xpos <$> edf) in
  let ychecks := (λ yds, spCheck yds sp_buf) <$> ydiffs in
  let xchecks := (λ xds, spCheck xds sp_buf) <$> xdiffs in
  let checks := zip_with andb ychecks xchecks in
  Py.any checks.

(* min and max of a non-empty column *)
Definition min_of (d : Z) (ds : list Z) : Z := foldr Z.min d ds.
Definition max_of (d : Z) (ds : list Z) : Z := foldr Z.max d ds.

(* The body of "for iden2 in eids2". *)
Definition merge_pair (sp_buf : Z) (iden : string) (edf : list df_row) (d1 : Z)
  (edges : list df_row) (iden2 : string) : list df_row :=
  let edf2 := rows_of edges iden2 in
  if close_in_space sp_buf edf edf2 then
    (* Merge events! Merge into the earliest event *)
    match days <$> edf2 with
    | [] => relabel edges iden iden2            (* d1 < nan is False *)
    | d :: ds =>
        let d12 := min_of d ds in
        if decide (d1 < d12) then relabel edges iden2 iden
        else relabel edges iden iden2
    end
  else edges.

(* The body of "for iden in eids": the frame edges and the variables d1, d2,
   which keep their last values when the frame of iden is empty. *)
Definition scan_id (temporal_param sp_buf : Z)
  (st : list df_row * option (Z * Z)) (iden : string)
  : Py.exn + (list df_row * option (Z * Z)) :=
  let edges := st.1 in
  let edf := rows_of edges iden in
  let edf2 := filter (λ r, id r ≠ iden) edges in
  let dd := match days <$> edf with
            | [] => st.2
            | d :: ds => Some (min_of d ds, max_of d ds)
            end in
  match dd with
  | None => inl Py.NameError
  | Some (d1, d2) =>
      let edf2 := filter (λ r, Z.abs (days r - d1) < temporal_param
                               ∨ Z.abs (days r - d2) < temporal_param) edf2 in
      let eids2 := unique (id <$> edf2) in
      inr (foldl (merge_pair sp_buf iden edf d1) edges eids2, dd)
  end.

Fixpoint scan_ids (temporal_param sp_buf : Z)
  (st : list df_row * option (Z * Z)) (eids : list string)
  : Py.exn + (list df_row * option (Z * Z)) :=
  match eids with
  | [] => inr st
  | iden :: rest =>
      match scan_id temporal_param sp_buf st iden with
      | inl e => inl e
      | inr st' => scan_ids temporal_param sp_buf st' rest
      end
  end.

(* One pass of "Merging edge-case tile events" over the frame edges. *)
Definition merge_edges (temporal_param sp_buf : Z) (edges : list df_row)
  : Py.exn + list df_row :=
  let eids := unique (id <$> edges) in
  match scan_ids temporal_param sp_buf (edges, None) eids with
  | inl e => inl e
  | inr st => inr st.1
  end.

(* From the concatenated frame to the frame that is renumbered and saved. *)
Definition stitch (temporal_param sp_buf : Z) (df : list df_row)
  : Py.exn + list df_row :=
  let edges := filter (λ r, edge r = true) df in
  let not_edges := filter (λ r, edge r = false) df in
  match merge_edges temporal_param sp_buf edges with
  | inl e => inl e
  | inr edges => inr (not_edges ++ edges)
  end.

(* --------------------------------------------------------------------- *)
(*  ModelBuilder.buildEvents, resetting the ids in chronological order    *)
(* --------------------------------------------------------------------- *)

(* DataFrame.drop_duplicates(): the distinct rows in order of first
   appearance *)
Definition drop_duplicates {A} `{EqDecision A} (l : list A) : list A :=
  foldl (λ acc x, if bool_decide (x ∈ acc) then acc else acc ++ [x]) [] l.

(* df.groupby("id").days.transform("min") for the rows of id i: the
   smallest day among them. *)
Definition first_day (df : list df_row) (i : string) : Z :=
  match days <$> rows_of df i with
  | [] => 0                     (* not reached: a row is in its own group *)
  | d :: ds => min_of d ds
  end.

(* dict(zip(keys, values)): a later pair overwrites an earlier one *)
Definition dict_of_zip (keys : list string) (values : list Z) : gmap string Z :=
  foldl (λ m kv, <[kv.1 := kv.2]> m) ∅ (zip keys values).

(* A row of the saved table, columns id, tile, date, x, y. Series.map
   leaves NaN, here None, where the dict has no entry for the old id. *)
Record saved_row := mk_saved {
  new_id : option Z;
  saved_tile : string;
  saved_days : Z;
  saved_x : Z;
  saved_y : Z
}.

Section renumbering.

(* sort_values with the default kind (quicksort) is not stable: the
   order it gives to rows with equal keys is left open here. *)
Variable sort_firsts : list (string * Z) → list (string * Z).
Variable sort_rows : list saved_row → list saved_row.

Definition idmap (df : list df_row) : gmap string Z :=
  let firsts := drop_duplicates ((λ r, (id r, first_day df (id r))) <$> df) in
  let firsts := sort_firsts firsts in
  let new_ids := Z.of_nat <$> seq 1 (length firsts) in
  dict_of_zip firsts.*1 new_ids.

Definition renumber (df : list df_row) : list saved_row :=
  let m := idmap df in
  sort_rows ((λ r, mk_saved (m !! id r) (tile_name r) (days r) (xpos r) (ypos r))
               <$> df).

End renumbering.

(* --------------------------------------------------------------------- *)
(*  convertDates                                                          *)
(* --------------------------------------------------------------------- *)

Definition convertDate (julien_day year : Z) : Datetime.exn + Z :=
  let base := Datetime.days_before_year 1970 + 1 in     (* datetime(1970, 1, 1) *)
  match Datetime.january_first year with
  | inl e => inl e
  | inr first =>
      match Datetime.timedelta julien_day with
      | inl e => inl e
      | inr delta =>
          match Datetime.add first delta with
          | inl e => inl e
          | inr date => inr (date - base)
          end
      end
  end.

(* A two dimensional numpy array of integers [y, x]. *)
Record ndarray2 := mk_ndarray2 {
  rows2 : nat;
  cols2 : nat;
  cell : nat → nat → Z
}.

(* array[y, x] = v, in place *)
Definition set_cell (a : ndarray2) (y x : nat) (v : Z) : ndarray2 :=
  mk_ndarray2 (rows2 a) (cols2 a)
              (λ i j, if decide (i = y ∧ j = x) then v else cell a i j).

Section convert_dates.

(* Storing a Python int in a cell converts it to the array's integer
   type. What numpy does with a value outside the range of that type
   depends on its version (wrap around, or OverflowError, here None) and
   is left open. *)
Variable setitem : Z → option Z.

(* for l in locs: array[y, x] = convertDate(array[y, x], year) *)
Fixpoint convert_cells (locs : list (nat * nat)) (year : Z) (array : ndarray2)
  : Datetime.exn + ndarray2 :=
  match locs with
  | [] => inr array
  | (y, x) :: rest =>
      match convertDate (cell array y x) year with
      | inl e => inl e
      | inr days =>
          match setitem days with
          | None => inl Datetime.OverflowError
          | Some v => convert_cells rest year (set_cell array y x v)
          end
      end
  end.

Definition convertDates (array : ndarray2) (year : Z) : Datetime.exn + ndarray2 :=
  let locs := np_where2 (rows2 array) (cols2 array)
                (λ y x, bool_decide (cell array y x > 0)) in
  convert_cells locs year array.

End convert_dates.

(* --------------------------------------------------------------------- *)
(*  mode                                                                  *)
(* --------------------------------------------------------------------- *)

(* mode(lst) on a pandas Series of integers. len(np.unique(lst)) is the
   number of distinct values; counts is the dict {len(a): a for a in
   grouped_lst}, in which a later group overwrites an earlier one of the
   same length; np.max raises ValueError on an empty list of keys. *)
Definition mode (lst : list Z) : Py.exn + Z :=
  if decide (1 < length (drop_duplicates lst))%nat then
    let grouped_lst := (λ s, filter (λ v, v = s) lst) <$> lst in
    let counts : gmap nat (list Z) :=
      foldl (λ m a, <[length a := a]> m) ∅ grouped_lst in
    match (map_to_list counts).*1 with
    | [] => inl Py.ValueError
    | k :: ks =>
        let max_count := foldr Nat.max k ks in
        match counts !! max_count with
        | Some (x :: _) => inr x
        | Some [] => inl Py.IndexError
        | None => inl Py.IndexError      (* a KeyError; max_count is a key *)
        end
    end
  else
    match drop_duplicates lst with
    | [] => inl Py.IndexError
    | x :: _ => inr x
    end.

(* Two rows the code's own tests would bring together: close in time and
   close in space, coordinate by coordinate. *)
Definition adjacent_rows (temporal_param sp_buf : Z) (r1 r2 : df_row) : Prop :=
  Z.abs (days r1 - days r2) < temporal_param
  ∧ Z.abs (ypos r1 - ypos r2) < sp_buf
  ∧ Z.abs (xpos r1 - xpos r2) < sp_buf.

(* --------------------------------------------------------------------- *)
(*  Predicates the properties are stated with                             *)
(* --------------------------------------------------------------------- *)

(* Row-major order on np.where positions. *)
Definition nat_row_major_lt (p q : nat * nat) : Prop :=
  (p.1 < q.1)%nat ∨ (p.1 = q.1 ∧ (p.2 < q.2)%nat).

(* One axis of get_spatial_window: the (center, origin) pair it chooses. *)
Definition axis_center (sp dim i : Z) : Z * Z :=
  if bool_decide (i ∈ (λ t, 0 + t) <$> Py.range sp) then (i, 0)
  else if bool_decide (i ∈ (λ t, dim - t) <$> Py.range sp) then (i - dim, i - sp)
  else (sp, i - sp).

(* A perimeter that was never merged away: no merge id, points only. *)
Definition live (p : EventPerimeter) : Prop :=
  merge_id p = None ∧ ∀ c, c ∈ coords p → ∃ pt, c = Pt pt.

(* A perimeter as merge_perimeters leaves the obsolete one. *)
Definition tombstone (p : EventPerimeter) : Prop :=
  ∃ m l, merge_id p = Some m ∧ coords p = [Notice (merge_notice m); PtList l].

(* perimeters[id - 1] is the perimeter numbered id. *)
Definition aligned (s : store) : Prop :=
  next_event_id s = Z.of_nat (length (perimeters s)) + 1
  ∧ ∀ i p, perimeters s !! i = Some p →
      event_id p = Z.of_nat i + 1
      ∧ Py.index (length (perimeters s)) (event_id p - 1) = Some i.

(* Every entry of the event grid is a point filed under a live perimeter. *)
Definition grid_live (s : store) : Prop :=
  ∀ k e, event_grid s !! k = Some e →
    ∃ pt i p, k = inl pt
      ∧ Py.index (length (perimeters s)) (e - 1) = Some i
      ∧ perimeters s !! i = Some p
      ∧ event_id p = e
      ∧ merge_id p = None
      ∧ starts_with_notice p ≠ Some true.

(* The invariant of classification. *)
Record wf (s : store) : Prop := mk_wf {
  wf_next : next_event_id s = Z.of_nat (length (perimeters s)) + 1;
  wf_ids : ∀ i p, perimeters s !! i = Some p → event_id p = Z.of_nat i + 1;
  wf_state : ∀ i p, perimeters s !! i = Some p → live p ∨ tombstone p;
  wf_grid : ∀ k e, event_grid s !! k = Some e →
      ∃ pt p, k = inl pt ∧ 1 ≤ e
        ∧ perimeters s !! Z.to_nat (e - 1) = Some p
        ∧ live p ∧ Pt pt ∈ coords p
}.

(* How the perimeters list may change between two moments: it only grows,
   every position keeps its event id, and a tombstone is never touched. *)
Definition extends (s s' : store) : Prop :=
  (length (perimeters s) ≤ length (perimeters s'))%nat
  ∧ ∀ i p, perimeters s !! i = Some p →
      ∃ p', perimeters s' !! i = Some p'
        ∧ event_id p' = event_id p
        ∧ (tombstone p → p' = p).

(* A run of classification steps. *)
Definition run (T : tile) (steps : list (Z * Z * Z)) : M unit :=
  for_each steps (classify_step T).

(* The store an outcome stops in, if it stops. *)
Definition final_store {A} (o : outcome A) : option store :=
  match o with
  | Done _ s => Some s
  | Raised _ s => Some s
  | Hangs => None
  end.

(* The steps get_event_perimeters takes for one available pair: one per
   positive value of the cell's time series. *)
Definition pair_steps (T : tile) (pair : Z * Z) : list (Z * Z * Z) :=
  let arr := input_array T in
  let dims := (Z.of_nat (ny arr), Z.of_nat (nx arr)) in
  let w := get_spatial_window (spatial_param T) pair.1 pair.2 dims in
  match column (extract_window arr w) (center w).1 (center w).2 with
  | inl _ => []
  | inr center_burn => (λ b, (pair, b)) <$> filter (λ b, b > 0) center_burn
  end.

(* The steps get_event_perimeters takes on a tile, in order. *)
Definition steps_of (T : tile) : list (Z * Z * Z) :=
  match get_availables (input_array T) with
  | inl _ => []
  | inr pairs => pairs ≫= pair_steps T
  end.

(* A tile whose coordinate vectors fit its array. *)
Definition well_formed (T : tile) : Prop :=
  0 ≤ spatial_param T
  ∧ nz (input_array T) ≠ 0%nat
  ∧ length (coord_y T) = ny (input_array T)
  ∧ length (coord_x T) = nx (input_array T).

(* The grid after "for p in pts: event_grid[p] = e". *)
Definition fill (e : Z) (eg : gmap key Z) (pts : list point) : gmap key Z :=
  foldl (λ g p, <[(inl p : key) := e]> g) eg pts.

(* --------------------------------------------------------------------- *)
(*  Concrete tiles and tables                                             *)
(* --------------------------------------------------------------------- *)

(* A 3 x 4 tile with one time step, spatial_param 1, temporal_param 3. *)
Definition tile_overlap : tile :=
  mk_tile 1 3
    (of_lists 1 3 4 [[[16; 16; 10; 20];
                      [12; 20; 14; 18];
                      [14; 14; 20; 16]]])
    [300; 200; 100] [10; 20; 30; 40].

(* A 2 x 2 tile whose only detection is day 5, with the default
   temporal_param 11. *)
Definition tile_early : tile :=
  mk_tile 1 11 (of_lists 1 2 2 [[[5; 0]; [0; 0]]]) [200; 100] [10; 20].

(* A 4 x 4 tile with one detection in the corner and one next to it inside. *)
Definition tile_corner : tile :=
  mk_tile 1 11
    (of_lists 1 4 4 [[[100; 0; 0; 0];
                      [0; 100; 0; 0];
                      [0; 0; 0; 0];
                      [0; 0; 0; 0]]])
    [400; 300; 200; 100] [10; 20; 30; 40].

(* A store in which perimeter 2 was merged into perimeter 1. *)
Definition store_merged : store :=
  mk_store {[ (inl (300, 10, 16) : key) := 1; (inl (300, 20, 16) : key) := 1 ]} 3
    [ mk_perimeter 1 None [Pt (300, 10, 16); Pt (300, 20, 16)];
      mk_perimeter 2 (Some 1) [Notice (merge_notice 1); PtList [Pt (300, 20, 16)]] ].

(* Two single-detection edge events facing each other across the seam of
   two tiles, in the same row of pixels. *)
Definition df_seam : list df_row :=
  [ mk_df_row "h08v05_1" 50 1000 4990 true "h08v05";
    mk_df_row "h09v05_1" 52 1000 5010 true "h09v05" ].

(* The same two events one pixel row apart. *)
Definition df_seam_diagonal : list df_row :=
  [ mk_df_row "h08v05_1" 50 1000 4990 true "h08v05";
    mk_df_row "h09v05_1" 52 1010 5010 true "h09v05" ].

(* Three edge events: two short ones in tile h08v05 and a long one in
   h09v05 whose middle detection touches the second. *)
Definition df_chain : list df_row :=
  [ mk_df_row "h08v05_1" 45 99 99 true "h08v05";
    mk_df_row "h08v05_2" 50 100 100 true "h08v05";
    mk_df_row "h09v05_1" 30 500 500 true "h09v05";
    mk_df_row "h09v05_1" 50 101 101 true "h09v05";
    mk_df_row "h09v05_1" 70 900 900 true "h09v05" ].

(* Two rows that describe the same detection, whatever their ids. *)
Definition same_detection (r r' : df_row) : Prop :=
  days r' = days r ∧ ypos r' = ypos r ∧ xpos r' = xpos r
  ∧ edge r' = edge r ∧ tile_name r' = tile_name r.

(* What a pass of the stitcher keeps: the detections row by row, and ids
   drawn from those of the frame it started with. *)
Definition relabelling (edges0 edges : list df_row) : Prop :=
  Forall2 same_detection edges0 edges
  ∧ ∀ r, r ∈ edges → id r ∈ id <$> edges0.

(* --------------------------------------------------------------------- *)
(*  Further predicates on stores and steps                                *)
(* --------------------------------------------------------------------- *)

(* The point is a member of some live perimeter. *)
Definition held (s : store) (pt : point) : Prop :=
  ∃ i p, perimeters s !! i = Some p ∧ live p ∧ Pt pt ∈ coords p.

(* Nothing filed is lost between two moments: every key of the event grid
   is still a key, and every point of a live perimeter is still a point of
   a live perimeter. *)
Definition keeps (s s' : store) : Prop :=
  (∀ k, is_Some (event_grid s !! k) → is_Some (event_grid s' !! k))
  ∧ ∀ pt, held s pt → held s' pt.

(* No perimeter has an empty coords list. *)
Definition all_nonempty (s : store) : Prop :=
  ∀ i p, perimeters s !! i = Some p → coords p ≠ [].

(* The store a step leaves, by the branch it takes on the candidate
   points pts. *)
Inductive step_result (s : store) (pts : list point) : store → Prop :=
| step_create :
    (assign_points (event_grid s) pts [] []).2 = [] →
    step_result s pts
      (mk_store (fill (next_event_id s) (event_grid s)
                      (assign_points (event_grid s) pts [] []).1)
                (next_event_id s + 1)
                (perimeters s ++
                 [new_perimeter (next_event_id s)
                    (Pt <$> (assign_points (event_grid s) pts [] []).1)]))
| step_same (e : Z) :
    (assign_points (event_grid s) pts [] []).2 = [e] →
    (assign_points (event_grid s) pts [] []).1 = [] →
    step_result s pts s
| step_extend (e : Z) (pe : EventPerimeter) :
    (assign_points (event_grid s) pts [] []).2 = [e] →
    (assign_points (event_grid s) pts [] []).1 ≠ [] →
    1 ≤ e → perimeters s !! Z.to_nat (e - 1) = Some pe → live pe →
    step_result s pts
      (mk_store (fill e (event_grid s) (assign_points (event_grid s) pts [] []).1)
                (next_event_id s)
                (alter (λ p, add_coordinates p
                               (Pt <$> (assign_points (event_grid s) pts [] []).1))
                       (Z.to_nat (e - 1)) (perimeters s)))
| step_merge (e0 e1 : Z) (rest : list Z) (p0 p1 : EventPerimeter) (pts1 : list point) :
    (assign_points (event_grid s) pts [] []).2 = e0 :: e1 :: rest →
    1 ≤ e0 → 1 ≤ e1 → e0 ≠ e1 →
    perimeters s !! Z.to_nat (e0 - 1) = Some p0 → live p0 →
    perimeters s !! Z.to_nat (e1 - 1) = Some p1 → live p1 →
    coords p1 = Pt <$> pts1 →
    step_result s pts
      (mk_store (fill e0 (event_grid s) pts1) (next_event_id s)
         (alter (set_coords [Notice (merge_notice e0); PtList (Pt <$> pts1)])
                (Z.to_nat (e1 - 1))
            (alter (λ p, add_coordinates p (Pt <$> pts1)) (Z.to_nat (e0 - 1))
               (alter (set_merge_id e0) (Z.to_nat (e1 - 1)) (perimeters s))))).

(* The time series of a cell: input_array[:, y, x]. *)
Definition time_series (a : ndarray3) (y x : nat) : list Z :=
  (λ t, data a t y x) <$> seq 0 (nz a).

(* tile_early with a negative temporal_param. *)
Definition tile_negative : tile :=
  mk_tile 1 (-1) (of_lists 1 2 2 [[[5; 0]; [0; 0]]]) [200; 100] [10; 20].

(* Two ids of the edge frame whose rows the stitcher's tests cannot bring
   together: all their rows are temporal_param days or more apart, or in
   one coordinate every pair of rows is equal or sp_buf or more apart. *)
Definition apart (temporal_param sp_buf : Z) (edges : list df_row) (i j : string) : Prop :=
  (∀ r1 r2, r1 ∈ rows_of edges i → r2 ∈ rows_of edges j →
            temporal_param ≤ Z.abs (days r1 - days r2))
  ∨ (∀ r1 r2, r1 ∈ rows_of edges i → r2 ∈ rows_of edges j →
              ypos r1 = ypos r2 ∨ sp_buf ≤ Z.abs (ypos r1 - ypos r2))
  ∨ (∀ r1 r2, r1 ∈ rows_of edges i → r2 ∈ rows_of edges j →
              xpos r1 = xpos r2 ∨ sp_buf ≤ Z.abs (xpos r1 - xpos r2)).

(* Two edge events three days apart that touch at a corner, and a third
   one far away. *)
Definition df_corner : list df_row :=
  [ mk_df_row "h08v05_1" 50 1000 4990 true "h08v05";
    mk_df_row "h08v05_1" 53 1010 4990 true "h08v05";
    mk_df_row "h09v05_1" 52 1020 5010 true "h09v05";
    mk_df_row "h09v05_2" 300 9000 5010 true "h09v05" ].

(* The point is a cell of the tile's array, with the coordinates of the
   coordinate vectors and the cell's value as its day, and lies within
   spatial_param cells and temporal_param days of a detection (a cell
   with a positive value). *)
Definition near_detection (T : tile) (pt : point) : Prop :=
  ∃ t i j t0 i0 j0 : nat,
    let arr := input_array T in
    (t < nz arr)%nat ∧ (t0 < nz arr)%nat ∧ (i0 < ny arr)%nat ∧ (j0 < nx arr)%nat
    ∧ coord_y T !! i = Some pt.1.1
    ∧ coord_x T !! j = Some pt.1.2
    ∧ data arr t i j = pt.2
    ∧ data arr t0 i0 j0 > 0
    ∧ Z.abs (Z.of_nat i - Z.of_nat i0) ≤ spatial_param T
    ∧ Z.abs (Z.of_nat j - Z.of_nat j0) ≤ spatial_param T
    ∧ Z.abs (data arr t0 i0 j0 - data arr t i j) ≤ temporal_param T.

(* tile_corner with spatial_param 0. *)
Definition tile_single : tile :=
  mk_tile 0 11
    (of_lists 1 4 4 [[[100; 0; 0; 0];
                      [0; 100; 0; 0];
                      [0; 0; 0; 0];
                      [0; 0; 0; 0]]])
    [400; 300; 200; 100] [10; 20; 30; 40].

(* Ordering the pairs (id, first) by first, as sort_values("first") does. *)
Definition by_first (a b : string * Z) : Prop := a.2 ≤ b.2.

(* Ordering saved rows by id, NaN last, as sort_values("id") does. *)
Definition by_new_id (a b : saved_row) : Prop :=
  match new_id a, new_id b with
  | Some x, Some y => x ≤ y
  | _, None => True
  | None, Some _ => False
  end.

(* What sort_values is relied on for: it permutes the rows and leaves
   them ordered by the key. *)
Definition sorts {A} (R : relation A) (sort : list A → list A) : Prop :=
  ∀ l, sort l ≡ₚ l ∧ StronglySorted R (sort l).

#[global] Instance by_first_dec : RelDecision by_first.
Proof. intros a b. unfold by_first. apply _. Defined.

#[global] Instance by_new_id_dec : RelDecision by_new_id.
Proof. intros a b. unfold by_new_id. destruct (new_id a), (new_id b); apply _. Defined.

(* Storing in a 16 bit signed array, with wrap around. *)
Definition setitem_int16 (v : Z) : option Z := Some ((v + 32768) mod 65536 - 32768).

(* A 2 x 2 burn date raster: day 1 and day 366 of a year, and two cells
   without a detection (0 unburned, -1 fill value). *)
Definition raster_2020 : ndarray2 :=
  mk_ndarray2 2 2 (λ y x, (([[1; 0]; [-1; 366]] : list (list Z)) !!! y) !!! x).

(* Every point of a live perimeter is filed in the event grid under the
   id of that perimeter. *)
Definition filed (s : store) : Prop :=
  ∀ i p pt, perimeters s !! i = Some p → live p → Pt pt ∈ coords p →
            event_grid s !! (inl pt : key) = Some (Z.of_nat i + 1).

(* buildEvents from the concatenated frame df to the table it saves: the
   edge events are merged, then the ids are reset. *)
Definition merged_event_table
    (sort_firsts : list (string * Z) → list (string * Z))
    (sort_rows : list saved_row → list saved_row)
    (temporal_param sp_buf : Z) (df : list df_row) : Py.exn + list saved_row :=
  match stitch temporal_param sp_buf df with
  | inl e => inl e
  | inr df => inr (renumber sort_firsts sort_rows df)
  end.

(* The columns of a row that describe the detection: tile, day, x, y. *)
Definition detection (r : df_row) : string * Z * Z * Z :=
  (tile_name r, days r, xpos r, ypos r).

Definition saved_detection (r : saved_row) : string * Z * Z * Z :=
  (saved_tile r, saved_days r, saved_x r, saved_y r).

(* Every value of the array is a number of days that datetime can add to
   1970-01-01: the result lies between 0001-01-01 and 9999-12-31. *)
Definition days_in_range (T : tile) : Prop :=
  ∀ t i j, (t < nz (input_array T))%nat → (i < ny (input_array T))%nat →
           (j < nx (input_array T))%nat →
           -719162 ≤ data (input_array T) t i j ≤ 2932896.

(* A 1 x 1 tile whose detection lies after the year 9999. *)
Definition tile_far_future : tile :=
  mk_tile 1 11 (of_lists 1 1 1 [[[3000000]]]) [100] [10].

(* A 2 x 2 grid with two time steps: cell (0, 1) is positive at the second
   step only, cell (1, 0) at both, the other two at none. *)
Definition grid_two_steps : ndarray3 :=
  of_lists 2 2 2 [[[0; 0]; [3; 0]];
                  [[0; 7]; [1; -1]]].

(* --------------------------------------------------------------------- *)
(*  What a pass of the stitcher is described with                         *)
(* --------------------------------------------------------------------- *)








(* An event of day 50 between an earlier and a later one of another tile. *)
Definition df_stale : list df_row :=
  [ mk_df_row "h08v05_1" 50 100 100 true "h08v05";
    mk_df_row "h09v05_1" 45 101 101 true "h09v05";
    mk_df_row "h09v05_2" 55 99 99 true "h09v05" ].


(* ===================================================================== *)
(*  Properties                                                            *)
(* ===================================================================== *)

(* --------------------------------------------------------------------- *)
(*  ActiveCellExtractor                                                   *)
(* --------------------------------------------------------------------- *)
Section availables.

Lemma foldr_max_ge (d : Z) (l : list Z) :
  d ≤ foldr Z.max d l ∧ Forall (λ v, v ≤ foldr Z.max d l) l.
Proof.
  induction l as [|v l [IH1 IH2]]; simpl; [split; [lia | constructor]|].
  split; [lia|]. constructor; [lia|].
  eapply Forall_impl; [exact IH2|]. simpl. intros; lia.
Qed.

Lemma foldr_max_attained (d : Z) (l : list Z) :
  foldr Z.max d l = d ∨ foldr Z.max d l ∈ l.
Proof.
  induction l as [|v l IH]; simpl; [by left|].
  destruct (Z.max_spec v (foldr Z.max d l)) as [[_ ->]|[_ ->]].
  - destruct IH as [->|IH]; [by left | right; by constructor].
  - right. constructor.
Qed.

(* max_time is the largest value of the cell's time series. *)
Lemma max_time_is_max (a : ndarray3) (y x : nat) :
  nz a ≠ 0%nat →
  (∀ t, (t < nz a)%nat → data a t y x ≤ max_time a y x)
  ∧ (∃ t, (t < nz a)%nat ∧ data a t y x = max_time a y x).
Proof.
  intros Hnz. unfold max_time.
  set (l := (λ t, data a t y x) <$> seq 1 (nz a - 1)).
  destruct (foldr_max_ge (data a 0 y x) l) as [H0 Hl].
  split.
  - intros t Ht. destruct t as [|t]; [done|].
    rewrite Forall_forall in Hl. apply Hl.
    apply list_elem_of_fmap. exists (S t). split; [done|].
    apply elem_of_seq. lia.
  - destruct (foldr_max_attained (data a 0 y x) l) as [->|Hin].
    + exists 0%nat. split; [lia | done].
    + apply list_elem_of_fmap in Hin as (t & Heq & Hin).
      apply elem_of_seq in Hin. exists t. split; [lia | done].
Qed.

Lemma max_time_pos (a : ndarray3) (y x : nat) :
  nz a ≠ 0%nat →
  max_time a y x > 0 ↔ ∃ t, (t < nz a)%nat ∧ data a t y x > 0.
Proof.
  intros Hnz. destruct (max_time_is_max a y x Hnz) as [Hub (t & Ht & Heq)].
  split.
  - intros Hpos. exists t. split; [done | lia].
  - intros (t' & Ht' & Hpos). specialize (Hub t' Ht'). lia.
Qed.

Lemma elem_of_np_where2 (ny nx : nat) (cond : nat → nat → bool) (y x : nat) :
  (y, x) ∈ np_where2 ny nx cond ↔ (y < ny)%nat ∧ (x < nx)%nat ∧ cond y x = true.
Proof.
  unfold np_where2. rewrite list_elem_of_bind. split.
  - intros (y' & Hin & Hy'). apply list_elem_of_bind in Hin as (x' & Hin & Hx').
    apply elem_of_seq in Hy', Hx'.
    destruct (cond y' x') eqn:Hc; [|by apply elem_of_nil in Hin].
    apply list_elem_of_singleton in Hin. simplify_eq. repeat split; [lia | lia | done].
  - intros (Hy & Hx & Hc). exists y. split; [|apply elem_of_seq; lia].
    apply list_elem_of_bind. exists x. split; [|apply elem_of_seq; lia].
    rewrite Hc. by apply list_elem_of_singleton.
Qed.

Lemma StronglySorted_bind_seq {B} (R : relation B) (f : nat → list B) (s n : nat) :
  (∀ i, StronglySorted R (f i)) →
  (∀ i j a b, (i < j)%nat → a ∈ f i → b ∈ f j → R a b) →
  StronglySorted R (seq s n ≫= f).
Proof.
  intros Hs Hlt. revert s. induction n as [|n IH]; intros s; simpl; [constructor|].
  apply StronglySorted_app_2; [|apply Hs|apply IH].
  intros a b Ha Hb. apply list_elem_of_bind in Hb as (j & Hb & Hj).
  apply elem_of_seq in Hj. eapply Hlt; [|exact Ha|exact Hb]. lia.
Qed.



Lemma np_where2_sorted (ny nx : nat) (cond : nat → nat → bool) :
  StronglySorted nat_row_major_lt (np_where2 ny nx cond).
Proof.
  unfold np_where2. apply StronglySorted_bind_seq.
  - intros y. apply StronglySorted_bind_seq.
    + intros x. destruct (cond y x); repeat constructor.
    + intros i j a b Hij Ha Hb.
      destruct (cond y i); [|by apply elem_of_nil in Ha].
      destruct (cond y j); [|by apply elem_of_nil in Hb].
      apply list_elem_of_singleton in Ha, Hb. subst. right. simpl. lia.
  - intros i j a b Hij Ha Hb.
    apply list_elem_of_bind in Ha as (xa & Ha & _).
    apply list_elem_of_bind in Hb as (xb & Hb & _).
    destruct (cond i xa); [|by apply elem_of_nil in Ha].
    destruct (cond j xb); [|by apply elem_of_nil in Hb].
    apply list_elem_of_singleton in Ha, Hb. subst. left. simpl. lia.
Qed.

End availables.

(** C8. For an array with at least one time step, get_availables returns
    exactly the cells (y, x) of the grid whose maximum over the time axis (a
    value of the cell's time series that no other value of it exceeds) is
    strictly positive, that is the cells with a positive value at some time
    step, in row-major order (y ascending, then x ascending, hence without
    repetition); when no value of the grid is positive the result is the
    empty list, returned normally. *)
Theorem get_availables_row_major (a : ndarray3) :
  nz a ≠ 0%nat →
  ∃ l, get_availables a = inr l
    ∧ (∀ y x : nat, (Z.of_nat y, Z.of_nat x) ∈ l ↔
         (y < ny a)%nat ∧ (x < nx a)%nat
         ∧ ∃ t0, (t0 < nz a)%nat
                 ∧ (∀ t, (t < nz a)%nat → data a t y x ≤ data a t0 y x)
                 ∧ data a t0 y x > 0)
    ∧ (∀ y x : nat, (Z.of_nat y, Z.of_nat x) ∈ l ↔
         (y < ny a)%nat ∧ (x < nx a)%nat
         ∧ ∃ t, (t < nz a)%nat ∧ data a t y x > 0)
    ∧ (∀ p, p ∈ l → 0 ≤ p.1 ∧ 0 ≤ p.2)
    ∧ StronglySorted row_major_lt l
    ∧ ((∀ t y x, (t < nz a)%nat → (y < ny a)%nat → (x < nx a)%nat →
          data a t y x ≤ 0) → l = []).
Proof.
  intros Hnz. unfold get_availables. destruct (decide (nz a = 0%nat)); [done|].
  eexists. split; [reflexivity|].
  set (cond := λ y x, bool_decide (max_time a y x > 0)).
  assert (Hmem : ∀ y x : nat,
            (Z.of_nat y, Z.of_nat x)
              ∈ (λ p : nat * nat, (Z.of_nat p.1, Z.of_nat p.2)) <$> np_where2 (ny a) (nx a) cond
            ↔ (y < ny a)%nat ∧ (x < nx a)%nat ∧ max_time a y x > 0).
  { intros y x. rewrite list_elem_of_fmap. split.
    + intros ([y' x'] & Heq & Hin). simpl in Heq. simplify_eq.
      apply elem_of_np_where2 in Hin as (? & ? & Hc).
      unfold cond in Hc. apply bool_decide_eq_true in Hc. done.
    + intros (Hy & Hx & Hpos). exists (y, x). split; [done|].
      apply elem_of_np_where2. repeat split; [done..|].
      unfold cond. by apply bool_decide_eq_true. }
  split; [|split; [|split; [|split]]].
  - intros y x. rewrite Hmem.
    destruct (max_time_is_max a y x Hnz) as [Hub (t0 & Ht0 & Heq)].
    split.
    + intros (Hy & Hx & Hpos). split; [done|]. split; [done|].
      exists t0. split; [done|]. split; [|lia].
      intros t Ht. rewrite Heq. by apply Hub.
    + intros (Hy & Hx & t1 & Ht1 & _ & Hpos). split; [done|]. split; [done|].
      specialize (Hub t1 Ht1). lia.
  - intros y x. rewrite Hmem, (max_time_pos a y x Hnz). done.
  - intros p Hp. apply list_elem_of_fmap in Hp as (q & -> & _). simpl. lia.
  - eapply StronglySorted_fmap; [|apply np_where2_sorted].
    intros p q [H|[H1 H2]]; [left | right]; simpl; lia.
  - intros Hall.
    destruct (np_where2 (ny a) (nx a) cond) as [|[y x] l] eqn:Hl; [done|].
    assert (Hin : (y, x) ∈ np_where2 (ny a) (nx a) cond) by (rewrite Hl; constructor).
    apply elem_of_np_where2 in Hin as (Hy & Hx & Hc).
    unfold cond in Hc. apply bool_decide_eq_true in Hc.
    apply max_time_pos in Hc as (t & Ht & Hpos); [|done].
    specialize (Hall t y x Ht Hy Hx). lia.
Qed.

Lemma get_availables_row_major_witness :
  get_availables grid_two_steps = inr [(0, 1); (1, 0)]
  ∧ (∀ y x : nat, (Z.of_nat y, Z.of_nat x) ∈ [(0, 1); (1, 0)] ↔
       (y < 2)%nat ∧ (x < 2)%nat
       ∧ ∃ t, (t < 2)%nat ∧ data grid_two_steps t y x > 0)
  ∧ StronglySorted row_major_lt [(0, 1); (1, 0)].
Proof.
  destruct (get_availables_row_major grid_two_steps)
    as (l & Hl & _ & Hmem & _ & Hsorted & _).
  - simpl. discriminate.
  - assert (l = [(0, 1); (1, 0)]) as -> by (vm_compute in Hl; congruence).
    split; [exact Hl|]. split; [exact Hmem | exact Hsorted].
Defined.

(* --------------------------------------------------------------------- *)
(*  SpatialWindowLocator                                                  *)
(* --------------------------------------------------------------------- *)
Section window.

Lemma elem_of_range (n i : Z) : i ∈ Py.range n ↔ 0 ≤ i < n.
Proof.
  unfold Py.range. rewrite list_elem_of_fmap. split.
  - intros (k & -> & Hk). apply elem_of_seq in Hk. lia.
  - intros Hi. exists (Z.to_nat i). split; [lia|]. apply elem_of_seq. lia.
Qed.

Lemma elem_of_low_edge (n i : Z) :
  i ∈ (λ t, 0 + t) <$> Py.range n ↔ 0 ≤ i < n.
Proof.
  rewrite list_elem_of_fmap. split.
  - intros (k & -> & Hk). apply elem_of_range in Hk. lia.
  - intros Hi. exists i. split; [lia|]. by apply elem_of_range.
Qed.

Lemma elem_of_high_edge (dim n i : Z) :
  i ∈ (λ t, dim - t) <$> Py.range n ↔ dim - n < i ≤ dim.
Proof.
  rewrite list_elem_of_fmap. split.
  - intros (k & -> & Hk). apply elem_of_range in Hk. lia.
  - intros Hi. exists (dim - i). split; [lia|]. apply elem_of_range. lia.
Qed.

Lemma axis_center_spec (sp : Z) (n : nat) (i : Z) :
  0 ≤ sp → 0 ≤ i < Z.of_nat n →
  let lo := Z.max 0 (i - sp) in
  let hi := Z.min (Z.of_nat n) (i + sp) in
  let len := (Py.clip n (hi + 1) - Py.clip n lo)%nat in
  (axis_center sp (Z.of_nat n) i).2 = lo
  ∧ Py.clip n lo = Z.to_nat lo
  ∧ Z.of_nat len = Z.min (i + sp) (Z.of_nat n - 1) - lo + 1
  ∧ Py.index len (axis_center sp (Z.of_nat n) i).1 = Some (Z.to_nat (i - lo)).
Proof.
  intros Hsp Hi lo hi len.
  assert (Hlo : Py.clip n lo = Z.to_nat lo).
  { unfold Py.clip, lo. case_decide; lia. }
  assert (Hhi : Z.of_nat (Py.clip n (hi + 1)) = Z.min (i + sp) (Z.of_nat n - 1) + 1).
  { unfold Py.clip, hi. case_decide; lia. }
  assert (Hlen : Z.of_nat len = Z.min (i + sp) (Z.of_nat n - 1) - lo + 1).
  { unfold len. rewrite Hlo. unfold lo in *. lia. }
  unfold axis_center.
  repeat case_bool_decide;
    repeat match goal with
           | H : _ ∈ (λ t, 0 + t) <$> _ |- _ => apply elem_of_low_edge in H
           | H : ¬ _ ∈ (λ t, 0 + t) <$> _ |- _ => rewrite elem_of_low_edge in H
           | H : _ ∈ (λ t, _ - t) <$> _ |- _ => apply elem_of_high_edge in H
           | H : ¬ _ ∈ (λ t, _ - t) <$> _ |- _ => rewrite elem_of_high_edge in H
           end; simpl;
    (split; [unfold lo; lia|]); (split; [done|]); (split; [done|]);
    unfold Py.index; repeat case_decide; try (f_equal; unfold lo in *; lia);
    unfold lo in *; lia.
Qed.

(* The window of an inside cell, axis by axis. *)
Lemma window_facts (arr : ndarray3) (sp y x : Z) :
  0 ≤ sp → 0 ≤ y < Z.of_nat (ny arr) → 0 ≤ x < Z.of_nat (nx arr) →
  let w := get_spatial_window sp y x (Z.of_nat (ny arr), Z.of_nat (nx arr)) in
  let window := extract_window arr w in
  (top w = Z.max 0 (y - sp) ∧ bottom w = Z.min (Z.of_nat (ny arr)) (y + sp)
   ∧ left w = Z.max 0 (x - sp) ∧ right w = Z.min (Z.of_nat (nx arr)) (x + sp))
  ∧ origin w = (top w, left w)
  ∧ (∀ t i j, data window t i j
       = data arr t (Z.to_nat (top w) + i)%nat (Z.to_nat (left w) + j)%nat)
  ∧ nz window = nz arr
  ∧ Z.of_nat (ny window)
    = Z.min (y + sp) (Z.of_nat (ny arr) - 1) - Z.max 0 (y - sp) + 1
  ∧ Z.of_nat (nx window)
    = Z.min (x + sp) (Z.of_nat (nx arr) - 1) - Z.max 0 (x - sp) + 1
  ∧ Py.index (ny window) (center w).1 = Some (Z.to_nat (y - top w))
  ∧ Py.index (nx window) (center w).2 = Some (Z.to_nat (x - left w)).
Proof.
  intros Hsp Hy Hx w window.
  destruct (axis_center_spec sp (ny arr) y Hsp Hy) as (Hoy & Hcy & Hny & Hiy).
  destruct (axis_center_spec sp (nx arr) x Hsp Hx) as (Hox & Hcx & Hnx & Hix).
  assert (Hw : w = mk_window (Z.max 0 (y - sp)) (Z.min (Z.of_nat (ny arr)) (y + sp))
                 (Z.max 0 (x - sp)) (Z.min (Z.of_nat (nx arr)) (x + sp))
                 ((axis_center sp (Z.of_nat (ny arr)) y).1,
                  (axis_center sp (Z.of_nat (nx arr)) x).1)
                 ((axis_center sp (Z.of_nat (ny arr)) y).2,
                  (axis_center sp (Z.of_nat (nx arr)) x).2)).
  { unfold w, get_spatial_window, axis_center. simpl.
    repeat case_bool_decide; reflexivity. }
  unfold window, extract_window, slice_yx. rewrite Hw. simpl.
  split; [done|]. split; [by rewrite Hoy, Hox|].
  split; [intros t i j; by rewrite Hcy, Hcx|].
  split; [done|]. done.
Qed.

End window.

(** C5. For a cell (y, x) inside the grid and a radius spatial_param >= 0,
    get_spatial_window returns the bounds [y - sp, y + sp] clipped to the
    grid (top and left never negative, bottom and right never beyond the
    dimension), an origin equal to (top, left), and a center such that the
    window arr[:, top:bottom+1, left:right+1], indexed at the center the way
    Python indexes (a negative center counts from the end), is the cell
    (y, x) itself. Every cell of the window is the grid cell at
    origin + local position and lies inside the grid (no wrap-around). The
    window has 2*sp + 1 rows (columns) away from the borders and fewer
    within sp cells of a border. *)
Theorem spatial_window_center (arr : ndarray3) (sp y x : Z) :
  0 ≤ sp → 0 ≤ y < Z.of_nat (ny arr) → 0 ≤ x < Z.of_nat (nx arr) →
  let w := get_spatial_window sp y x (Z.of_nat (ny arr), Z.of_nat (nx arr)) in
  let window := extract_window arr w in
  (top w = Z.max 0 (y - sp) ∧ bottom w = Z.min (Z.of_nat (ny arr)) (y + sp)
   ∧ left w = Z.max 0 (x - sp) ∧ right w = Z.min (Z.of_nat (nx arr)) (x + sp))
  ∧ (0 ≤ top w ≤ y ∧ y ≤ bottom w ≤ Z.of_nat (ny arr)
     ∧ 0 ≤ left w ≤ x ∧ x ≤ right w ≤ Z.of_nat (nx arr))
  ∧ origin w = (top w, left w)
  ∧ (∀ t i j, (i < ny window)%nat → (j < nx window)%nat →
       data window t i j
       = data arr t (Z.to_nat (top w) + i)%nat (Z.to_nat (left w) + j)%nat
       ∧ top w + Z.of_nat i < Z.of_nat (ny arr)
       ∧ left w + Z.of_nat j < Z.of_nat (nx arr))
  ∧ (∃ ci cj,
       Py.index (ny window) (center w).1 = Some ci
       ∧ Py.index (nx window) (center w).2 = Some cj
       ∧ top w + Z.of_nat ci = y ∧ left w + Z.of_nat cj = x
       ∧ (∀ t, data window t ci cj = data arr t (Z.to_nat y) (Z.to_nat x)))
  ∧ column window (center w).1 (center w).2
    = inr ((λ t, data arr t (Z.to_nat y) (Z.to_nat x)) <$> seq 0 (nz arr))
  ∧ (Z.of_nat (ny window)
     = Z.min (y + sp) (Z.of_nat (ny arr) - 1) - Z.max 0 (y - sp) + 1
     ∧ Z.of_nat (nx window)
       = Z.min (x + sp) (Z.of_nat (nx arr) - 1) - Z.max 0 (x - sp) + 1)
  ∧ (sp ≤ y < Z.of_nat (ny arr) - sp → Z.of_nat (ny window) = 2 * sp + 1)
  ∧ (sp ≤ x < Z.of_nat (nx arr) - sp → Z.of_nat (nx window) = 2 * sp + 1)
  ∧ (y < sp ∨ Z.of_nat (ny arr) - sp ≤ y → Z.of_nat (ny window) < 2 * sp + 1)
  ∧ (x < sp ∨ Z.of_nat (nx arr) - sp ≤ x → Z.of_nat (nx window) < 2 * sp + 1).
Proof.
  intros Hsp Hy Hx w window.
  destruct (window_facts arr sp y x Hsp Hy Hx)
    as ((Ht & Hb & Hl & Hr) & Ho & Hdata & Hnz & Hwy & Hwx & Hciy & Hcix).
  fold w in Ht, Hb, Hl, Hr, Ho, Hdata, Hnz, Hwy, Hwx, Hciy, Hcix.
  fold window in Hdata, Hnz, Hwy, Hwx, Hciy, Hcix.
  assert (Hcell : ∀ t, data window t (Z.to_nat (y - top w)) (Z.to_nat (x - left w))
                       = data arr t (Z.to_nat y) (Z.to_nat x)).
  { intros t. rewrite Hdata. f_equal; lia. }
  split; [done|]. split; [lia|]. split; [done|].
  split; [intros t i j Hi Hj; split; [apply Hdata|lia]|].
  split.
  { exists (Z.to_nat (y - top w)), (Z.to_nat (x - left w)).
    repeat split; [done | done | lia | lia | done]. }
  split.
  { unfold column. rewrite Hciy, Hcix, Hnz. f_equal.
    apply list_fmap_ext. intros _ t _. apply Hcell. }
  split; [done|]. repeat split; lia.
Qed.

Lemma spatial_window_center_witness :
  let arr := input_array tile_overlap in
  let w := get_spatial_window 1 2 3 (Z.of_nat (ny arr), Z.of_nat (nx arr)) in
  (0 ≤ 1 ∧ 0 ≤ 2 < Z.of_nat (ny arr) ∧ 0 ≤ 3 < Z.of_nat (nx arr))
  ∧ origin w = (top w, left w)
  ∧ column (extract_window arr w) (center w).1 (center w).2
    = inr ((λ t, data arr t (Z.to_nat 2) (Z.to_nat 3)) <$> seq 0 (nz arr)).
Proof.
  intros arr w.
  assert (H1 : 0 ≤ 1) by (vm_compute; discriminate).
  assert (H2 : 0 ≤ 2 < Z.of_nat (ny arr)) by (split; vm_compute; (discriminate || reflexivity)).
  assert (H3 : 0 ≤ 3 < Z.of_nat (nx arr)) by (split; vm_compute; (discriminate || reflexivity)).
  split; [done|].
  destruct (spatial_window_center arr 1 2 3 H1 H2 H3)
    as (_ & _ & Ho & _ & _ & Hcol & _).
  split; [exact Ho | exact Hcol].
Defined.

(* --------------------------------------------------------------------- *)
(*  The store monad                                                        *)
(* --------------------------------------------------------------------- *)
Section monad.

Lemma for_each_app {A} (l1 l2 : list A) (body : A → M unit) (s : store) :
  for_each (l1 ++ l2) body s = (for_each l1 body ;; for_each l2 body) s.
Proof.
  revert s. induction l1 as [|a l1 IH]; intros s; simpl; [done|].
  unfold bind in *. destruct (body a s) as [[] s'| |]; [|done..].
  apply IH.
Qed.

Lemma for_each_fmap {A B} (f : A → B) (l : list A) (body : B → M unit) (s : store) :
  for_each (f <$> l) body s = for_each l (λ a, body (f a)) s.
Proof.
  revert s. induction l as [|a l IH]; intros s; simpl; [done|].
  unfold bind. destruct (body (f a) s) as [[] s'| |]; [|done..]. apply IH.
Qed.

(* An invariant carried through a loop whose body keeps it. *)
Lemma for_each_final {A} (I : store → Prop) (l : list A) (body : A → M unit) (s : store) :
  (∀ a s, I s → ∃ s', final_store (body a s) = Some s' ∧ I s') →
  I s → ∃ s', final_store (for_each l body s) = Some s' ∧ I s'.
Proof.
  intros Hbody. revert s. induction l as [|a l IH]; intros s Hs; simpl.
  - by exists s.
  - unfold bind. destruct (Hbody a s Hs) as (s' & Hf & Hs').
    destruct (body a s) as [[] s1|e s1|]; simpl in Hf; simplify_eq.
    + by apply IH.
    + by exists s'.
Qed.

End monad.

(* --------------------------------------------------------------------- *)
(*  The event grid                                                         *)
(* --------------------------------------------------------------------- *)
Section grid.

Lemma add_event_grid_points (e : Z) (pts : list point) (s : store) :
  add_event_grid e (Pt <$> pts) s
  = Done tt (mk_store (fill e (event_grid s) pts) (next_event_id s) (perimeters s)).
Proof.
  revert s. induction pts as [|p pts IH]; intros [eg n ps]; [done|].
  unfold add_event_grid in *. simpl. unfold bind at 1. simpl.
  rewrite IH. done.
Qed.

Lemma lookup_fill (e : Z) (eg : gmap key Z) (pts : list point) (k : key) :
  fill e eg pts !! k = if decide (k ∈ (inl <$> pts : list key)) then Some e else eg !! k.
Proof.
  revert eg. induction pts as [|p pts IH]; intros eg.
  - rewrite fmap_nil, decide_False by apply not_elem_of_nil. done.
  - change (fill e eg (p :: pts)) with (fill e (<[(inl p : key) := e]> eg) pts).
    rewrite IH, fmap_cons.
    destruct (decide (k ∈ (inl <$> pts : list key))) as [Hin|Hnin].
    + rewrite decide_True by (by constructor). done.
    + destruct (decide (k = inl p)) as [->|Hne].
      * rewrite lookup_insert_eq. rewrite decide_True by constructor. done.
      * rewrite lookup_insert_ne by done. rewrite decide_False; [done|].
        intros [?|?]%elem_of_cons; done.
Qed.

Lemma assign_points_spec (eg : gmap key Z) (pts new : list point) (ids : list Z) :
  let r := assign_points eg pts new ids in
  (∀ e, e ∈ r.2 → e ∈ ids ∨ ∃ p, p ∈ pts ∧ eg !! (inl p : key) = Some e)
  ∧ (NoDup ids → NoDup r.2)
  ∧ (∀ p, p ∈ r.1 → p ∈ new ∨ (p ∈ pts ∧ eg !! (inl p : key) = None)).
Proof.
  revert new ids. induction pts as [|q pts IH]; intros new ids; simpl.
  - split; [by left|]. split; [done | by left].
  - destruct (eg !! (inl q : key)) as [e'|] eqn:Hq.
    + case_bool_decide as Hin.
      * destruct (IH new ids) as (H1 & H2 & H3). split; [|split; [done|]].
        -- intros e He. destruct (H1 e He) as [?|(p & ? & ?)]; [by left|].
           right. exists p. split; [by constructor | done].
        -- intros p Hp. destruct (H3 p Hp) as [?|[? ?]]; [by left|].
           right. split; [by constructor | done].
      * destruct (IH new (ids ++ [e'])) as (H1 & H2 & H3). split; [|split].
        -- intros e He. destruct (H1 e He) as [Ha|(p & ? & ?)].
           ++ apply elem_of_app in Ha as [?|Ha]; [by left|].
              apply list_elem_of_singleton in Ha as ->.
              right. exists q. split; [constructor | done].
           ++ right. exists p. split; [by constructor | done].
        -- intros Hnd. apply H2. apply NoDup_app. split; [done|].
           split; [|apply NoDup_singleton].
           intros x Hx Hx'. apply list_elem_of_singleton in Hx' as ->. done.
        -- intros p Hp. destruct (H3 p Hp) as [?|[? ?]]; [by left|].
           right. split; [by constructor | done].
    + destruct (IH (new ++ [q]) ids) as (H1 & H2 & H3). split; [|split; [done|]].
      * intros e He. destruct (H1 e He) as [?|(p & ? & ?)]; [by left|].
        right. exists p. split; [by constructor | done].
      * intros p Hp. destruct (H3 p Hp) as [Ha|[? ?]].
        -- apply elem_of_app in Ha as [?|Ha]; [by left|].
           apply list_elem_of_singleton in Ha as ->.
           right. split; [constructor | done].
        -- right. split; [by constructor | done].
Qed.

End grid.

Ltac fill_grid :=
  match goal with
  | |- context [add_event_grid ?e (Pt <$> ?l) ?s] =>
      rewrite (add_event_grid_points e l s)
  end.

Section classification.

Lemma index_of_id (n : nat) (e : Z) :
  1 ≤ e → (Z.to_nat (e - 1) < n)%nat → Py.index n (e - 1) = Some (Z.to_nat (e - 1)).
Proof. intros. unfold Py.index. rewrite decide_True by lia. done. Qed.

Lemma live_points (p : EventPerimeter) :
  live p → ∃ pts, coords p = Pt <$> pts.
Proof.
  intros [_ H]. induction (coords p) as [|c l IH]; [by exists []|].
  destruct IH as [pts ->]; [intros c' Hc'; apply H; by constructor|].
  destruct (H c) as [pt ->]; [constructor|]. by exists (pt :: pts).
Qed.

Lemma live_not_tombstone (p : EventPerimeter) : live p → ¬ tombstone p.
Proof. intros [H _] (m & l & H' & _). congruence. Qed.

(* What merge_perimeters does when both ids address different perimeters
   and the obsolete one holds points only. *)
Lemma merge_perimeters_live (s : store) (event_id obsolete_id : Z)
      (ie io : nat) (po : EventPerimeter) (pts : list point) :
  Py.index (length (perimeters s)) (obsolete_id - 1) = Some io →
  Py.index (length (perimeters s)) (event_id - 1) = Some ie →
  ie ≠ io →
  perimeters s !! io = Some po →
  coords po = Pt <$> pts →
  merge_perimeters event_id obsolete_id s
  = Done tt (mk_store
      (fill event_id (event_grid s) pts)
      (next_event_id s)
      (alter (set_coords [Notice (merge_notice event_id); PtList (Pt <$> pts)]) io
         (alter (λ p, add_coordinates p (Pt <$> pts)) ie
            (alter (set_merge_id event_id) io (perimeters s))))).
Proof.
  intros Hio Hie Hne Hpo Hc. destruct s as [eg n ps]. simpl in *.
  cbv [merge_perimeters bind perimeter_index update_perimeter get put ret raise].
  simpl. rewrite Hio. simpl.
  rewrite list_lookup_alter_eq, Hpo. simpl. rewrite Hc.
  change (for_each (Pt <$> pts) (λ p, grid_set p event_id))
    with (add_event_grid event_id (Pt <$> pts)).
  rewrite add_event_grid_points. simpl.
  rewrite length_alter, Hie. simpl.
  rewrite decide_False by done. done.
Qed.

(* What merge_perimeters does when the obsolete perimeter is a tombstone. *)
Lemma merge_perimeters_tombstone (s : store) (event_id obsolete_id : Z)
      (io : nat) (po : EventPerimeter) (notice : string) (old : list coord) :
  Py.index (length (perimeters s)) (obsolete_id - 1) = Some io →
  perimeters s !! io = Some po →
  coords po = [Notice notice; PtList old] →
  merge_perimeters event_id obsolete_id s
  = Raised Py.TypeError (mk_store
      (<[(inr notice : key) := event_id]> (event_grid s))
      (next_event_id s)
      (alter (set_merge_id event_id) io (perimeters s))).
Proof.
  intros Hio Hpo Hc. destruct s as [eg n ps]. simpl in *.
  cbv [merge_perimeters bind perimeter_index update_perimeter get put ret raise].
  simpl. rewrite Hio. simpl.
  rewrite list_lookup_alter_eq, Hpo. simpl. rewrite Hc. simpl.
  cbv [bind grid_set get put raise]. simpl. done.
Qed.

Lemma live_add (p : EventPerimeter) (pts : list point) :
  live p → live (add_coordinates p (Pt <$> pts)).
Proof.
  intros [Hm Hc]. split; [done|]. simpl. intros c [Hin|Hin]%elem_of_app; [by apply Hc|].
  apply list_elem_of_fmap in Hin as (pt & -> & _). by exists pt.
Qed.

Lemma extends_refl (s : store) : extends s s.
Proof. split; [done|]. intros i p Hp. by exists p. Qed.

Lemma extends_trans (s1 s2 s3 : store) :
  extends s1 s2 → extends s2 s3 → extends s1 s3.
Proof.
  intros [Hl1 H1] [Hl2 H2]. split; [lia|]. intros i p Hp.
  destruct (H1 i p Hp) as (p' & Hp' & Hid & Ht).
  destruct (H2 i p' Hp') as (p'' & Hp'' & Hid' & Ht').
  exists p''. split; [done|]. split; [congruence|].
  intros Htomb. specialize (Ht Htomb). subst p'. by apply Ht'.
Qed.

(* A new perimeter is appended and its points are filed under its id. *)
Lemma wf_create (s : store) (new : list point) :
  wf s →
  let s' := mk_store (fill (next_event_id s) (event_grid s) new)
                     (next_event_id s + 1)
                     (perimeters s ++ [new_perimeter (next_event_id s) (Pt <$> new)]) in
  wf s' ∧ extends s s'.
Proof.
  intros [Hn Hids Hst Hg]. destruct s as [eg n ps]. simpl in *. split; [split|]; simpl.
  - rewrite length_app. simpl. lia.
  - intros i p Hp. apply lookup_app_Some in Hp as [Hp|[Hlen Hp]]; [by apply Hids|].
    apply list_lookup_singleton_Some in Hp as [Hi <-]. simpl. lia.
  - intros i p Hp. apply lookup_app_Some in Hp as [Hp|[Hlen Hp]]; [by eapply Hst|].
    apply list_lookup_singleton_Some in Hp as [Hi <-]. left.
    apply (live_add (mk_perimeter n None [])). split; [done|].
    intros c Hc. by apply elem_of_nil in Hc.
  - intros k e. rewrite lookup_fill. case_decide as Hin.
    + intros [= <-]. apply list_elem_of_fmap in Hin as (pt & -> & Hin).
      exists pt, (new_perimeter n (Pt <$> new)). split; [done|]. split; [lia|].
      split; [|split].
      * replace (Z.to_nat (n - 1)) with (length ps + 0)%nat by lia.
        by rewrite lookup_app_r, Nat.add_comm, Nat.add_sub by lia.
      * apply (live_add (mk_perimeter n None [])). split; [done|].
        intros c Hc. by apply elem_of_nil in Hc.
      * simpl. by apply list_elem_of_fmap_2.
    + intros He. destruct (Hg k e He) as (pt & p & -> & H1 & Hp & Hl & Hpt).
      exists pt, p. repeat split; try done; [|apply Hl..].
      by apply lookup_app_l_Some.
  - split; simpl; [rewrite length_app; lia|].
    intros i p Hp. exists p. split; [by apply lookup_app_l_Some | done].
Qed.

(* Points join the live perimeter numbered e and are filed under e. *)
Lemma wf_absorb (s : store) (e : Z) (pe : EventPerimeter) (new : list point) :
  wf s → 1 ≤ e → perimeters s !! Z.to_nat (e - 1) = Some pe → live pe →
  let s' := mk_store (fill e (event_grid s) new) (next_event_id s)
              (alter (λ p, add_coordinates p (Pt <$> new)) (Z.to_nat (e - 1))
                     (perimeters s)) in
  wf s' ∧ extends s s'.
Proof.
  intros [Hn Hids Hst Hg] He Hpe Hlive. destruct s as [eg n ps]. simpl in *.
  split; [split|]; simpl.
  - by rewrite length_alter.
  - intros i p. rewrite list_lookup_alter. case_decide as Hi; [|by apply Hids].
    subst i. rewrite Hpe. intros [= <-]. simpl. by apply Hids.
  - intros i p. rewrite list_lookup_alter. case_decide as Hi; [|by apply Hst].
    subst i. rewrite Hpe. intros [= <-]. left. by apply live_add.
  - intros k e'. rewrite lookup_fill. case_decide as Hin.
    + intros [= <-]. apply list_elem_of_fmap in Hin as (pt & -> & Hin).
      exists pt, (add_coordinates pe (Pt <$> new)). split; [done|]. split; [done|].
      split; [by rewrite list_lookup_alter_eq, Hpe|].
      split; [by apply live_add|].
      simpl. apply elem_of_app. right. by apply list_elem_of_fmap_2.
    + intros He'. destruct (Hg k e' He') as (pt & p & -> & H1 & Hp & Hl & Hpt).
      destruct (decide (Z.to_nat (e - 1) = Z.to_nat (e' - 1))) as [Heq|Hne].
      * exists pt, (add_coordinates p (Pt <$> new)). split; [done|]. split; [done|].
        split; [by rewrite <- Heq, list_lookup_alter_eq, Heq, Hp|].
        split; [by apply live_add|]. simpl. apply elem_of_app. by left.
      * exists pt, p. split; [done|]. split; [done|].
        split; [by rewrite list_lookup_alter_ne|]. done.
  - split; simpl; [by rewrite length_alter|].
    intros i p Hp. rewrite list_lookup_alter. case_decide as Hi.
    + subst i. rewrite Hp. simpl. eexists. split; [done|]. split; [done|].
      intros Ht. rewrite Hpe in Hp. simplify_eq. by apply live_not_tombstone in Hlive.
    + by exists p.
Qed.

(* The live perimeter e1 is absorbed by the live perimeter e0. *)
Lemma wf_merge (s : store) (e0 e1 : Z) (p0 p1 : EventPerimeter) (pts : list point) :
  wf s → 1 ≤ e0 → 1 ≤ e1 → e0 ≠ e1 →
  perimeters s !! Z.to_nat (e0 - 1) = Some p0 → live p0 →
  perimeters s !! Z.to_nat (e1 - 1) = Some p1 → live p1 →
  coords p1 = Pt <$> pts →
  let s' := mk_store (fill e0 (event_grid s) pts) (next_event_id s)
              (alter (set_coords [Notice (merge_notice e0); PtList (Pt <$> pts)])
                     (Z.to_nat (e1 - 1))
                 (alter (λ p, add_coordinates p (Pt <$> pts)) (Z.to_nat (e0 - 1))
                    (alter (set_merge_id e0) (Z.to_nat (e1 - 1)) (perimeters s)))) in
  wf s' ∧ extends s s'.
Proof.
  intros [Hn Hids Hst Hg] He0 He1 Hne Hp0 Hl0 Hp1 Hl1 Hc.
  destruct s as [eg n ps]. simpl in *.
  set (ie := Z.to_nat (e0 - 1)) in *. set (io := Z.to_nat (e1 - 1)) in *.
  assert (Hio : ie ≠ io) by (unfold ie, io; lia).
  set (ps' := alter _ io (alter _ ie (alter _ io ps))).
  assert (Hlo : ps' !! io = Some (mk_perimeter (event_id p1) (Some e0)
                   [Notice (merge_notice e0); PtList (Pt <$> pts)])).
  { unfold ps'. rewrite list_lookup_alter_eq, list_lookup_alter_ne by done.
    by rewrite list_lookup_alter_eq, Hp1. }
  assert (Hle : ps' !! ie = Some (add_coordinates p0 (Pt <$> pts))).
  { unfold ps'. rewrite list_lookup_alter_ne, list_lookup_alter_eq by done.
    by rewrite list_lookup_alter_ne, Hp0 by done. }
  assert (Hlx : ∀ i, i ≠ io → i ≠ ie → ps' !! i = ps !! i).
  { intros i H1 H2. unfold ps'. by rewrite !list_lookup_alter_ne by done. }
  assert (Hlen : length ps' = length ps).
  { unfold ps'. by rewrite !length_alter. }
  split; [split|]; simpl.
  - by rewrite Hlen.
  - intros i p Hp. destruct (decide (i = io)) as [->|H1].
    { rewrite Hlo in Hp. simplify_eq. simpl. by apply Hids. }
    destruct (decide (i = ie)) as [->|H2].
    { rewrite Hle in Hp. simplify_eq. simpl. by apply Hids. }
    rewrite Hlx in Hp by done. by apply Hids.
  - intros i p Hp. destruct (decide (i = io)) as [->|H1].
    { rewrite Hlo in Hp. simplify_eq. right. by exists e0, (Pt <$> pts). }
    destruct (decide (i = ie)) as [->|H2].
    { rewrite Hle in Hp. simplify_eq. left. by apply live_add. }
    rewrite Hlx in Hp by done. by eapply Hst.
  - intros k e'. rewrite lookup_fill. case_decide as Hin.
    + intros [= <-]. apply list_elem_of_fmap in Hin as (pt & -> & Hin).
      exists pt, (add_coordinates p0 (Pt <$> pts)). split; [done|]. split; [done|].
      split; [done|]. split; [by apply live_add|].
      simpl. apply elem_of_app. right. by apply list_elem_of_fmap_2.
    + intros He'. destruct (Hg k e' He') as (pt & p & -> & H1 & Hp & Hl & Hpt).
      destruct (decide (Z.to_nat (e' - 1) = io)) as [Heq|Hneo].
      { exfalso. apply Hin. rewrite Heq, Hp1 in Hp. simplify_eq.
        rewrite Hc in Hpt. apply list_elem_of_fmap in Hpt as (pt' & [= <-] & Hpt).
        by apply list_elem_of_fmap_2. }
      destruct (decide (Z.to_nat (e' - 1) = ie)) as [Heq|Hnee].
      { exists pt, (add_coordinates p0 (Pt <$> pts)). rewrite Heq in *.
        rewrite Hp0 in Hp. simplify_eq. split; [done|]. split; [done|].
        split; [done|]. split; [by apply live_add|].
        simpl. apply elem_of_app. by left. }
      exists pt, p. split; [done|]. split; [done|].
      split; [by rewrite Hlx|]. done.
  - split; simpl; [by rewrite Hlen|].
    intros i p Hp. destruct (decide (i = io)) as [->|H1].
    { eexists. split; [exact Hlo|]. rewrite Hp1 in Hp. simplify_eq.
      split; [done|]. intros Ht. by apply live_not_tombstone in Hl1. }
    destruct (decide (i = ie)) as [->|H2].
    { eexists. split; [exact Hle|]. rewrite Hp0 in Hp. simplify_eq.
      split; [done|]. intros Ht. by apply live_not_tombstone in Hl0. }
    exists p. by rewrite Hlx.
Qed.

(* One classification step from a well-formed store: either the candidate
   points cannot be read and nothing changes, or the step completes and
   leaves a well-formed store that extends the old one. *)
Lemma process_burn_wf (T : tile) (window : ndarray3) (origin : Z * Z) (burn : Z)
      (s : store) :
  wf s →
  (∃ e, candidates T window origin burn = inl e
        ∧ process_burn T window origin burn s = Raised e s)
  ∨ (∃ pts s', candidates T window origin burn = inr pts
        ∧ process_burn T window origin burn s = Done tt s'
        ∧ wf s' ∧ extends s s').
Proof.
  intros Hwf. unfold process_burn.
  destruct (candidates T window origin burn) as [e|pts] eqn:Hcand.
  { left. exists e. done. }
  right. exists pts. cbv [lift bind ret get]. 
  destruct (assign_points_spec (event_grid s) pts [] []) as (Hids & Hnd & _).
  specialize (Hnd (NoDup_nil_2)).
  set (found := assign_points (event_grid s) pts [] []) in *.
  assert (Hvalid : ∀ e, e ∈ found.2 →
            ∃ p, 1 ≤ e ∧ perimeters s !! Z.to_nat (e - 1) = Some p ∧ live p).
  { intros e He. destruct (Hids e He) as [Hn|(q & _ & Hq)]; [by apply elem_of_nil in Hn|].
    destruct (wf_grid s Hwf _ _ Hq) as (pt & p & _ & H1 & Hp & Hl & _). by exists p. }
  destruct found.2 as [|e0 [|e1 rest]] eqn:Hf.
  - (* a new event *)
    cbv [put bind].
    destruct (wf_create s found.1 Hwf) as [H1 H2].
    eexists. split; [done|].
    split; [|done].
    fill_grid. simpl; reflexivity.
  - (* one event *)
    destruct (Hvalid e0) as (p & He & Hp & Hl); [constructor|].
    destruct found.1 as [|q new] eqn:Hnew; simpl.
    { exists s. split; [done|]. split; [done|]. split; [done | apply extends_refl]. }
    cbv [perimeter_index update_perimeter bind get put ret raise]. simpl.
    rewrite index_of_id by (by (done || eapply lookup_lt_Some)).
    change (Pt q :: (Pt <$> new)) with (Pt <$> (q :: new)).
    destruct (wf_absorb s e0 p (q :: new) Hwf He Hp Hl) as [H1 H2].
    eexists. split; [done|]. split; [|done].
    apply (add_event_grid_points e0 (q :: new)).
  - (* events overlap *)
    destruct (Hvalid e0) as (p0 & He0 & Hp0 & Hl0); [constructor|].
    destruct (Hvalid e1) as (p1 & He1 & Hp1 & Hl1); [constructor; constructor|].
    assert (Hne : e0 ≠ e1).
    { apply NoDup_cons in Hnd as [Hnin _]. intros ->. apply Hnin. constructor. }
    destruct (live_points p1 Hl1) as [pts1 Hc].
    rewrite (merge_perimeters_live s e0 e1 (Z.to_nat (e0 - 1)) (Z.to_nat (e1 - 1)) p1 pts1);
      [|apply index_of_id; [done|by eapply lookup_lt_Some]..|lia|done|done].
    destruct (wf_merge s e0 e1 p0 p1 pts1 Hwf He0 He1 Hne Hp0 Hl0 Hp1 Hl1 Hc) as [H1 H2].
    eexists. split; [done|]. split; [reflexivity|]. done.
Qed.

End classification.

Section invariant.

Lemma wf_init : wf init_store.
Proof.
  split; simpl; [done| | |]; intros ? ?; [| |rewrite lookup_empty]; done.
Qed.

Lemma wf_aligned (s : store) : wf s → aligned s.
Proof.
  intros [Hn Hids _ _]. split; [done|]. intros i p Hp.
  pose proof (Hids i p Hp) as Hid. split; [done|].
  apply lookup_lt_Some in Hp. rewrite Hid.
  unfold Py.index. rewrite decide_True by lia. f_equal. lia.
Qed.

Lemma wf_grid_live (s : store) : wf s → grid_live s.
Proof.
  intros Hwf k e He.
  destruct (wf_grid s Hwf k e He) as (pt & p & -> & H1 & Hp & [Hm Hc] & Hpt).
  exists pt, (Z.to_nat (e - 1)), p. split; [done|].
  split; [apply index_of_id; [done | by eapply lookup_lt_Some]|].
  split; [done|]. split; [rewrite (wf_ids s Hwf _ _ Hp); lia|]. split; [done|].
  unfold starts_with_notice. destruct (coords p) as [|c l]; [done|].
  destruct (Hc c) as [pt' ->]; [constructor | done].
Qed.

Lemma classify_step_wf (T : tile) (step : Z * Z * Z) (s : store) :
  wf s → ∃ s', final_store (classify_step T step s) = Some s' ∧ wf s' ∧ extends s s'.
Proof.
  intros Hwf. unfold classify_step.
  edestruct process_burn_wf as [(e & _ & ->)|(pts & s' & _ & -> & H1 & H2)]; [exact Hwf| |].
  - exists s. split; [done|]. split; [done | apply extends_refl].
  - by exists s'.
Qed.

Lemma run_wf (T : tile) (steps : list (Z * Z * Z)) (s : store) :
  wf s → ∃ s', final_store (run T steps s) = Some s' ∧ wf s' ∧ extends s s'.
Proof.
  intros Hwf. unfold run.
  apply (for_each_final (λ s', wf s' ∧ extends s s')).
  - intros step s1 [H1 H2].
    destruct (classify_step_wf T step s1 H1) as (s2 & Hf & H3 & H4).
    exists s2. split; [done|]. split; [done|]. by eapply extends_trans.
  - split; [done | apply extends_refl].
Qed.

Lemma process_pair_wf (T : tile) (pair : Z * Z) (s : store) :
  wf s → ∃ s', final_store (process_pair T pair s) = Some s' ∧ wf s' ∧ extends s s'.
Proof.
  intros Hwf. unfold process_pair. cbv [bind lift].
  destruct (column _ _ _) as [e|cb]; simpl.
  { exists s. split; [done|]. split; [done | apply extends_refl]. }
  apply (for_each_final (λ s', wf s' ∧ extends s s')).
  - intros b s1 [H1 H2].
    edestruct process_burn_wf as [(e & _ & ->)|(pts & s' & _ & -> & H3 & H4)]; [exact H1| |].
    + by exists s1.
    + exists s'. split; [done|]. split; [done|]. by eapply extends_trans.
  - split; [done | apply extends_refl].
Qed.

Lemma get_event_perimeters_wf (T : tile) :
  ∃ s, final_store (get_event_perimeters T init_store) = Some s ∧ wf s.
Proof.
  unfold get_event_perimeters. cbv [bind lift get put ret raise].
  destruct (get_availables _) as [e|pairs]; simpl.
  { exists init_store. split; [done | apply wf_init]. }
  destruct (for_each_final wf pairs (process_pair T) init_store) as (s & Hf & Hs).
  - intros pair s Hs. destruct (process_pair_wf T pair s Hs) as (s' & ? & ? & _).
    by exists s'.
  - apply wf_init.
  - exists s. split; [|done].
    change (mk_store ∅ 1 []) with init_store.
    destruct (for_each pairs (process_pair T) init_store); simpl in *; congruence.
Qed.

End invariant.

(** C4. After any sequence of classification steps on any tile (each step
    being the create, extend or merge decision taken for one cell and one
    detection day), and at the end of get_event_perimeters, classification
    has stopped in a store in which every entry of the event grid is a point
    whose id addresses, through perimeters[id - 1], the perimeter of that
    id, and this perimeter is live: it has no merge id and its coords do not
    start with a merge notice. *)
Theorem event_grid_always_live (T : tile) (steps : list (Z * Z * Z)) :
  (∃ s, final_store (run T steps init_store) = Some s ∧ grid_live s)
  ∧ (∃ s, final_store (get_event_perimeters T init_store) = Some s ∧ grid_live s).
Proof.
  split.
  - destruct (run_wf T steps init_store wf_init) as (s & Hf & Hwf & _).
    exists s. split; [done | by apply wf_grid_live].
  - destruct (get_event_perimeters_wf T) as (s & Hf & Hwf).
    exists s. split; [done | by apply wf_grid_live].
Qed.

(** C9. After any sequence of classification steps, the perimeters list is
    aligned with the event ids: next_event_id is one more than the length of
    the list, perimeters[i] has event id i + 1 (so ids are consecutive from 1
    and none occurs twice), and perimeters[id - 1] is the perimeter numbered
    id. Any further steps only lengthen the list: every position keeps its
    event id and a tombstoned perimeter stays where it is, unchanged. *)
Theorem perimeters_aligned (T : tile) (steps more : list (Z * Z * Z)) :
  ∃ s, final_store (run T steps init_store) = Some s
    ∧ aligned s
    ∧ NoDup (event_id <$> perimeters s)
    ∧ ∃ s', final_store (run T more s) = Some s' ∧ aligned s' ∧ extends s s'.
Proof.
  destruct (run_wf T steps init_store wf_init) as (s & Hf & Hwf & _).
  destruct (run_wf T more s Hwf) as (s' & Hf' & Hwf' & Hext).
  exists s. split; [done|]. split; [by apply wf_aligned|]. split.
  - apply NoDup_alt. intros i j e Hi Hj.
    rewrite list_lookup_fmap in Hi, Hj.
    destruct (perimeters s !! i) as [pi|] eqn:Hpi; [|done].
    destruct (perimeters s !! j) as [pj|] eqn:Hpj; [|done].
    simpl in Hi, Hj. simplify_eq.
    pose proof (wf_ids s Hwf i pi Hpi). pose proof (wf_ids s Hwf j pj Hpj). lia.
  - exists s'. split; [done|]. split; [by apply wf_aligned | done].
Qed.

Section totality.

Lemma elem_of_np_where3 (nz ny nx : nat) (cond : nat → nat → nat → bool)
      (t y x : nat) :
  (t, y, x) ∈ np_where3 nz ny nx cond
  ↔ (t < nz)%nat ∧ (y < ny)%nat ∧ (x < nx)%nat ∧ cond t y x = true.
Proof.
  unfold np_where3. rewrite list_elem_of_bind. split.
  - intros (t' & Hin & Ht'). apply list_elem_of_bind in Hin as (y' & Hin & Hy').
    apply list_elem_of_bind in Hin as (x' & Hin & Hx').
    apply elem_of_seq in Ht', Hy', Hx'.
    destruct (cond t' y' x') eqn:Hc; [|by apply elem_of_nil in Hin].
    apply list_elem_of_singleton in Hin. simplify_eq.
    repeat split; [lia | lia | lia | done].
  - intros (Ht & Hy & Hx & Hc). exists t. split; [|apply elem_of_seq; lia].
    apply list_elem_of_bind. exists y. split; [|apply elem_of_seq; lia].
    apply list_elem_of_bind. exists x. split; [|apply elem_of_seq; lia].
    rewrite Hc. by apply list_elem_of_singleton.
Qed.

Lemma take_at_in_range (v idx : list Z) :
  (∀ i, i ∈ idx → 0 ≤ i < Z.of_nat (length v)) →
  ∃ r, take_at v idx = inr r.
Proof.
  induction idx as [|i idx IH]; intros Hin; simpl; [by eexists|].
  unfold Py.index. rewrite decide_True by (apply Hin; constructor).
  destruct IH as [r ->]; [intros j Hj; apply Hin; by constructor|].
  by eexists.
Qed.

(* Inside the grid the candidate points can always be read. *)
Lemma candidates_in_range (T : tile) (y x burn : Z) :
  well_formed T →
  0 ≤ y < Z.of_nat (ny (input_array T)) →
  0 ≤ x < Z.of_nat (nx (input_array T)) →
  let dims := (Z.of_nat (ny (input_array T)), Z.of_nat (nx (input_array T))) in
  let w := get_spatial_window (spatial_param T) y x dims in
  ∃ pts, candidates T (extract_window (input_array T) w) (origin w) burn = inr pts.
Proof.
  intros (Hsp & Hnz & Hly & Hlx) Hy Hx dims w.
  destruct (window_facts (input_array T) (spatial_param T) y x Hsp Hy Hx)
    as ((Ht & _ & Hl & _) & Ho & _ & _ & Hwy & Hwx & _).
  fold dims in Ht, Hl, Ho, Hwy, Hwx. fold w in Ht, Hl, Ho, Hwy, Hwx.
  unfold candidates. rewrite Ho.
  set (window := extract_window (input_array T) w) in *.
  set (locs := np_where3 _ _ _ _).
  destruct (take_at_in_range (coord_y T)
              ((λ yl, top w + Z.of_nat yl) <$> ((λ l, l.1.2) <$> locs))) as [ys ->].
  { intros i Hi. apply list_elem_of_fmap in Hi as (yl & -> & Hi).
    apply list_elem_of_fmap in Hi as ([[t i] j] & -> & Hi).
    apply elem_of_np_where3 in Hi as (_ & Hi & _). simpl. lia. }
  destruct (take_at_in_range (coord_x T)
              ((λ xl, left w + Z.of_nat xl) <$> ((λ l, l.2) <$> locs))) as [xs ->].
  { intros i Hi. apply list_elem_of_fmap in Hi as (xl & -> & Hi).
    apply list_elem_of_fmap in Hi as ([[t i] j] & -> & Hi).
    apply elem_of_np_where3 in Hi as (_ & _ & Hi & _). simpl. lia. }
  by eexists.
Qed.

Lemma for_each_ext {A} (l : list A) (f g : A → M unit) (s : store) :
  (∀ a s, a ∈ l → f a s = g a s) → for_each l f s = for_each l g s.
Proof.
  revert s. induction l as [|a l IH]; intros s Hfg; simpl; [done|].
  unfold bind. rewrite Hfg by constructor.
  destruct (g a s) as [[] s'| |]; [|done..].
  apply IH. intros b s1 Hb. apply Hfg. by constructor.
Qed.

(* A loop whose body always completes, completes. *)
Lemma for_each_done {A} (I : store → Prop) (l : list A) (body : A → M unit) (s : store) :
  (∀ a s, a ∈ l → I s → ∃ s', body a s = Done tt s' ∧ I s') →
  I s → ∃ s', for_each l body s = Done tt s' ∧ I s'.
Proof.
  revert s. induction l as [|a l IH]; intros s Hbody Hs; simpl.
  - by exists s.
  - unfold bind. destruct (Hbody a s) as (s' & -> & Hs'); [constructor | done|].
    apply IH; [|done]. intros b s1 Hb. apply Hbody. by constructor.
Qed.

Lemma classify_step_done (T : tile) (y x burn : Z) (s : store) :
  well_formed T →
  0 ≤ y < Z.of_nat (ny (input_array T)) →
  0 ≤ x < Z.of_nat (nx (input_array T)) →
  wf s → ∃ s', classify_step T (y, x, burn) s = Done tt s' ∧ wf s'.
Proof.
  intros HT Hy Hx Hwf. unfold classify_step. simpl.
  destruct (candidates_in_range T y x burn HT Hy Hx) as [pts Hc].
  edestruct process_burn_wf as [(e & He & _)|(pts' & s' & _ & Hd & H1 & _)];
    [exact Hwf| |].
  - rewrite Hc in He. done.
  - by exists s'.
Qed.

Lemma process_pair_as_steps (T : tile) (y x : Z) (s : store) :
  well_formed T →
  0 ≤ y < Z.of_nat (ny (input_array T)) →
  0 ≤ x < Z.of_nat (nx (input_array T)) →
  process_pair T (y, x) s = for_each (pair_steps T (y, x)) (classify_step T) s.
Proof.
  intros (Hsp & _) Hy Hx.
  destruct (window_facts (input_array T) (spatial_param T) y x Hsp Hy Hx)
    as (_ & _ & _ & _ & _ & _ & Hciy & Hcix).
  unfold process_pair, pair_steps. cbv [bind lift ret raise].
  unfold column. cbn [fst snd]. rewrite Hciy, Hcix.
  rewrite for_each_fmap. done.
Qed.

(* On a well-formed tile get_event_perimeters returns, and what it did is
   the run of the steps of the tile. *)
Lemma get_event_perimeters_total (T : tile) :
  well_formed T →
  ∃ s, get_event_perimeters T init_store = Done (perimeters s) s
     ∧ run T (steps_of T) init_store = Done tt s
     ∧ wf s.
Proof.
  intros HT. pose proof HT as (Hsp & Hnz & Hly & Hlx).
  unfold get_event_perimeters, steps_of, get_availables.
  rewrite decide_False by done. cbv [bind lift get put ret raise]. simpl.
  change (mk_store ∅ 1 []) with init_store.
  set (pairs := (λ p, (Z.of_nat p.1, Z.of_nat p.2)) <$> np_where2 _ _ _).
  assert (Hpairs : ∀ pair, pair ∈ pairs →
            0 ≤ pair.1 < Z.of_nat (ny (input_array T))
            ∧ 0 ≤ pair.2 < Z.of_nat (nx (input_array T))).
  { intros pair Hp. apply list_elem_of_fmap in Hp as ([y x] & -> & Hp).
    apply elem_of_np_where2 in Hp as (? & ? & _). simpl. lia. }
  clearbody pairs.
  assert (Hgen : ∀ s, wf s →
    ∃ s', for_each pairs (process_pair T) s = Done tt s'
        ∧ run T (pairs ≫= pair_steps T) s = Done tt s'
        ∧ wf s').
  { induction pairs as [|[y x] pairs IH]; intros s Hwf.
    { exists s. done. }
    destruct (Hpairs (y, x)) as [Hy Hx]; [constructor|]. simpl in Hy, Hx.
    destruct (for_each_done wf (pair_steps T (y, x)) (classify_step T) s)
      as (s1 & Hs1 & Hwf1); [|done|].
    { intros [[y' x'] b] s0 Hin Hs0.
      assert (y' = y ∧ x' = x) as [-> ->].
      { unfold pair_steps in Hin. destruct (column _ _ _); [by apply elem_of_nil in Hin|].
        apply list_elem_of_fmap in Hin as (b' & [= -> -> ->] & _). done. }
      by apply classify_step_done. }
    destruct (IH (λ p Hp, Hpairs p (list_elem_of_further _ _ _ Hp)) s1 Hwf1)
      as (s2 & H1 & H2 & H3).
    exists s2. split; [|split; [|done]].
    - simpl. unfold bind. rewrite process_pair_as_steps, Hs1 by done. done.
    - unfold run in *. rewrite bind_cons, for_each_app. unfold bind.
      rewrite Hs1. done. }
  destruct (Hgen init_store wf_init) as (s & H1 & H2 & H3).
  exists s. rewrite H1. done.
Qed.

End totality.

(** C2. Calling merge_perimeters with an obsolete id that addresses a
    tombstoned perimeter (one a previous merge left as
    [merge_notice, new_pts]) raises TypeError: the walk over the tombstone's
    two entries first files the notice string in the event grid and then
    fails on the list, which cannot be a dict key. When the error is raised
    no perimeter's coords have changed (the survivor's point set in
    particular), no point's entry in the event grid has changed, and
    next_event_id is what it was. *)
Theorem merge_tombstoned_raises (s : store) (survivor_id obsolete_id : Z)
        (io : nat) (po : EventPerimeter) :
  Py.index (length (perimeters s)) (obsolete_id - 1) = Some io →
  perimeters s !! io = Some po →
  tombstone po →
  ∃ s', merge_perimeters survivor_id obsolete_id s = Raised Py.TypeError s'
    ∧ (∀ i p, perimeters s !! i = Some p →
         ∃ p', perimeters s' !! i = Some p' ∧ coords p' = coords p
               ∧ event_id p' = event_id p)
    ∧ (∀ pt : point, event_grid s' !! (inl pt : key) = event_grid s !! (inl pt : key))
    ∧ next_event_id s' = next_event_id s.
Proof.
  intros Hio Hpo (m & l & Hm & Hc).
  rewrite (merge_perimeters_tombstone s survivor_id obsolete_id io po _ _ Hio Hpo Hc).
  eexists. split; [reflexivity|]. simpl. split; [|split; [|done]].
  - intros i p Hp. rewrite list_lookup_alter. case_decide as Hi.
    + subst i. rewrite Hp. simpl. by eexists.
    + by exists p.
  - intros pt. by rewrite lookup_insert_ne.
Qed.

Lemma merge_tombstoned_raises_witness :
  ∃ s', merge_perimeters 1 2 store_merged = Raised Py.TypeError s'
    ∧ (∀ i p, perimeters store_merged !! i = Some p →
         ∃ p', perimeters s' !! i = Some p' ∧ coords p' = coords p
               ∧ event_id p' = event_id p)
    ∧ (∀ pt : point,
         event_grid s' !! (inl pt : key) = event_grid store_merged !! (inl pt : key))
    ∧ next_event_id s' = next_event_id store_merged.
Proof.
  apply (merge_tombstoned_raises store_merged 1 2 1%nat
           (mk_perimeter 2 (Some 1)
              [Notice (merge_notice 1); PtList [Pt (300, 20, 16)]])).
  - reflexivity.
  - reflexivity.
  - exists 1, [Pt (300, 20, 16)]. split; reflexivity.
Defined.

(** C10. Candidate selection keeps window cells that hold no detection:
    on the tile tile_early, whose only detection is day 5 at cell (0, 0)
    with temporal_param 11, classification returns one live perimeter; the
    cell (0, 1) holds 0, is no detection, and its point (200, 20, 0) is a
    member of that perimeter, is filed under its id in the event grid and
    is a row of the tile's table with date 0; the same holds for every cell
    of the tile that holds 0 (three of the four cells). *)
Theorem zero_cells_join_events :
  ∃ (T : tile) (d : Z) (p : EventPerimeter) (s : store) (rows : list event_row),
    0 < d ≤ temporal_param T
    ∧ data (input_array T) 0 0 0 = d
    ∧ get_event_perimeters T init_store = Done [p] s
    ∧ live p
    ∧ classify_tile T (spatial_param T) = Some (inr rows)
    ∧ (* a cell without detection that became a point of the event *)
      ((0 < ny (input_array T))%nat ∧ (1 < nx (input_array T))%nat
       ∧ nz (input_array T) = 1%nat
       ∧ data (input_array T) 0 0 1 = 0
       ∧ coord_y T !! 0%nat = Some 200 ∧ coord_x T !! 1%nat = Some 20
       ∧ Pt (200, 20, 0) ∈ coords p
       ∧ event_grid s !! (inl (200, 20, 0) : key) = Some (event_id p)
       ∧ mk_row (event_id p) 0 20 200 true ∈ rows)
    ∧ (* the cells without detection are three of the four cells *)
      length (filter (λ yx, data (input_array T) 0 yx.1 yx.2 = 0)
                (np_where2 (ny (input_array T)) (nx (input_array T)) (λ _ _, true)))
      = 3%nat
    ∧ ∀ y x cy cx,
        (y < ny (input_array T))%nat → (x < nx (input_array T))%nat →
        data (input_array T) 0 y x = 0 →
        coord_y T !! y = Some cy → coord_x T !! x = Some cx →
        Pt (cy, cx, 0) ∈ coords p
        ∧ event_grid s !! (inl (cy, cx, 0) : key) = Some (event_id p)
        ∧ ∃ r, r ∈ rows ∧ row_y r = cy ∧ row_x r = cx ∧ row_date r = 0.
Proof.
  exists tile_early, 5.
  eexists. eexists. eexists.
  split; [simpl; lia|]. split; [reflexivity|].
  split; [vm_compute; reflexivity|].
  split.
  { split; [reflexivity|]. intros c Hc. simpl in Hc.
    repeat (apply elem_of_cons in Hc as [->|Hc]; [by eexists|]).
    by apply elem_of_nil in Hc. }
  split; [vm_compute; reflexivity|].
  split.
  { split; [simpl; lia|]. split; [simpl; lia|]. split; [reflexivity|].
    split; [reflexivity|]. split; [reflexivity|]. split; [reflexivity|].
    split; [simpl; set_solver|]. split; [vm_compute; reflexivity|].
    apply list_elem_of_In. simpl. tauto. }
  split; [reflexivity|].
  intros y x cy cx Hy Hx Hd Hcy Hcx. simpl in Hy, Hx.
  destruct y as [|[|y]]; [| |lia]; (destruct x as [|[|x]]; [| |lia]);
    simpl in Hd, Hcy, Hcx; try discriminate; simplify_eq;
    (split; [simpl; set_solver|]); (split; [vm_compute; reflexivity|]).
  - exists (mk_row 1 0 20 200 true). split; [|done].
    apply list_elem_of_In. simpl. tauto.
  - exists (mk_row 1 0 10 100 true). split; [|done].
    apply list_elem_of_In. simpl. tauto.
  - exists (mk_row 1 0 20 100 true). split; [|done].
    apply list_elem_of_In. simpl. tauto.
Qed.

(* --------------------------------------------------------------------- *)
(*  The table of one tile                                                 *)
(* --------------------------------------------------------------------- *)
Section table.

Lemma edgeCheck_true (yedges xedges : list Z) (c : point) (b : Z) :
  edgeCheck yedges xedges c b = true ↔ c.1.1 ∈ yedges ∨ c.1.2 ∈ xedges.
Proof.
  unfold edgeCheck. repeat case_bool_decide; split; (tauto || done || intros [?|?]; done).
Qed.

Lemma any_fmap_true {A} (f : A → bool) (l : list A) :
  Py.any (f <$> l) = true ↔ ∃ a, a ∈ l ∧ f a = true.
Proof.
  unfold Py.any. induction l as [|a l IH]; simpl.
  - split; [done | intros (a & Ha & _); by apply elem_of_nil in Ha].
  - rewrite orb_true_iff, IH. split.
    + intros [Ha|(b & Hb & Hf)]; [exists a; split; [constructor | done]|].
      exists b. split; [by constructor | done].
    + intros (b & [->|Hb]%elem_of_cons & Hf); [by left|]. right. by exists b.
Qed.

Lemma zip_fmap_self {A B} (g : A → B) (l : list A) :
  zip l (g <$> l) = (λ a, (a, g a)) <$> l.
Proof. induction l as [|a l IH]; csimpl; [done | by rewrite IH]. Qed.

Lemma zip3_fmap_self {A B C D} (g : A → B) (h : A → C) (F : A * B * C → D) (l : list A) :
  F <$> zip (zip l (g <$> l)) (h <$> l) = (λ a, F (a, g a, h a)) <$> l.
Proof. induction l as [|a l IH]; csimpl; [done | by rewrite IH]. Qed.

(* A date is built for the days datetime can hold counted from 1970. *)
Lemma to_date_inr (days d : Z) :
  to_date days = inr d ↔ d = days ∧ -719162 ≤ days ≤ 2932896.
Proof.
  unfold to_date, Datetime.timedelta, Datetime.add.
  change (Datetime.days_before_year 1970 + 1) with 719163.
  repeat case_decide; split; (intros [= <-] || intros [-> ?]); (split || f_equal); lia.
Qed.

Lemma to_date_inl (days : Z) (e : Py.exn) :
  to_date days = inl e → e = Py.OverflowError.
Proof.
  unfold to_date, Datetime.timedelta, Datetime.add.
  repeat case_decide; by intros [= <-].
Qed.

Lemma dates_of_inr (coord : list point) (date : list Z) :
  dates_of coord = inr date
  ↔ date = (λ c, c.2) <$> coord ∧ ∀ c, c ∈ coord → -719162 ≤ c.2 ≤ 2932896.
Proof.
  revert date. induction coord as [|c coord IH]; intros date; simpl.
  - split; [intros [= <-]; split; [done | by intros c ?%elem_of_nil] | by intros [-> _]].
  - destruct (to_date c.2) as [e|d] eqn:Hd.
    + split; [done|]. intros [_ H]. exfalso.
      assert (to_date c.2 = inr c.2) as Hc; [|congruence].
      apply to_date_inr. split; [done|]. apply H. constructor.
    + apply to_date_inr in Hd as [-> Hr].
      destruct (dates_of coord) as [e|ds] eqn:Hds.
      * split; [done|]. intros [_ H]. exfalso.
        assert (inl e = inr ((λ c, c.2) <$> coord) :> Py.exn + list Z) as Hc; [|done].
        apply IH. split; [done|]. intros c' Hc'. apply H. by constructor.
      * destruct (proj1 (IH ds) eq_refl) as [-> Hall]. split.
        -- intros [= <-]. split; [done|].
           intros c' [->|Hc']%elem_of_cons; [done | by apply Hall].
        -- by intros [-> _].
Qed.

(* All rows of one perimeter carry the same flag: whether any of its
   points is on an edge. *)
Lemma perimeter_rows_flag (T : tile) (sp_buf : Z) (event : Z) (coord : list point)
      (rows : list event_row) :
  perimeter_rows T sp_buf event coord = inr rows →
  rows
  = (λ c, mk_row event c.2 c.1.2 c.1.1
            (Py.any ((λ c, edgeCheck (yedges_of T) (xedges_of T) c sp_buf) <$> coord)))
    <$> coord.
Proof.
  unfold perimeter_rows.
  destruct (dates_of coord) as [e|date] eqn:Hdate; [done|].
  apply dates_of_inr in Hdate as [-> _]. intros [= <-].
  set (f := λ c, edgeCheck (yedges_of T) (xedges_of T) c sp_buf).
  destruct (Py.any (f <$> coord)) eqn:Hany.
  - rewrite <- (list_fmap_compose f), zip3_fmap_self. done.
  - rewrite zip3_fmap_self.
    apply list_fmap_ext. intros i c Hc. simpl. f_equal.
    destruct (f c) eqn:Hf; [|done].
    rewrite <- Hany. symmetry. apply any_fmap_true. exists c.
    split; [by eapply list_elem_of_lookup_2 | done].
Qed.

Lemma perimeter_rows_total (T : tile) (sp_buf : Z) (event : Z) (coord : list point) :
  (∀ c, c ∈ coord → -719162 ≤ c.2 ≤ 2932896) →
  ∃ rows, perimeter_rows T sp_buf event coord = inr rows.
Proof.
  intros Hall. unfold perimeter_rows.
  destruct (dates_of coord) as [e|date] eqn:Hdate; [|by eexists].
  exfalso. assert (inl e = inr ((λ c, c.2) <$> coord) :> Py.exn + list Z) as Hc; [|done].
  rewrite <- Hdate. by apply dates_of_inr.
Qed.

Lemma remove_merged_sublist (perims kept : list EventPerimeter) :
  remove_merged perims = inr kept → kept `sublist_of` perims.
Proof.
  revert kept. induction perims as [|p perims IH]; intros kept; simpl.
  - intros [= <-]. constructor.
  - destruct (starts_with_notice p) as [b|]; [|done].
    destruct (remove_merged perims) as [e|r]; [done|].
    intros [= <-]. destruct b; [apply sublist_cons | apply sublist_skip]; by apply IH.
Qed.

Lemma elem_of_table_rows (T : tile) (sp_buf : Z) (kept : list EventPerimeter)
      (rows : list event_row) (r : event_row) :
  table_rows T sp_buf kept = inr rows →
  r ∈ rows ↔ ∃ p coord, p ∈ kept ∧ as_points (coords p) = inr coord
               ∧ r ∈ (λ c, mk_row (event_id p) c.2 c.1.2 c.1.1
                            (Py.any ((λ c, edgeCheck (yedges_of T) (xedges_of T) c sp_buf)
                                       <$> coord)))
                       <$> coord.
Proof.
  revert rows. induction kept as [|p kept IH]; intros rows; simpl.
  - intros [= <-]. split; [by intros ?%elem_of_nil|].
    intros (p & c & Hp & _). by apply elem_of_nil in Hp.
  - destruct (as_points (coords p)) as [e|coord] eqn:Hc; [done|].
    destruct (perimeter_rows T sp_buf (event_id p) coord) as [e|prows] eqn:Hprows; [done|].
    apply perimeter_rows_flag in Hprows as ->.
    destruct (table_rows T sp_buf kept) as [e|rest]; [done|].
    intros [= <-]. rewrite elem_of_app, (IH rest eq_refl). split.
    + intros [Hr|(p' & c' & Hp' & Hc' & Hr)].
      * exists p, coord. split; [constructor | done].
      * exists p', c'. split; [by constructor | done].
    + intros (p' & c' & [->|Hp']%elem_of_cons & Hc' & Hr).
      * left. rewrite Hc in Hc'. by simplify_eq.
      * right. by exists p', c'.
Qed.

Lemma NoDup_fmap_eq {A B} (f : A → B) (l : list A) (x y : A) :
  NoDup (f <$> l) → x ∈ l → y ∈ l → f x = f y → x = y.
Proof.
  induction l as [|a l IH]; simpl; [by intros _ ?%elem_of_nil|].
  intros [Hnin Hnd]%NoDup_cons [->|Hx]%elem_of_cons [->|Hy]%elem_of_cons Heq.
  - done.
  - exfalso. apply Hnin. rewrite Heq. by apply list_elem_of_fmap_2.
  - exfalso. apply Hnin. rewrite <- Heq. by apply list_elem_of_fmap_2.
  - by apply IH.
Qed.

Lemma get_event_perimeters_returns (T : tile) (perims : list EventPerimeter)
      (s : store) :
  get_event_perimeters T init_store = Done perims s → perims = perimeters s ∧ wf s.
Proof.
  intros Hd. destruct (get_event_perimeters_wf T) as (s' & Hf & Hwf).
  rewrite Hd in Hf. simpl in Hf. simplify_eq. split; [|done].
  revert Hd. unfold get_event_perimeters. cbv [bind lift get put ret raise].
  destruct (get_availables _); [done|]. simpl.
  destruct (for_each _ _ _); [|done..]. intros [= H1 H2]. by rewrite <- H1, H2.
Qed.

Lemma slice_first (l : list Z) (n : Z) :
  0 ≤ n → Py.slice l None (Some n) = take (Z.to_nat n) l.
Proof.
  intros Hn. unfold Py.slice, Py.clip. cbn [from_option].
  rewrite decide_False by lia. rewrite Nat.sub_0_r, drop_0.
  destruct (decide (n ≤ Z.of_nat (length l))).
  - f_equal. lia.
  - rewrite !take_ge by lia. done.
Qed.

Lemma slice_last (l : list Z) (n : Z) :
  0 < n → Py.slice l (Some (- n)) None = drop (length l - Z.to_nat n) l.
Proof.
  intros Hn. unfold Py.slice, Py.clip. cbn [from_option].
  rewrite decide_True by lia.
  rewrite take_ge by (rewrite length_drop; lia). f_equal. lia.
Qed.

End table.

(** C6 (as amended). In the table of a tile with spatial_param > 0, the
    y edges are the first and the last spatial_param values of the y axis
    and the x edges the last and the first spatial_param values of the x
    axis; a row's edge flag is true if and only if some row of the same
    event has its y coordinate among the y edges or its x coordinate among
    the x edges. The flag is set per event, not per point: the interior
    points of an event that touches the border carry edge = true. *)
Theorem edge_flag_per_event (T : tile) (sp_buf : Z) (rows : list event_row) :
  0 < spatial_param T →
  classify_tile T sp_buf = Some (inr rows) →
  yedges_of T = take (Z.to_nat (spatial_param T)) (coord_y T)
                ++ drop (length (coord_y T) - Z.to_nat (spatial_param T)) (coord_y T)
  ∧ xedges_of T = drop (length (coord_x T) - Z.to_nat (spatial_param T)) (coord_x T)
                  ++ take (Z.to_nat (spatial_param T)) (coord_x T)
  ∧ ∀ r, r ∈ rows →
      (row_edge r = true ↔
       ∃ r', r' ∈ rows ∧ row_id r' = row_id r
             ∧ (row_y r' ∈ yedges_of T ∨ row_x r' ∈ xedges_of T)).
Proof.
  intros Hsp Hrows.
  split; [unfold yedges_of; by rewrite slice_first, slice_last by lia|].
  split; [unfold xedges_of; by rewrite slice_first, slice_last by lia|].
  unfold classify_tile in Hrows.
  destruct (get_event_perimeters T init_store) as [perims s|e s|] eqn:Hrun; [|by destruct e|done].
  injection Hrows as Hrows.
  apply get_event_perimeters_returns in Hrun as [-> Hwf].
  unfold tile_table in Hrows.
  destruct (remove_merged (perimeters s)) as [e|kept] eqn:Hkept; [done|].
  assert (Hnd : NoDup (event_id <$> kept)).
  { apply (sublist_NoDup _ (event_id <$> perimeters s));
      [|apply fmap_sublist, remove_merged_sublist, Hkept].
    apply NoDup_alt. intros i j e Hi Hj. rewrite list_lookup_fmap in Hi, Hj.
    destruct (perimeters s !! i) as [pi|] eqn:Hpi; [|done].
    destruct (perimeters s !! j) as [pj|] eqn:Hpj; [|done].
    simpl in Hi, Hj. simplify_eq.
    pose proof (wf_ids s Hwf i pi Hpi). pose proof (wf_ids s Hwf j pj Hpj). lia. }
  intros r Hr.
  apply (elem_of_table_rows T sp_buf kept rows r Hrows) in Hr as (p & coord & Hp & Hc & Hr).
  apply list_elem_of_fmap in Hr as (c & -> & Hcin). simpl.
  rewrite any_fmap_true. split.
  - intros (c' & Hc' & Hedge). apply edgeCheck_true in Hedge.
    exists (mk_row (event_id p) c'.2 c'.1.2 c'.1.1
              (Py.any ((λ c, edgeCheck (yedges_of T) (xedges_of T) c sp_buf) <$> coord))).
    split; [|done].
    apply (elem_of_table_rows T sp_buf kept rows _ Hrows).
    exists p, coord. split; [done|]. split; [done|].
    apply list_elem_of_fmap. by exists c'.
  - intros (r' & Hr' & Hid & Hedge).
    apply (elem_of_table_rows T sp_buf kept rows r' Hrows) in Hr'
      as (p' & coord' & Hp' & Hc' & Hr').
    apply list_elem_of_fmap in Hr' as (c' & -> & Hcin'). simpl in Hid, Hedge.
    assert (p' = p) as -> by (by eapply NoDup_fmap_eq).
    rewrite Hc in Hc'. simplify_eq.
    exists c'. split; [done|]. by apply edgeCheck_true.
Qed.

Lemma edge_flag_per_event_witness :
  ∃ rows, classify_tile tile_corner 1 = Some (inr rows)
    ∧ ∀ r, r ∈ rows →
        (row_edge r = true ↔
         ∃ r', r' ∈ rows ∧ row_id r' = row_id r
               ∧ (row_y r' ∈ yedges_of tile_corner ∨ row_x r' ∈ xedges_of tile_corner)).
Proof.
  eexists. split; [vm_compute; reflexivity|].
  apply (edge_flag_per_event tile_corner 1).
  - simpl. lia.
  - vm_compute. reflexivity.
Defined.

(** C6, as stated, fails on tile_corner: the event made of the corner
    detection and of its inner neighbour has both rows flagged, although
    the neighbour's coordinates (y = 300, x = 20) are neither among the
    first or last y values nor among the first or last x values. *)
Lemma edge_flag_not_pointwise :
  ∃ rows r,
    classify_tile tile_corner 1 = Some (inr rows)
    ∧ yedges_of tile_corner = [400; 100]
    ∧ xedges_of tile_corner = [40; 10]
    ∧ r ∈ rows
    ∧ row_edge r = true
    ∧ (row_y r ∉ yedges_of tile_corner)
    ∧ (row_x r ∉ xedges_of tile_corner).
Proof.
  eexists. exists (mk_row 1 100 20 300 true).
  split; [vm_compute; reflexivity|].
  split; [reflexivity|]. split; [reflexivity|].
  split; [apply list_elem_of_In; simpl; tauto|].
  split; [reflexivity|].
  split; intros H; apply list_elem_of_In in H; simpl in H; intuition discriminate.
Qed.

(** C1 (the code at the failing input). On tile_overlap the last step, for
    cell (2, 3) and its detection day 16, finds candidate points under the
    two live events 1 and 3 and the cell's own point (100, 40, 16), which no
    event holds yet. The step merges event 3 into event 1 and drops the new
    point: it is neither filed in the event grid nor added to the
    survivor, and since this was the last step the detection appears in no
    row of the tile's table. *)
Theorem merge_step_drops_new_points :
  ∃ (s0 s1 : store) (pts : list point) (p1 p3 p1' p3' : EventPerimeter)
    (rows : list event_row),
    steps_of tile_overlap = take 11 (steps_of tile_overlap) ++ [(2, 3, 16)]
    ∧ data (input_array tile_overlap) 0 2 3 = 16
    ∧ run tile_overlap (take 11 (steps_of tile_overlap)) init_store = Done tt s0
    ∧ (let w := get_spatial_window 1 2 3 (3, 4) in
       candidates tile_overlap (extract_window (input_array tile_overlap) w)
                  (origin w) 16 = inr pts)
    ∧ assign_points (event_grid s0) pts [] [] = ([(100, 40, 16)], [1; 3])
    ∧ perimeters s0 !! 0%nat = Some p1 ∧ live p1
    ∧ perimeters s0 !! 2%nat = Some p3 ∧ live p3
    ∧ classify_step tile_overlap (2, 3, 16) s0 = Done tt s1
    ∧ get_event_perimeters tile_overlap init_store = Done (perimeters s1) s1
    ∧ perimeters s1 !! 0%nat = Some p1' ∧ coords p1' = coords p1 ++ coords p3
    ∧ perimeters s1 !! 2%nat = Some p3' ∧ tombstone p3'
    ∧ event_grid s1 !! (inl (100, 40, 16) : key) = None
    ∧ (Pt (100, 40, 16) ∉ coords p1')
    ∧ classify_tile tile_overlap 1 = Some (inr rows)
    ∧ Forall (λ r, (row_y r, row_x r, row_date r) ≠ (100, 40, 16)) rows.
Proof.
  do 8 eexists.
  split; [vm_compute; reflexivity|]. split; [reflexivity|].
  split; [vm_compute; reflexivity|]. split; [vm_compute; reflexivity|].
  split; [vm_compute; reflexivity|].
  split; [vm_compute; reflexivity|].
  split.
  { split; [reflexivity|]. intros c Hc. simpl in Hc.
    repeat (apply elem_of_cons in Hc as [->|Hc]; [by eexists|]).
    by apply elem_of_nil in Hc. }
  split; [vm_compute; reflexivity|].
  split.
  { split; [reflexivity|]. intros c Hc. simpl in Hc.
    repeat (apply elem_of_cons in Hc as [->|Hc]; [by eexists|]).
    by apply elem_of_nil in Hc. }
  split; [vm_compute; reflexivity|]. split; [vm_compute; reflexivity|].
  split; [vm_compute; reflexivity|]. split; [reflexivity|].
  split; [vm_compute; reflexivity|].
  split; [by exists 1, [Pt (300, 40, 20); Pt (200, 40, 18); Pt (200, 20, 20); Pt (100, 30, 20)]|].
  split; [vm_compute; reflexivity|].
  split.
  { simpl. intros Hc.
    repeat (apply elem_of_cons in Hc as [Hc|Hc]; [discriminate|]).
    by apply elem_of_nil in Hc. }
  split; [vm_compute; reflexivity|].
  repeat (constructor; [discriminate|]). constructor.
Qed.

(* --------------------------------------------------------------------- *)
(*  Merging the edge events of all tiles                                  *)
(* --------------------------------------------------------------------- *)
Section stitching.

Lemma elem_of_unique (l : list string) (x : string) : x ∈ unique l → x ∈ l.
Proof.
  unfold unique.
  assert (H : ∀ acc, x ∈ foldl (λ acc x, if bool_decide (x ∈ acc) then acc else acc ++ [x]) acc l
                     → x ∈ acc ∨ x ∈ l).
  { induction l as [|a l IH]; intros acc; simpl; [by left|].
    intros Hx. apply IH in Hx as [Hx|Hx]; [|right; by constructor].
    case_bool_decide; [by left|].
    apply elem_of_app in Hx as [?|Hx]; [by left|].
    apply list_elem_of_singleton in Hx as ->. right. constructor. }
  intros Hx. apply H in Hx as [Hx|Hx]; [by apply elem_of_nil in Hx | done].
Qed.

Lemma relabelling_refl (edges : list df_row) : relabelling edges edges.
Proof.
  split; [|intros r Hr; by apply list_elem_of_fmap_2].
  apply Forall2_same_length_lookup_2; [done|].
  intros i r r' Hr Hr'. rewrite Hr in Hr'. by simplify_eq.
Qed.

Lemma relabelling_relabel (edges0 edges : list df_row) (old new : string) :
  relabelling edges0 edges → new ∈ id <$> edges0 →
  relabelling edges0 (relabel edges old new).
Proof.
  intros [Hsame Hids] Hnew. split.
  - unfold relabel. apply Forall2_fmap_r. eapply Forall2_impl; [exact Hsame|].
    intros r r' Hrr. simpl. by case_bool_decide.
  - intros r Hr. unfold relabel in Hr. apply list_elem_of_fmap in Hr as (r' & -> & Hr').
    case_bool_decide; [done | by apply Hids].
Qed.

Lemma merge_pair_relabelling (sp_buf : Z) (iden : string) (edf : list df_row)
      (d1 : Z) (edges0 edges : list df_row) (iden2 : string) :
  relabelling edges0 edges → iden ∈ id <$> edges0 → iden2 ∈ id <$> edges0 →
  relabelling edges0 (merge_pair sp_buf iden edf d1 edges iden2).
Proof.
  intros Hrel H1 H2. unfold merge_pair.
  destruct (close_in_space _ _ _); [|done].
  destruct (days <$> rows_of edges iden2); [by apply relabelling_relabel|].
  case_decide; by apply relabelling_relabel.
Qed.

Lemma foldl_merge_pair_relabelling (sp_buf : Z) (iden : string) (edf : list df_row)
      (d1 : Z) (edges0 edges : list df_row) (eids2 : list string) :
  relabelling edges0 edges → iden ∈ id <$> edges0 →
  (∀ i, i ∈ eids2 → i ∈ id <$> edges0) →
  relabelling edges0 (foldl (merge_pair sp_buf iden edf d1) edges eids2).
Proof.
  revert edges. induction eids2 as [|iden2 eids2 IH]; intros edges Hrel H1 H2; simpl; [done|].
  apply IH; [|done|intros i Hi; apply H2; by constructor].
  apply merge_pair_relabelling; [done..|]. apply H2. constructor.
Qed.

(* A scan with d1 and d2 bound, or of an id that has rows, completes. *)
Lemma scan_id_relabelling (temporal_param sp_buf : Z) (edges0 edges : list df_row)
      (dd : option (Z * Z)) (iden : string) :
  relabelling edges0 edges → iden ∈ id <$> edges0 →
  is_Some dd ∨ rows_of edges iden ≠ [] →
  ∃ edges' dd', scan_id temporal_param sp_buf (edges, dd) iden = inr (edges', Some dd')
                ∧ relabelling edges0 edges'.
Proof.
  intros Hrel Hid Hdd. unfold scan_id. simpl.
  set (dd1 := match days <$> rows_of edges iden with [] => dd | _ => _ end).
  assert (∃ d, dd1 = Some d) as [[d1 d2] ->].
  { unfold dd1. destruct (rows_of edges iden) as [|r rs] eqn:Hrows; simpl; [|by eexists].
    destruct Hdd as [[d ->]|?]; [by eexists | done]. }
  eexists _, _. split; [reflexivity|].
  apply foldl_merge_pair_relabelling; [done..|].
  intros i Hi. apply elem_of_unique in Hi.
  apply list_elem_of_fmap in Hi as (r & -> & Hr).
  apply list_elem_of_filter in Hr as [_ Hr].
  apply list_elem_of_filter in Hr as [_ Hr]. by apply Hrel.
Qed.

Lemma scan_ids_relabelling (temporal_param sp_buf : Z) (edges0 edges : list df_row)
      (dd : option (Z * Z)) (eids : list string) :
  relabelling edges0 edges → (∀ i, i ∈ eids → i ∈ id <$> edges0) →
  is_Some dd ∨ (∀ iden rest, eids = iden :: rest → rows_of edges iden ≠ []) →
  ∃ st, scan_ids temporal_param sp_buf (edges, dd) eids = inr st
        ∧ relabelling edges0 st.1.
Proof.
  revert edges dd. induction eids as [|iden eids IH]; intros edges dd Hrel Hids Hdd; simpl.
  { by eexists. }
  destruct (scan_id_relabelling temporal_param sp_buf edges0 edges dd iden)
    as (edges' & dd' & -> & Hrel'); [done|apply Hids; constructor| |].
  { destruct Hdd as [?|Hdd]; [by left | right; by eapply Hdd]. }
  apply IH; [done | intros i Hi; apply Hids; by constructor | by left].
Qed.

Lemma unique_head (l : list string) (x : string) (rest : list string) :
  unique l = x :: rest → x ∈ l.
Proof. intros H. apply elem_of_unique. rewrite H. constructor. Qed.

Lemma merge_edges_relabelling (temporal_param sp_buf : Z) (edges : list df_row) :
  ∃ edges', merge_edges temporal_param sp_buf edges = inr edges'
            ∧ relabelling edges edges'.
Proof.
  unfold merge_edges.
  destruct (scan_ids_relabelling temporal_param sp_buf edges edges None
              (unique (id <$> edges))) as (st & -> & Hrel).
  - apply relabelling_refl.
  - intros i Hi. by apply elem_of_unique.
  - right. intros iden rest Hu. apply unique_head in Hu.
    apply list_elem_of_fmap in Hu as (r & -> & Hr).
    intros Hnil. assert (Hin : r ∈ rows_of edges (id r)).
    { apply list_elem_of_filter. done. }
    rewrite Hnil in Hin. by apply elem_of_nil in Hin.
  - by exists st.1.
Qed.

End stitching.

(** C7 (the code at the failing input). Two single-detection edge events
    face each other across the seam of tiles h08v05 and h09v05, day 50 at
    x = 4990 and day 52 at x = 5010, in the same pixel row (y = 1000), with
    temporal_param 11 and a spatial buffer of 50. They are adjacent in time
    and in space, yet spCheck rejects the zero y difference and the
    stitcher leaves both ids in place. One pixel row apart (df_seam_diagonal)
    the same two events are merged under the id whose first day is 50. *)
Theorem same_row_seam_not_merged :
  stitch 11 50 df_seam = inr df_seam
  ∧ (∃ r1 r2, df_seam = [r1; r2] ∧ adjacent_rows 11 50 r1 r2 ∧ id r1 ≠ id r2)
  ∧ spCheck [0] 50 = false
  ∧ ∃ out, stitch 11 50 df_seam_diagonal = inr out
           ∧ Forall (λ r, id r = "h08v05_1") out
           ∧ days <$> out = [50; 52].
Proof.
  split; [vm_compute; reflexivity|].
  split.
  { eexists _, _. split; [reflexivity|]. split; [|discriminate].
    unfold adjacent_rows. simpl. lia. }
  split; [reflexivity|].
  eexists. split; [vm_compute; reflexivity|].
  split; [repeat constructor | reflexivity].
Qed.

Section steps.

(* Every candidate point is either new or filed under a collected id. *)
Lemma assign_points_complete (eg : gmap key Z) (pts new : list point) (ids : list Z) :
  let r := assign_points eg pts new ids in
  (∀ p, p ∈ new → p ∈ r.1)
  ∧ (∀ e, e ∈ ids → e ∈ r.2)
  ∧ (∀ p, p ∈ pts →
       (eg !! (inl p : key) = None ∧ p ∈ r.1)
       ∨ (∃ e, eg !! (inl p : key) = Some e ∧ e ∈ r.2)).
Proof.
  revert new ids. induction pts as [|q pts IH]; intros new ids; simpl.
  - split; [done|]. split; [done|]. by intros p ?%elem_of_nil.
  - destruct (eg !! (inl q : key)) as [e'|] eqn:Hq.
    + case_bool_decide as Hin.
      * destruct (IH new ids) as (H1 & H2 & H3). split; [done|]. split; [done|].
        intros p [->|Hp]%elem_of_cons; [|by apply H3].
        right. exists e'. split; [done | by apply H2].
      * destruct (IH new (ids ++ [e'])) as (H1 & H2 & H3). split; [done|].
        split; [intros e He; apply H2, elem_of_app; by left|].
        intros p [->|Hp]%elem_of_cons; [|by apply H3].
        right. exists e'. split; [done|]. apply H2, elem_of_app. right. constructor.
    + destruct (IH (new ++ [q]) ids) as (H1 & H2 & H3).
      split; [intros p Hp; apply H1, elem_of_app; by left|]. split; [done|].
      intros p [->|Hp]%elem_of_cons; [|by apply H3].
      left. split; [done|]. apply H1, elem_of_app. right. constructor.
Qed.

(* The four things a step can do. *)
Lemma process_burn_step (T : tile) (window : ndarray3) (origin : Z * Z) (burn : Z)
      (pts : list point) (s : store) :
  wf s → candidates T window origin burn = inr pts →
  ∃ s', process_burn T window origin burn s = Done tt s' ∧ step_result s pts s'.
Proof.
  intros Hwf Hcand. unfold process_burn. rewrite Hcand. cbv [lift bind ret get].
  destruct (assign_points_spec (event_grid s) pts [] []) as (Hids & Hnd & _).
  specialize (Hnd (NoDup_nil_2)).
  pose proof (step_create s pts) as Hcreate.
  pose proof (step_same s pts) as Hsame.
  pose proof (step_extend s pts) as Hextend.
  pose proof (step_merge s pts) as Hmerge.
  set (found := assign_points (event_grid s) pts [] []) in *.
  assert (Hvalid : ∀ e, e ∈ found.2 →
            ∃ p, 1 ≤ e ∧ perimeters s !! Z.to_nat (e - 1) = Some p ∧ live p).
  { intros e He. destruct (Hids e He) as [Hn|(q & _ & Hq)]; [by apply elem_of_nil in Hn|].
    destruct (wf_grid s Hwf _ _ Hq) as (pt & p & _ & H1 & Hp & Hl & _). by exists p. }
  destruct found.2 as [|e0 [|e1 rest]] eqn:Hf.
  - cbv [put bind]. eexists. split; [|by apply Hcreate].
    fill_grid. simpl. reflexivity.
  - destruct (Hvalid e0) as (p & He & Hp & Hl); [constructor|].
    destruct found.1 as [|q new] eqn:Hnew; simpl.
    { exists s. split; [done|]. by eapply Hsame. }
    cbv [perimeter_index update_perimeter bind get put ret raise]. simpl.
    rewrite index_of_id by (by (done || eapply lookup_lt_Some)).
    eexists. split; [apply (add_event_grid_points e0 (q :: new))|].
    by apply (Hextend e0 p).
  - destruct (Hvalid e0) as (p0 & He0 & Hp0 & Hl0); [constructor|].
    destruct (Hvalid e1) as (p1 & He1 & Hp1 & Hl1); [constructor; constructor|].
    assert (Hne : e0 ≠ e1).
    { apply NoDup_cons in Hnd as [Hnin _]. intros ->. apply Hnin. constructor. }
    destruct (live_points p1 Hl1) as [pts1 Hc].
    rewrite (merge_perimeters_live s e0 e1 (Z.to_nat (e0 - 1)) (Z.to_nat (e1 - 1)) p1 pts1);
      [|apply index_of_id; [done|by eapply lookup_lt_Some]..|lia|done|done].
    eexists. split; [done|]. by eapply (Hmerge e0 e1 rest p0 p1 pts1).
Qed.

Lemma step_result_wf (s s' : store) (pts : list point) :
  wf s → step_result s pts s' → wf s'.
Proof.
  intros Hwf [Hf|e Hf Hn|e pe Hf Hn He Hp Hl|e0 e1 rest p0 p1 pts1 Hf He0 He1 Hne Hp0 Hl0 Hp1 Hl1 Hc].
  - by apply wf_create.
  - done.
  - by eapply wf_absorb.
  - by eapply wf_merge.
Qed.

Lemma held_alter (s : store) (f : EventPerimeter → EventPerimeter) (eg : gmap key Z)
      (n : Z) (k : nat) (pt : point) :
  (∀ p, perimeters s !! k = Some p → live p →
        live (f p) ∧ ∀ c, c ∈ coords p → c ∈ coords (f p)) →
  held s pt → held (mk_store eg n (alter f k (perimeters s))) pt.
Proof.
  intros Hf (i & p & Hp & Hl & Hin). destruct (decide (i = k)) as [->|Hne].
  - destruct (Hf p Hp Hl) as [Hl' Hsub]. exists k, (f p). simpl.
    split; [by rewrite list_lookup_alter_eq, Hp|]. split; [done | by apply Hsub].
  - exists i, p. simpl. by rewrite list_lookup_alter_ne.
Qed.

Lemma step_result_keeps (s s' : store) (pts : list point) :
  step_result s pts s' → keeps s s'.
Proof.
  intros [Hf|e Hf Hn|e pe Hf Hn He Hp Hl|e0 e1 rest p0 p1 pts1 Hf He0 He1 Hne Hp0 Hl0 Hp1 Hl1 Hc].
  - split; simpl.
    + intros k [e He]. rewrite lookup_fill. case_decide; [done | by rewrite He].
    + intros pt (i & p & Hp & Hl & Hin). exists i, p.
      split; [by apply lookup_app_l_Some | done].
  - split; done.
  - split; simpl.
    + intros k [e' He']. rewrite lookup_fill. case_decide; [done | by rewrite He'].
    + intros pt Hh. apply (held_alter s); [|done].
      intros p _ Hlp. split; [by apply live_add|].
      intros c Hc. simpl. apply elem_of_app. by left.
  - split; simpl.
    + intros k [e' He']. rewrite lookup_fill. case_decide; [done | by rewrite He'].
    + intros pt (i & p & Hp & Hl & Hin).
      assert (Hio : Z.to_nat (e0 - 1) ≠ Z.to_nat (e1 - 1)) by lia.
      destruct (decide (i = Z.to_nat (e1 - 1))) as [->|Hi1].
      * (* a point of the obsolete perimeter moves to the survivor *)
        rewrite Hp1 in Hp. simplify_eq.
        exists (Z.to_nat (e0 - 1)), (add_coordinates p0 (Pt <$> pts1)). simpl.
        split; [|split; [by apply live_add|]].
        -- rewrite list_lookup_alter_ne, list_lookup_alter_eq by done.
           by rewrite list_lookup_alter_ne, Hp0 by done.
        -- simpl. apply elem_of_app. right. by rewrite <- Hc.
      * destruct (decide (i = Z.to_nat (e0 - 1))) as [->|Hi0].
        -- rewrite Hp0 in Hp. simplify_eq.
           exists (Z.to_nat (e0 - 1)), (add_coordinates p (Pt <$> pts1)). simpl.
           split; [|split; [by apply live_add|]].
           ++ rewrite list_lookup_alter_ne, list_lookup_alter_eq by done.
              by rewrite list_lookup_alter_ne, Hp0 by done.
           ++ simpl. apply elem_of_app. by left.
        -- exists i, p. simpl. by rewrite !list_lookup_alter_ne by done.
Qed.

Lemma keeps_refl (s : store) : keeps s s.
Proof. split; done. Qed.

Lemma keeps_trans (s1 s2 s3 : store) : keeps s1 s2 → keeps s2 s3 → keeps s1 s3.
Proof. intros [H1 H2] [H3 H4]. split; [intros k Hk; by apply H3, H1|]. intros pt Hp. by apply H4, H2. Qed.

Lemma classify_step_keeps (T : tile) (step : Z * Z * Z) (s : store) :
  wf s → ∃ s', final_store (classify_step T step s) = Some s' ∧ wf s' ∧ keeps s s'.
Proof.
  intros Hwf. unfold classify_step.
  set (w := get_spatial_window _ _ _ _).
  destruct (candidates T (extract_window (input_array T) w) (origin w) step.2)
    as [e|pts] eqn:Hc.
  - exists s. unfold process_burn. rewrite Hc. split; [done|]. split; [done | apply keeps_refl].
  - destruct (process_burn_step T _ _ _ pts s Hwf Hc) as (s' & -> & Hs).
    exists s'. split; [done|]. split; [by eapply step_result_wf | by eapply step_result_keeps].
Qed.

Lemma run_keeps (T : tile) (steps : list (Z * Z * Z)) (s : store) :
  wf s → ∃ s', final_store (run T steps s) = Some s' ∧ wf s' ∧ keeps s s'.
Proof.
  intros Hwf. unfold run.
  apply (for_each_final (λ s', wf s' ∧ keeps s s')).
  - intros step s1 [H1 H2].
    destruct (classify_step_keeps T step s1 H1) as (s2 & Hf & H3 & H4).
    exists s2. split; [done|]. split; [done|]. by eapply keeps_trans.
  - split; [done | apply keeps_refl].
Qed.

End steps.

(** X3. Classification never loses what it has filed: after any sequence
    of steps, any further steps keep every key of the event grid, and every
    point held by a live perimeter is still held by a live perimeter (its
    own, or the survivor that absorbed it). *)
Theorem filed_points_are_kept (T : tile) (steps more : list (Z * Z * Z)) :
  ∃ s, final_store (run T steps init_store) = Some s
    ∧ ∃ s', final_store (run T more s) = Some s' ∧ keeps s s'.
Proof.
  destruct (run_keeps T steps init_store wf_init) as (s & Hf & Hwf & _).
  destruct (run_keeps T more s Hwf) as (s' & Hf' & _ & Hk).
  exists s. split; [done|]. by exists s'.
Qed.

Section more_steps.

Lemma only_points (l : list coord) :
  (∀ c, c ∈ l → ∃ pt, c = Pt pt) → ∃ pts, l = Pt <$> pts.
Proof.
  induction l as [|c l IH]; intros H; [by exists []|].
  destruct IH as [pts ->]; [intros c' Hc'; apply H; by constructor|].
  destruct (H c) as [pt ->]; [constructor|]. by exists (pt :: pts).
Qed.

Lemma column_center (arr : ndarray3) (sp y x : Z) :
  0 ≤ sp → 0 ≤ y < Z.of_nat (ny arr) → 0 ≤ x < Z.of_nat (nx arr) →
  let w := get_spatial_window sp y x (Z.of_nat (ny arr), Z.of_nat (nx arr)) in
  column (extract_window arr w) (center w).1 (center w).2
  = inr (time_series arr (Z.to_nat y) (Z.to_nat x)).
Proof.
  intros Hsp Hy Hx w.
  destruct (window_facts arr sp y x Hsp Hy Hx)
    as ((Ht & _ & Hl & _) & _ & Hdata & Hnz & _ & _ & Hciy & Hcix).
  fold w in Ht, Hl, Hdata, Hnz, Hciy, Hcix.
  unfold column, time_series. rewrite Hciy, Hcix, Hnz. f_equal.
  apply list_fmap_ext. intros _ t _. rewrite Hdata. f_equal; lia.
Qed.

Lemma bind_ext_in {A B} (f g : A → list B) (l : list A) :
  (∀ a, a ∈ l → f a = g a) → l ≫= f = l ≫= g.
Proof.
  induction l as [|a l IH]; intros H; [done|].
  rewrite !bind_cons, H by constructor. f_equal. apply IH.
  intros b Hb. apply H. by constructor.
Qed.

End more_steps.

(** X1. merge_perimeters on two different perimeters, the obsolete one
    holding points only, returns normally and does exactly this: every point
    of the obsolete perimeter is filed under the survivor id in the event
    grid and no other key changes; the survivor's coords are its old coords
    followed by the obsolete perimeter's; the obsolete perimeter keeps its
    event id, gets the survivor as merge id and [merge_notice, old coords]
    as coords; no other perimeter, nor the length of the list, nor
    next_event_id changes. *)
Theorem merge_live_effect (s : store) (survivor_id obsolete_id : Z) (ie io : nat)
        (pe po : EventPerimeter) :
  Py.index (length (perimeters s)) (obsolete_id - 1) = Some io →
  Py.index (length (perimeters s)) (survivor_id - 1) = Some ie →
  ie ≠ io →
  perimeters s !! ie = Some pe →
  perimeters s !! io = Some po →
  (∀ c, c ∈ coords po → ∃ pt, c = Pt pt) →
  ∃ s', merge_perimeters survivor_id obsolete_id s = Done tt s'
    ∧ (∀ pt, Pt pt ∈ coords po → event_grid s' !! (inl pt : key) = Some survivor_id)
    ∧ (∀ k, (∀ pt, k = inl pt → Pt pt ∉ coords po) →
            event_grid s' !! k = event_grid s !! k)
    ∧ perimeters s' !! ie
      = Some (mk_perimeter (event_id pe) (merge_id pe) (coords pe ++ coords po))
    ∧ perimeters s' !! io
      = Some (mk_perimeter (event_id po) (Some survivor_id)
                [Notice (merge_notice survivor_id); PtList (coords po)])
    ∧ (∀ i, i ≠ ie → i ≠ io → perimeters s' !! i = perimeters s !! i)
    ∧ length (perimeters s') = length (perimeters s)
    ∧ next_event_id s' = next_event_id s.
Proof.
  intros Hio Hie Hne Hpe Hpo Hpts.
  destruct (only_points (coords po) Hpts) as [pts Hc].
  rewrite (merge_perimeters_live s survivor_id obsolete_id ie io po pts Hio Hie Hne Hpo Hc).
  eexists. split; [reflexivity|]. simpl. rewrite Hc.
  split; [|split; [|split; [|split; [|split; [|split]]]]].
  - intros pt Hpt. rewrite lookup_fill, decide_True; [done|].
    apply list_elem_of_fmap in Hpt as (pt' & [= ->] & Hpt). by apply list_elem_of_fmap_2.
  - intros k Hk. rewrite lookup_fill, decide_False; [done|].
    intros (pt & -> & Hpt)%list_elem_of_fmap. apply (Hk pt eq_refl).
    by apply list_elem_of_fmap_2.
  - rewrite list_lookup_alter_ne, list_lookup_alter_eq by done.
    by rewrite list_lookup_alter_ne, Hpe by done.
  - rewrite list_lookup_alter_eq, list_lookup_alter_ne by done.
    by rewrite list_lookup_alter_eq, Hpo.
  - intros i H1 H2. by rewrite !list_lookup_alter_ne by done.
  - by rewrite !length_alter.
  - done.
Qed.

Lemma merge_live_effect_witness :
  ∃ s', merge_perimeters 1 2
          (mk_store {[ (inl (300, 10, 16) : key) := 1; (inl (300, 20, 16) : key) := 2 ]} 3
             [ mk_perimeter 1 None [Pt (300, 10, 16)];
               mk_perimeter 2 None [Pt (300, 20, 16)] ]) = Done tt s'
    ∧ event_grid s' !! (inl (300, 20, 16) : key) = Some 1
    ∧ perimeters s' !! 0%nat
      = Some (mk_perimeter 1 None [Pt (300, 10, 16); Pt (300, 20, 16)]).
Proof.
  destruct (merge_live_effect
              (mk_store {[ (inl (300, 10, 16) : key) := 1; (inl (300, 20, 16) : key) := 2 ]} 3
                 [ mk_perimeter 1 None [Pt (300, 10, 16)];
                   mk_perimeter 2 None [Pt (300, 20, 16)] ])
              1 2 0%nat 1%nat
              (mk_perimeter 1 None [Pt (300, 10, 16)])
              (mk_perimeter 2 None [Pt (300, 20, 16)]))
    as (s' & Hrun & Hgrid & _ & Hsurv & _).
  - reflexivity.
  - reflexivity.
  - discriminate.
  - reflexivity.
  - reflexivity.
  - simpl. intros c Hc. apply list_elem_of_singleton in Hc. by eexists.
  - exists s'. split; [exact Hrun|]. split; [|exact Hsurv].
    apply Hgrid. simpl. constructor.
Defined.

(** X2. When the candidate points of a step belong to no event or to a
    single one, the step returns normally and afterwards every candidate
    point is filed under one and the same id (the new id when there was
    none, else the single id found), whose perimeter is live and holds the
    point. *)
Theorem single_event_step_files_all (T : tile) (window : ndarray3) (origin : Z * Z)
        (burn : Z) (pts : list point) (s : store) :
  wf s →
  candidates T window origin burn = inr pts →
  (length (assign_points (event_grid s) pts [] []).2 ≤ 1)%nat →
  ∃ s', process_burn T window origin burn s = Done tt s'
    ∧ ∀ p, p ∈ pts →
        let e := match (assign_points (event_grid s) pts [] []).2 with
                 | [] => next_event_id s
                 | e :: _ => e
                 end in
        event_grid s' !! (inl p : key) = Some e
        ∧ ∃ q, perimeters s' !! Z.to_nat (e - 1) = Some q
               ∧ event_id q = e ∧ live q ∧ Pt p ∈ coords q.
Proof.
  intros Hwf Hcand Hlen.
  destruct (process_burn_step T window origin burn pts s Hwf Hcand) as (s' & Hrun & Hstep).
  exists s'. split; [done|].
  pose proof (step_result_wf s s' pts Hwf Hstep) as Hwf'.
  destruct (assign_points_complete (event_grid s) pts [] []) as (_ & _ & Hall).
  assert (Hgrid : ∀ p, p ∈ pts →
            event_grid s' !! (inl p : key)
            = Some (match (assign_points (event_grid s) pts [] []).2 with
                    | [] => next_event_id s
                    | e :: _ => e
                    end)).
  { intros p Hp. specialize (Hall p Hp).
    destruct Hstep as [Hf|e Hf Hn|e pe Hf Hn He Hpe Hl
                      |e0 e1 rest p0 p1 pts1 Hf He0 He1 Hne Hp0 Hl0 Hp1 Hl1 Hc];
      rewrite Hf in *; simpl.
    - destruct Hall as [[_ Hin]|(e & _ & He)]; [|by apply elem_of_nil in He].
      rewrite lookup_fill, decide_True; [done | by apply list_elem_of_fmap_2].
    - destruct Hall as [[_ Hin]|(e' & Hg & He)].
      + rewrite Hn in Hin. by apply elem_of_nil in Hin.
      + apply list_elem_of_singleton in He as ->. done.
    - rewrite lookup_fill. case_decide; [done|].
      destruct Hall as [[_ Hin]|(e' & Hg & He')].
      + exfalso. apply H. by apply list_elem_of_fmap_2.
      + apply list_elem_of_singleton in He' as ->. done.
    - simpl in Hlen. lia. }
  intros p Hp e. split; [by apply Hgrid|].
  destruct (wf_grid s' Hwf' _ _ (Hgrid p Hp)) as (pt & q & [= <-] & H1 & Hq & Hl & Hin).
  exists q. split; [done|]. split; [|done].
  rewrite (wf_ids s' Hwf' _ _ Hq). unfold e. lia.
Qed.

Lemma single_event_step_files_all_witness :
  let w := get_spatial_window 1 0 0 (2, 2) in
  ∃ s', process_burn tile_early (extract_window (input_array tile_early) w) (origin w) 5
          init_store = Done tt s'
    ∧ ∀ p, p ∈ [(200, 10, 5); (200, 20, 0); (100, 10, 0); (100, 20, 0)] →
        event_grid s' !! (inl p : key) = Some 1
        ∧ ∃ q, perimeters s' !! Z.to_nat (1 - 1) = Some q
               ∧ event_id q = 1 ∧ live q ∧ Pt p ∈ coords q.
Proof.
  intros w.
  apply (single_event_step_files_all tile_early
           (extract_window (input_array tile_early) w) (origin w) 5
           [(200, 10, 5); (200, 20, 0); (100, 10, 0); (100, 20, 0)] init_store).
  - apply wf_init.
  - vm_compute. reflexivity.
  - vm_compute. lia.
Defined.

(** X4. On a well-formed tile (spatial_param >= 0, at least one time step,
    coordinate vectors as long as the array's axes) get_event_perimeters
    raises nothing and returns; its steps are, for the available cells in
    row-major order, the positive values of the cell's time series in time
    order, and the returned perimeters and the final store are those of
    running these steps one after the other. *)
Theorem classification_returns (T : tile) :
  well_formed T →
  ∃ pairs s,
    get_availables (input_array T) = inr pairs
    ∧ steps_of T
      = pairs ≫= (λ p, (λ b, (p, b)) <$>
                         filter (λ b, b > 0)
                           (time_series (input_array T) (Z.to_nat p.1) (Z.to_nat p.2)))
    ∧ get_event_perimeters T init_store = Done (perimeters s) s
    ∧ run T (steps_of T) init_store = Done tt s
    ∧ wf s.
Proof.
  intros HT. destruct (get_event_perimeters_total T HT) as (s & Hrun & Hsteps & Hwf).
  pose proof HT as (Hsp & Hnz & _).
  unfold steps_of in *. unfold get_availables in *. rewrite decide_False in * by done.
  eexists _, s. split; [reflexivity|]. split; [|done].
  apply bind_ext_in. intros [y x] Hp.
  apply list_elem_of_fmap in Hp as ([y' x'] & [= -> ->] & Hp).
  apply elem_of_np_where2 in Hp as (Hy & Hx & _).
  unfold pair_steps. cbn [fst snd].
  rewrite column_center by (done || lia). by rewrite !Nat2Z.id.
Qed.

Lemma classification_returns_witness :
  ∃ pairs s,
    get_availables (input_array tile_overlap) = inr pairs
    ∧ steps_of tile_overlap
      = pairs ≫= (λ p, (λ b, (p, b)) <$>
                         filter (λ b, b > 0)
                           (time_series (input_array tile_overlap)
                              (Z.to_nat p.1) (Z.to_nat p.2)))
    ∧ get_event_perimeters tile_overlap init_store = Done (perimeters s) s
    ∧ run tile_overlap (steps_of tile_overlap) init_store = Done tt s
    ∧ wf s.
Proof.
  apply (classification_returns tile_overlap).
  split; [simpl; lia|]. split; [simpl; discriminate|]. split; reflexivity.
Defined.

Section tables.

Lemma take_at_length (v idx r : list Z) :
  take_at v idx = inr r → length r = length idx.
Proof.
  revert r. induction idx as [|i idx IH]; intros r; simpl; [by intros [= <-]|].
  destruct (Py.index _ _); [|done]. destruct (take_at v idx) as [e|r']; [done|].
  intros [= <-]. simpl. f_equal. by apply IH.
Qed.

Lemma candidates_length (T : tile) (window : ndarray3) (origin : Z * Z) (burn : Z)
      (pts : list point) :
  candidates T window origin burn = inr pts →
  length pts
  = length (np_where3 (nz window) (ny window) (nx window)
              (λ t i j, bool_decide (Z.abs (burn - data window t i j) ≤ temporal_param T))).
Proof.
  unfold candidates. destruct origin as [oy ox].
  set (locs := np_where3 _ _ _ _).
  destruct (take_at (coord_y T) _) as [e|ys] eqn:Hys; [done|].
  destruct (take_at (coord_x T) _) as [e|xs] eqn:Hxs; [done|].
  intros [= <-]. apply take_at_length in Hys, Hxs.
  rewrite !length_fmap in Hys, Hxs.
  rewrite !length_zip_with, length_fmap. lia.
Qed.

(* The steps of a well-formed tile look at cells of the grid and at
   positive values of their time series. *)
Lemma elem_of_steps_of (T : tile) (y x b : Z) :
  well_formed T → (y, x, b) ∈ steps_of T →
  0 ≤ y < Z.of_nat (ny (input_array T))
  ∧ 0 ≤ x < Z.of_nat (nx (input_array T))
  ∧ b > 0
  ∧ b ∈ time_series (input_array T) (Z.to_nat y) (Z.to_nat x).
Proof.
  intros (Hsp & Hnz & _) Hin. unfold steps_of, get_availables in Hin.
  rewrite decide_False in Hin by done.
  apply list_elem_of_bind in Hin as ([y' x'] & Hin & Hp).
  apply list_elem_of_fmap in Hp as ([yn xn] & [= -> ->] & Hp).
  apply elem_of_np_where2 in Hp as (Hy & Hx & _).
  unfold pair_steps in Hin. cbn [fst snd] in Hin.
  rewrite column_center in Hin by (done || lia).
  apply list_elem_of_fmap in Hin as (b' & [= -> -> ->] & Hb).
  apply list_elem_of_filter in Hb as [Hpos Hb].
  split; [lia|]. split; [lia|]. done.
Qed.

(* With temporal_param >= 0 a step of the tile has candidates: the
   cell's own detection is one. *)
Lemma candidates_nonempty (T : tile) (y x b : Z) :
  well_formed T → 0 ≤ temporal_param T →
  0 ≤ y < Z.of_nat (ny (input_array T)) →
  0 ≤ x < Z.of_nat (nx (input_array T)) →
  b ∈ time_series (input_array T) (Z.to_nat y) (Z.to_nat x) →
  let dims := (Z.of_nat (ny (input_array T)), Z.of_nat (nx (input_array T))) in
  let w := get_spatial_window (spatial_param T) y x dims in
  ∃ pts, candidates T (extract_window (input_array T) w) (origin w) b = inr pts
         ∧ pts ≠ [].
Proof.
  intros HT Htp Hy Hx Hb dims w.
  destruct (candidates_in_range T y x b HT Hy Hx) as [pts Hc]. fold dims w in Hc.
  exists pts. split; [done|]. intros ->.
  apply candidates_length in Hc. cbn [length] in Hc. symmetry in Hc.
  apply length_zero_iff_nil in Hc.
  destruct HT as (Hsp & _).
  destruct (window_facts (input_array T) (spatial_param T) y x Hsp Hy Hx)
    as ((Ht & _ & Hl & _) & _ & Hdata & Hnz & Hwy & Hwx & _).
  fold dims in Ht, Hl, Hdata, Hnz, Hwy, Hwx. fold w in Ht, Hl, Hdata, Hnz, Hwy, Hwx.
  apply list_elem_of_fmap in Hb as (t & -> & Ht').
  apply elem_of_seq in Ht'.
  set (window := extract_window (input_array T) w) in *.
  assert (Hin : (t, Z.to_nat (y - top w), Z.to_nat (x - left w))
                ∈ np_where3 (nz window) (ny window) (nx window)
                    (λ t' i j, bool_decide
                       (Z.abs (data (input_array T) t (Z.to_nat y) (Z.to_nat x)
                               - data window t' i j) ≤ temporal_param T))).
  { apply elem_of_np_where3. split; [lia|]. split; [lia|]. split; [lia|].
    apply bool_decide_eq_true. rewrite Hdata.
    replace (Z.to_nat (top w) + Z.to_nat (y - top w))%nat with (Z.to_nat y) by lia.
    replace (Z.to_nat (left w) + Z.to_nat (x - left w))%nat with (Z.to_nat x) by lia.
    lia. }
  rewrite Hc in Hin. by apply elem_of_nil in Hin.
Qed.

Lemma assign_points_no_ids (eg : gmap key Z) (pts new : list point) (ids : list Z) :
  (assign_points eg pts new ids).2 = [] → (assign_points eg pts new ids).1 = new ++ pts.
Proof.
  revert new ids. induction pts as [|q pts IH]; intros new ids; simpl.
  - by rewrite app_nil_r.
  - destruct (eg !! (inl q : key)) as [e|] eqn:Hq.
    + intros Hnil. exfalso.
      destruct (assign_points_complete eg (q :: pts) new ids) as (_ & _ & H).
      destruct (H q) as [[Hn _]|(e' & _ & He')]; [constructor|congruence|].
      simpl in He'. rewrite Hq in He'. rewrite Hnil in He'. by apply elem_of_nil in He'.
    + intros Hnil. rewrite (IH _ _ Hnil), <- app_assoc. done.
Qed.

Lemma step_result_nonempty (s s' : store) (pts : list point) :
  all_nonempty s → pts ≠ [] → step_result s pts s' → all_nonempty s'.
Proof.
  intros Hne Hpts
    [Hf|e Hf Hn|e pe Hf Hn He Hp Hl|e0 e1 rest p0 p1 pts1 Hf He0 He1 Hne' Hp0 Hl0 Hp1 Hl1 Hc];
    intros i p; simpl.
  - intros [Hp|[_ Hp]]%lookup_app_Some; [by eapply Hne|].
    apply list_lookup_singleton_Some in Hp as [_ <-]. simpl.
    rewrite (assign_points_no_ids _ _ _ _ Hf). simpl.
    destruct pts; [done | discriminate].
  - apply Hne.
  - rewrite list_lookup_alter. case_decide; [|apply Hne].
    destruct (perimeters s !! Z.to_nat (e - 1)) as [q|] eqn:Hq; [|done].
    intros [= <-]. simpl. intros [Hq' _]%app_eq_nil. exact (Hne _ _ Hq Hq').
  - rewrite list_lookup_alter. case_decide.
    { destruct (alter _ _ _ !! _); [|done]. intros [= <-]. done. }
    rewrite list_lookup_alter. case_decide.
    { rewrite list_lookup_alter_ne by lia.
      destruct (perimeters s !! Z.to_nat (e0 - 1)) as [q|] eqn:Hq; [|done].
      intros [= <-]. simpl. intros [Hq' _]%app_eq_nil. exact (Hne _ _ Hq Hq'). }
    rewrite list_lookup_alter_ne by done. apply Hne.
Qed.

Lemma remove_merged_filter (perims kept : list EventPerimeter) :
  remove_merged perims = inr kept →
  kept = filter (λ p, starts_with_notice p = Some false) perims
  ∧ ∀ p, p ∈ perims → coords p ≠ [].
Proof.
  revert kept. induction perims as [|p perims IH]; intros kept; simpl.
  - intros [= <-]. split; [done|]. by intros p ?%elem_of_nil.
  - destruct (starts_with_notice p) as [b|] eqn:Hb; [|done].
    destruct (remove_merged perims) as [e|r]; [done|].
    intros [= <-]. destruct (IH r eq_refl) as [-> Hne]. split.
    + rewrite filter_cons. destruct b.
      * by rewrite decide_False by congruence.
      * by rewrite decide_True.
    + intros q [->|Hq]%elem_of_cons; [|by apply Hne].
      unfold starts_with_notice in Hb. by destruct (coords p).
Qed.

Lemma remove_merged_total (perims : list EventPerimeter) :
  (∀ p, p ∈ perims → coords p ≠ []) → ∃ kept, remove_merged perims = inr kept.
Proof.
  induction perims as [|p perims IH]; intros Hne; simpl; [by eexists|].
  destruct IH as [kept ->]; [intros q Hq; apply Hne; by constructor|].
  unfold starts_with_notice. destruct (coords p) as [|c l] eqn:Hc.
  - exfalso. by eapply (Hne p); [constructor|].
  - destruct c; by eexists.
Qed.

Lemma as_points_fmap (pts : list point) : as_points (Pt <$> pts) = inr pts.
Proof.
  induction pts as [|p pts IH]; [done|].
  rewrite fmap_cons. cbn [as_points]. by rewrite IH.
Qed.

End tables.

Section table_total.

Lemma table_rows_total (T : tile) (sp_buf : Z) (kept : list EventPerimeter) :
  (∀ p, p ∈ kept → live p) →
  (∀ p pt, p ∈ kept → Pt pt ∈ coords p → -719162 ≤ pt.2 ≤ 2932896) →
  ∃ rows, table_rows T sp_buf kept = inr rows.
Proof.
  induction kept as [|p kept IH]; intros Hl Hd; simpl; [by eexists|].
  destruct (live_points p) as [pts Hpts]; [apply Hl; constructor|].
  rewrite Hpts, as_points_fmap.
  destruct (perimeter_rows_total T sp_buf (event_id p) pts) as [prows ->].
  { intros c Hc. apply (Hd p); [constructor|]. rewrite Hpts. by apply list_elem_of_fmap_2. }
  destruct IH as [rows ->];
    [intros q Hq; apply Hl; by constructor
    |intros q pt Hq; apply Hd; by constructor|].
  by eexists.
Qed.

(* In a well-formed store the perimeters the table keeps are the live
   ones. *)
Lemma kept_live (s : store) (p : EventPerimeter) :
  wf s → p ∈ perimeters s → coords p ≠ [] →
  starts_with_notice p = Some false ↔ merge_id p = None.
Proof.
  intros Hwf Hp Hne. apply list_elem_of_lookup in Hp as [i Hp].
  destruct (wf_state s Hwf i p Hp) as [[Hm Hc]|(m & l & Hm & Hc)].
  - split; [done|]. intros _. unfold starts_with_notice.
    destruct (coords p) as [|c cs]; [done|].
    destruct (Hc c) as [pt ->]; [constructor | done].
  - unfold starts_with_notice. rewrite Hc, Hm. done.
Qed.

Lemma tile_table_total (T : tile) (sp_buf : Z) (s : store) :
  wf s → all_nonempty s →
  (∀ i p pt, perimeters s !! i = Some p → Pt pt ∈ coords p → -719162 ≤ pt.2 ≤ 2932896) →
  ∃ rows, tile_table T sp_buf (perimeters s) = inr rows.
Proof.
  intros Hwf Hne Hd. unfold tile_table.
  destruct (remove_merged_total (perimeters s)) as [kept Hk].
  { intros p [i Hp]%list_elem_of_lookup. by eapply Hne. }
  rewrite Hk. apply remove_merged_filter in Hk as [-> _]. apply table_rows_total.
  - intros p [Hs Hp]%list_elem_of_filter.
    pose proof Hp as [i Hi]%list_elem_of_lookup.
    destruct (wf_state s Hwf i p Hi) as [Hl|(m & l & Hm & Hc)]; [done|].
    unfold starts_with_notice in Hs. rewrite Hc in Hs. done.
  - intros p pt [_ [i Hi]%list_elem_of_lookup]%list_elem_of_filter. by apply (Hd i).
Qed.

Lemma run_nonempty (T : tile) (steps : list (Z * Z * Z)) (s : store) :
  well_formed T → 0 ≤ temporal_param T →
  (∀ step, step ∈ steps → step ∈ steps_of T) →
  wf s → all_nonempty s →
  ∃ s', run T steps s = Done tt s' ∧ wf s' ∧ all_nonempty s'.
Proof.
  intros HT Htp Hsteps Hwf Hne. unfold run.
  destruct (for_each_done (λ s, wf s ∧ all_nonempty s) steps (classify_step T) s)
    as (s' & Hrun & H1 & H2); [|done|by exists s'].
  intros [[y x] b] s0 Hin [Hwf0 Hne0].
  destruct (elem_of_steps_of T y x b HT (Hsteps _ Hin)) as (Hy & Hx & _ & Hb).
  destruct (candidates_nonempty T y x b HT Htp Hy Hx Hb) as (pts & Hc & Hpts).
  unfold classify_step. cbn [fst snd].
  destruct (process_burn_step T _ _ b pts s0 Hwf0 Hc) as (s1 & Hrun & Hstep).
  exists s1. split; [done|].
  split; [by eapply step_result_wf | by eapply step_result_nonempty].
Qed.

Lemma filter_ext_in {A} (P Q : A → Prop) `{!∀ x, Decision (P x)}
      `{!∀ x, Decision (Q x)} (l : list A) :
  (∀ x, x ∈ l → P x ↔ Q x) → filter P l = filter Q l.
Proof.
  induction l as [|a l IH]; intros Hpq; [done|].
  rewrite !filter_cons, IH by (intros x Hx; apply Hpq; by constructor).
  destruct (decide (P a)) as [Hp|Hp], (decide (Q a)) as [Hq|Hq]; try done.
  - exfalso. apply Hq, Hpq; [constructor | done].
  - exfalso. apply Hp, Hpq; [constructor | done].
Qed.

Lemma all_nonempty_init : all_nonempty init_store.
Proof. intros i p Hp. done. Qed.

End table_total.

(** X5. The table of a tile has one row per point of a live perimeter and
    nothing else: when classification returned perims and the table was
    built from them, a row with event id e and (y, x, date) = pt exists if
    and only if pt is among the coords of a perimeter of perims numbered e
    that has no merge id; merged perimeters contribute no row, and the
    number of rows is the total number of coords of the unmerged perimeters,
    repeated points included. *)
Theorem table_rows_are_live_points (T : tile) (sp_buf : Z)
        (perims : list EventPerimeter) (s : store) (rows : list event_row) :
  get_event_perimeters T init_store = Done perims s →
  tile_table T sp_buf perims = inr rows →
  (∀ e pt,
     (∃ r, r ∈ rows ∧ row_id r = e ∧ (row_y r, row_x r, row_date r) = pt)
     ↔ (∃ p, p ∈ perims ∧ merge_id p = None ∧ event_id p = e ∧ Pt pt ∈ coords p))
  ∧ length rows
    = sum_list ((λ p, length (coords p)) <$> filter (λ p, merge_id p = None) perims).
Proof.
  intros Hrun Hrows.
  apply get_event_perimeters_returns in Hrun as [-> Hwf].
  unfold tile_table in Hrows.
  destruct (remove_merged (perimeters s)) as [e|kept] eqn:Hkept; [done|].
  apply remove_merged_filter in Hkept as [Hk Hne].
  assert (Hkl : kept = filter (λ p, merge_id p = None) (perimeters s)).
  { rewrite Hk. apply filter_ext_in. intros p Hp.
    apply (kept_live s); [done..|]. by apply Hne. }
  clear Hk. subst kept.
  set (kept := filter (λ p, merge_id p = None) (perimeters s)) in *.
  assert (Hlive : ∀ p, p ∈ kept → live p).
  { intros p [Hm Hp]%list_elem_of_filter.
    pose proof Hp as [i Hi]%list_elem_of_lookup.
    destruct (wf_state s Hwf i p Hi) as [Hl|(m & l & Hm' & _)]; [done | congruence]. }
  split.
  - intros e pt. split.
    + intros (r & Hr & <- & <-).
      apply (elem_of_table_rows T sp_buf kept rows r Hrows) in Hr as (p & coord & Hp & Hc & Hr).
      apply list_elem_of_fmap in Hr as ([[y x] d] & -> & Hin). simpl.
      exists p. pose proof Hp as [Hm Hp']%list_elem_of_filter.
      split; [done|]. split; [done|]. split; [done|].
      destruct (live_points p (Hlive p Hp)) as [pts Hpts].
      rewrite Hpts, as_points_fmap in Hc. simplify_eq.
      rewrite Hpts. by apply list_elem_of_fmap_2.
    + intros (p & Hp & Hm & <- & Hin).
      assert (Hpk : p ∈ kept) by (by apply list_elem_of_filter).
      destruct (live_points p (Hlive p Hpk)) as [pts Hpts].
      rewrite Hpts in Hin. apply list_elem_of_fmap in Hin as (pt' & [= <-] & Hin).
      exists (mk_row (event_id p) pt.2 pt.1.2 pt.1.1
                (Py.any ((λ c, edgeCheck (yedges_of T) (xedges_of T) c sp_buf) <$> pts))).
      split; [|by destruct pt as [[y x] d]].
      apply (elem_of_table_rows T sp_buf kept rows _ Hrows).
      exists p, pts. split; [done|]. split; [by rewrite Hpts, as_points_fmap|].
      apply list_elem_of_fmap. by exists pt.
  - clearbody kept. revert rows Hrows.
    induction kept as [|p kept IH]; intros rows; simpl; [by intros [= <-]|].
    destruct (live_points p) as [pts Hpts]; [apply Hlive; constructor|].
    rewrite Hpts, as_points_fmap.
    destruct (perimeter_rows T sp_buf (event_id p) pts) as [e|prows] eqn:Hprows; [done|].
    apply perimeter_rows_flag in Hprows as ->.
    destruct (table_rows T sp_buf kept) as [e|rest] eqn:Hrest; [done|].
    intros [= <-]. rewrite length_app, !length_fmap.
    rewrite (IH (λ q Hq, Hlive q (list_elem_of_further _ _ _ Hq)) rest eq_refl). done.
Qed.

Lemma table_rows_are_live_points_witness :
  ∃ perims s rows,
    get_event_perimeters tile_corner init_store = Done perims s
    ∧ tile_table tile_corner 1 perims = inr rows
    ∧ length rows
      = sum_list ((λ p, length (coords p)) <$> filter (λ p, merge_id p = None) perims).
Proof.
  eexists _, _, _.
  split; [vm_compute; reflexivity|]. split; [vm_compute; reflexivity|].
  eapply (table_rows_are_live_points tile_corner 1).
  - vm_compute. reflexivity.
  - vm_compute. reflexivity.
Defined.

Section negative.

Lemma candidates_negative (T : tile) (window : ndarray3) (origin : Z * Z) (burn : Z) :
  temporal_param T < 0 → candidates T window origin burn = inr [].
Proof.
  intros Htp. unfold candidates. destruct origin as [oy ox].
  assert (Hnil : np_where3 (nz window) (ny window) (nx window)
            (λ t i j, bool_decide (Z.abs (burn - data window t i j) ≤ temporal_param T))
            = []).
  { apply elem_of_nil_inv. intros [[t i] j] Hin.
    apply elem_of_np_where3 in Hin as (_ & _ & _ & Hc).
    apply bool_decide_eq_true in Hc. lia. }
  rewrite Hnil. done.
Qed.

Lemma run_negative (T : tile) (steps : list (Z * Z * Z)) (s : store) :
  temporal_param T < 0 →
  wf s → (∀ i p, perimeters s !! i = Some p → coords p = []) → event_grid s = ∅ →
  ∃ s', run T steps s = Done tt s' ∧ wf s'
        ∧ (∀ i p, perimeters s' !! i = Some p → coords p = [])
        ∧ event_grid s' = ∅
        ∧ length (perimeters s') = (length (perimeters s) + length steps)%nat.
Proof.
  intros Htp. revert s. induction steps as [|step steps IH]; intros s Hwf He Hg.
  { exists s. split; [reflexivity|]. split; [done|]. split; [done|]. split; [done|].
    simpl. lia. }
  unfold run in *. simpl. unfold bind. unfold classify_step at 1.
  set (w := get_spatial_window _ _ _ _).
  pose proof (candidates_negative T (extract_window (input_array T) w) (origin w)
                step.2 Htp) as Hc.
  destruct (process_burn_step T _ _ _ [] s Hwf Hc) as (s1 & -> & Hstep).
  pose proof (step_result_wf s s1 [] Hwf Hstep) as Hwf1.
  assert (Hs1 : s1 = mk_store (event_grid s) (next_event_id s + 1)
                       (perimeters s ++ [new_perimeter (next_event_id s) []])).
  { inversion Hstep; simpl in *; done. }
  destruct (IH s1 Hwf1) as (s' & Hrun & Hwf' & He' & Hg' & Hlen).
  - rewrite Hs1. simpl. intros i p [Hp|[_ Hp]]%lookup_app_Some; [by eapply He|].
    by apply list_lookup_singleton_Some in Hp as [_ <-].
  - by rewrite Hs1.
  - exists s'. split; [done|]. split; [done|]. split; [done|]. split; [done|].
    rewrite Hlen, Hs1. simpl. rewrite length_app. simpl. lia.
Qed.

End negative.

(** X7. With a negative temporal_param no cell is ever within the temporal
    window, not even the detection a step starts from: on a well-formed tile
    with at least one detection, get_event_perimeters returns one perimeter
    with an empty coords list per step and an empty event grid, and building
    the table then raises IndexError at p.coords[0]. *)
Theorem negative_temporal_param_fails (T : tile) (sp_buf : Z) :
  well_formed T → temporal_param T < 0 → steps_of T ≠ [] →
  ∃ s, get_event_perimeters T init_store = Done (perimeters s) s
    ∧ length (perimeters s) = length (steps_of T)
    ∧ (∀ p, p ∈ perimeters s → coords p = [])
    ∧ event_grid s = ∅
    ∧ classify_tile T sp_buf = Some (inl Py.IndexError).
Proof.
  intros HT Htp Hsteps.
  destruct (get_event_perimeters_total T HT) as (s & Hrun & Hrs & Hwf).
  destruct (run_negative T (steps_of T) init_store Htp wf_init)
    as (s' & Hrun' & _ & He & Hg & Hlen); [done | done|].
  rewrite Hrs in Hrun'. injection Hrun' as <-.
  exists s. split; [done|]. split; [done|].
  split; [intros p [i Hp]%list_elem_of_lookup; by eapply He|]. split; [done|].
  unfold classify_tile. rewrite Hrun. f_equal. unfold tile_table.
  destruct (perimeters s !! 0%nat) as [p|] eqn:Hp0.
  - pose proof (He 0%nat p Hp0) as Hc.
    destruct (perimeters s) as [|p' ps]; [done|]. simpl in Hp0. simplify_eq.
    simpl. unfold starts_with_notice. by rewrite Hc.
  - apply lookup_ge_None in Hp0. destruct (steps_of T); [done|]. simpl in Hlen. lia.
Qed.

Lemma negative_temporal_param_fails_witness :
  ∃ s, get_event_perimeters tile_negative init_store = Done (perimeters s) s
    ∧ length (perimeters s) = length (steps_of tile_negative)
    ∧ (∀ p, p ∈ perimeters s → coords p = [])
    ∧ event_grid s = ∅
    ∧ classify_tile tile_negative 1 = Some (inl Py.IndexError).
Proof.
  apply (negative_temporal_param_fails tile_negative 1).
  - split; [simpl; lia|]. split; [simpl; discriminate|]. split; reflexivity.
  - simpl. lia.
  - vm_compute. discriminate.
Defined.

(* --------------------------------------------------------------------- *)
(*  The tests of the stitcher                                             *)
(* --------------------------------------------------------------------- *)
Section adjacency.

Lemma any_nonzero_true (l : list Z) : any_nonzero l = true ↔ ∃ e, e ∈ l ∧ e ≠ 0.
Proof.
  unfold any_nonzero. induction l as [|a l IH]; simpl.
  - split; [done | intros (e & He & _); by apply elem_of_nil in He].
  - rewrite orb_true_iff, IH, negb_true_iff, Z.eqb_neq. split.
    + intros [Ha|(e & He & Hz)]; [exists a; split; [constructor | done]|].
      exists e. split; [by constructor | done].
    + intros (e & [->|He]%elem_of_cons & Hz); [by left|]. right. by exists e.
Qed.

Lemma spCheck_true (diffs : list Z) (sp_buf : Z) :
  spCheck diffs sp_buf = true ↔ ∃ e, e ∈ diffs ∧ Z.abs e < sp_buf ∧ e ≠ 0.
Proof.
  unfold spCheck.
  destruct (any_nonzero _) eqn:Hany.
  - apply any_nonzero_true in Hany as (e & [Hlt He]%list_elem_of_filter & Hz).
    split; [|done]. intros _. by exists e.
  - split; [done|]. intros (e & He & Hlt & Hz).
    assert (any_nonzero (filter (λ e, Z.abs e < sp_buf) diffs) = true) as Ht; [|congruence].
    apply any_nonzero_true. exists e. split; [|done]. by apply list_elem_of_filter.
Qed.

Lemma close_in_space_true (sp_buf : Z) (edf edf2 : list df_row) :
  close_in_space sp_buf edf edf2 = true
  ↔ ∃ r, r ∈ edf
      ∧ (∃ ry, ry ∈ edf2 ∧ ypos r ≠ ypos ry ∧ Z.abs (ypos r - ypos ry) < sp_buf)
      ∧ (∃ rx, rx ∈ edf2 ∧ xpos r ≠ xpos rx ∧ Z.abs (xpos r - xpos rx) < sp_buf).
Proof.
  unfold close_in_space.
  rewrite <- !list_fmap_compose.
  rewrite zip_with_fmap_l, zip_with_fmap_r, zip_with_diag.
  rewrite any_fmap_true.
  split.
  - intros (r & Hr & [Hy Hx]%andb_true_iff). exists r. split; [done|].
    simpl in Hy, Hx.
    apply spCheck_true in Hy as (e & He & Hlt & Hz).
    apply spCheck_true in Hx as (e' & He' & Hlt' & Hz').
    rewrite <- list_fmap_compose in He, He'.
    apply list_elem_of_fmap in He as (ry & -> & Hry).
    apply list_elem_of_fmap in He' as (rx & -> & Hrx).
    simpl in *. split; [exists ry | exists rx]; (split; [done|]); split; (done || lia).
  - intros (r & Hr & (ry & Hry & Hny & Hly) & (rx & Hrx & Hnx & Hlx)).
    exists r. split; [done|]. apply andb_true_iff. simpl.
    split; apply spCheck_true.
    + exists (ypos r - ypos ry). split; [|split; [done | lia]].
      rewrite <- list_fmap_compose. apply list_elem_of_fmap. by exists ry.
    + exists (xpos r - xpos rx). split; [|split; [done | lia]].
      rewrite <- list_fmap_compose. apply list_elem_of_fmap. by exists rx.
Qed.

Lemma min_of_le (d : Z) (ds : list Z) (x : Z) : x ∈ d :: ds → min_of d ds ≤ x.
Proof.
  unfold min_of. induction ds as [|a ds IH]; simpl.
  - intros ->%list_elem_of_singleton. lia.
  - intros [->|[->|Hx]%elem_of_cons]%elem_of_cons.
    + etrans; [apply Z.le_min_r|]. apply IH. constructor.
    + apply Z.le_min_l.
    + etrans; [apply Z.le_min_r|]. apply IH. by constructor.
Qed.

Lemma min_of_attained (d : Z) (ds : list Z) : min_of d ds ∈ d :: ds.
Proof.
  unfold min_of. induction ds as [|a ds IH]; simpl; [constructor|].
  destruct (Z.min_spec a (foldr Z.min d ds)) as [[_ ->]|[_ ->]].
  - apply elem_of_cons. right. constructor.
  - apply elem_of_cons in IH as [->|IH]; [constructor|].
    apply elem_of_cons. right. by constructor.
Qed.

Lemma max_of_attained (d : Z) (ds : list Z) : max_of d ds ∈ d :: ds.
Proof.
  unfold max_of. induction ds as [|a ds IH]; simpl; [constructor|].
  destruct (Z.max_spec a (foldr Z.max d ds)) as [[_ ->]|[_ ->]].
  - apply elem_of_cons in IH as [->|IH]; [constructor|].
    apply elem_of_cons. right. by constructor.
  - apply elem_of_cons. right. constructor.
Qed.

Lemma rows_of_relabel_new (edges : list df_row) (old new : string) (r : df_row) :
  old ≠ new →
  r ∈ rows_of (relabel edges old new) new
  ↔ ∃ r0, r0 ∈ edges ∧ (id r0 = old ∨ id r0 = new)
          ∧ r = mk_df_row new (days r0) (ypos r0) (xpos r0) (edge r0) (tile_name r0).
Proof.
  intros Hne. unfold rows_of, relabel. rewrite list_elem_of_filter, list_elem_of_fmap.
  split.
  - intros (Hid & r0 & -> & Hr0). exists r0. split; [done|].
    case_bool_decide as Ho; [split; [by left | done]|].
    split; [by right|]. simpl in Hid. by destruct r0; simpl in *; subst.
  - intros (r0 & Hr0 & Hor & ->). split; [done|]. exists r0. split; [|done].
    case_bool_decide as Ho; [done|]. destruct Hor as [?|Hn]; [done|].
    by destruct r0; simpl in *; subst.
Qed.

Lemma rows_of_relabel_old (edges : list df_row) (old new : string) :
  old ≠ new → rows_of (relabel edges old new) old = [].
Proof.
  intros Hne. unfold rows_of, relabel.
  induction edges as [|r edges IH]; [done|].
  rewrite fmap_cons, filter_cons, IH.
  case_bool_decide; simpl; by rewrite decide_False.
Qed.

End adjacency.

(** X8. The spatial test of the stitcher, exactly: two frames pass it if
    and only if one row of the first has a row of the second at a distance
    in y that is not zero and below sp_buf, and a row of the second, maybe
    another one, at a distance in x that is not zero and below sp_buf. *)
Theorem close_in_space_spec (sp_buf : Z) (edf edf2 : list df_row) :
  close_in_space sp_buf edf edf2 = true
  ↔ ∃ r, r ∈ edf
      ∧ (∃ ry, ry ∈ edf2 ∧ ypos r ≠ ypos ry ∧ Z.abs (ypos r - ypos ry) < sp_buf)
      ∧ (∃ rx, rx ∈ edf2 ∧ xpos r ≠ xpos rx ∧ Z.abs (xpos r - xpos rx) < sp_buf).
Proof. apply close_in_space_true. Qed.

Section merging.

Lemma rows_of_relabel_other (edges : list df_row) (old new i : string) :
  i ≠ old → i ≠ new → rows_of (relabel edges old new) i = rows_of edges i.
Proof.
  intros Ho Hn. unfold rows_of, relabel.
  induction edges as [|r edges IH]; [done|].
  rewrite fmap_cons, !filter_cons, IH.
  case_bool_decide as Hr; simpl; [|done].
  rewrite decide_False by done. rewrite decide_False by congruence. done.
Qed.

Lemma elem_of_rows_of (edges : list df_row) (i : string) (r : df_row) :
  r ∈ rows_of edges i ↔ id r = i ∧ r ∈ edges.
Proof. unfold rows_of. by rewrite list_elem_of_filter. Qed.

Lemma foldl_fixed {A B} (f : A → B → A) (a : A) (l : list B) :
  (∀ b, b ∈ l → f a b = a) → foldl f a l = a.
Proof.
  induction l as [|b l IH]; intros H; simpl; [done|].
  rewrite (H b) by constructor. apply IH. intros b' Hb'. apply H. by constructor.
Qed.

(* Scanning an id that is apart from all others changes nothing. *)
Lemma scan_id_apart (temporal_param sp_buf : Z) (edges : list df_row)
      (dd : option (Z * Z)) (iden : string) :
  (∀ j, j ∈ id <$> edges → iden ≠ j → apart temporal_param sp_buf edges iden j) →
  iden ∈ id <$> edges →
  ∃ dd', scan_id temporal_param sp_buf (edges, dd) iden = inr (edges, dd').
Proof.
  intros Hap Hin. unfold scan_id. cbn [fst snd].
  destruct (rows_of edges iden) as [|r rs] eqn:Hrows.
  { exfalso. apply list_elem_of_fmap in Hin as (r & -> & Hr).
    assert (r ∈ rows_of edges (id r)) as Hr' by by apply elem_of_rows_of.
    rewrite Hrows in Hr'. by apply elem_of_nil in Hr'. }
  rewrite fmap_cons. eexists. f_equal. f_equal.
  apply foldl_fixed. intros iden2 Hi2.
  apply elem_of_unique, list_elem_of_fmap in Hi2 as (r2 & -> & Hr2).
  apply list_elem_of_filter in Hr2 as [Hclose [Hne Hr2]%list_elem_of_filter].
  assert (Hr2' : r2 ∈ rows_of edges (id r2)) by by apply elem_of_rows_of.
  pose proof (min_of_attained (days r) (days <$> rs)) as Hmin.
  pose proof (max_of_attained (days r) (days <$> rs)) as Hmax.
  rewrite <- fmap_cons, <- Hrows in Hmin, Hmax.
  apply list_elem_of_fmap in Hmin as (ra & Hra & Ha).
  apply list_elem_of_fmap in Hmax as (rb & Hrb & Hb).
  unfold merge_pair.
  destruct (close_in_space _ _ _) eqn:Hsp; [exfalso|done].
  apply close_in_space_true in Hsp
    as (r1 & Hr1 & (ry & Hry & Hny & Hly) & (rx & Hrx & Hnx & Hlx)).
  rewrite <- Hrows in Hr1.
  destruct (Hap (id r2)) as [Ht|[Hy|Hx]]; [by apply list_elem_of_fmap_2 | congruence | ..].
  - pose proof (Ht ra r2 Ha Hr2'). pose proof (Ht rb r2 Hb Hr2').
    rewrite Hra, Hrb in Hclose. lia.
  - destruct (Hy r1 ry Hr1 Hry); [done | lia].
  - destruct (Hx r1 rx Hr1 Hrx); [done | lia].
Qed.

Lemma scan_ids_apart (temporal_param sp_buf : Z) (edges : list df_row)
      (dd : option (Z * Z)) (eids : list string) :
  (∀ i j, i ∈ id <$> edges → j ∈ id <$> edges → i ≠ j →
          apart temporal_param sp_buf edges i j) →
  (∀ i, i ∈ eids → i ∈ id <$> edges) →
  ∃ dd', scan_ids temporal_param sp_buf (edges, dd) eids = inr (edges, dd').
Proof.
  intros Hap. revert dd. induction eids as [|iden eids IH]; intros dd Hin; simpl.
  - by eexists.
  - destruct (scan_id_apart temporal_param sp_buf edges dd iden) as [dd' ->].
    + intros j Hj Hne. apply Hap; [|done..]. apply Hin. constructor.
    + apply Hin. constructor.
    + apply IH. intros i Hi. apply Hin. by constructor.
Qed.

End merging.

(** X9. "Merge into the earliest event", as the pair step does it. In the
    scan of iden the pair step for iden2 works with a snapshot: edf, the
    rows iden had when the scan started, and d1, their first day. When edf
    passes the spatial test against the current rows of iden2, every row
    that is under iden or iden2 now ends under iden if d1 is earlier than
    the first day of iden2 and under iden2 otherwise (so on a tie), the
    other of the two ids is left without rows, and no third id is touched.
    As long as the snapshot is current (edf are still the rows of iden, as
    before the first merge of the scan) the surviving id is the one that
    already held the earliest day of the merged event. With a stale snapshot
    it need not be: in the scan of h08v05_1 on df_stale the first pair step
    moves its row to h09v05_1, and the second one, still comparing the
    snapshot, moves the row of h09v05_2 to h08v05_1, an id that held no row
    any more. *)
Theorem merge_into_earliest :
  (∀ (sp_buf : Z) (edges : list df_row) (iden iden2 : string)
     (edf : list df_row) (d1 : Z),
     iden ≠ iden2 →
     close_in_space sp_buf edf (rows_of edges iden2) = true →
     ∃ r2 rs2,
       rows_of edges iden2 = r2 :: rs2
       ∧ let d12 := min_of (days r2) (days <$> rs2) in
         let winner := if decide (d1 < d12) then iden else iden2 in
         let loser := if decide (d1 < d12) then iden2 else iden in
         let out := merge_pair sp_buf iden edf d1 edges iden2 in
         rows_of out loser = []
         ∧ (∀ r, r ∈ rows_of out winner
              ↔ ∃ r0, r0 ∈ edges ∧ (id r0 = iden ∨ id r0 = iden2)
                      ∧ r = mk_df_row winner (days r0) (ypos r0) (xpos r0)
                                      (edge r0) (tile_name r0))
         ∧ (∀ i, i ≠ iden → i ≠ iden2 → rows_of out i = rows_of edges i)
         ∧ (∀ r1 rs1,
              rows_of edges iden = edf → edf = r1 :: rs1 →
              d1 = min_of (days r1) (days <$> rs1) →
              (∀ r, r ∈ rows_of out winner → Z.min d1 d12 ≤ days r)
              ∧ (∃ r0, r0 ∈ rows_of edges winner ∧ days r0 = Z.min d1 d12)))
  ∧ (let edf := rows_of df_stale "h08v05_1" in
     let step1 := merge_pair 2 "h08v05_1" edf 50 df_stale "h09v05_1" in
     let step2 := merge_pair 2 "h08v05_1" edf 50 step1 "h09v05_2" in
     rows_of step1 "h08v05_1" = []
     ∧ id <$> step2 = ["h09v05_1"; "h09v05_1"; "h08v05_1"]
     ∧ days <$> rows_of step2 "h08v05_1" = [55]).
Proof.
  split; [|by vm_compute].
  intros sp_buf edges iden iden2 edf d1 Hne Hclose.
  destruct (rows_of edges iden2) as [|r2 rs2] eqn:Hrows2.
  { apply close_in_space_true in Hclose as (_ & _ & (ry & Hry & _) & _).
    by apply elem_of_nil in Hry. }
  exists r2, rs2. split; [done|]. intros d12 winner loser out.
  assert (Hout : out = relabel edges loser winner).
  { unfold out, merge_pair. cbv zeta. rewrite Hrows2, Hclose, fmap_cons.
    fold d12. unfold winner, loser. by case_decide. }
  assert (Hlw : loser ≠ winner) by (unfold winner, loser; case_decide; congruence).
  assert (Hor : ∀ i, (i = loser ∨ i = winner) ↔ (i = iden ∨ i = iden2)).
  { intros i. unfold winner, loser. case_decide; tauto. }
  assert (Hmem : ∀ r, r ∈ rows_of out winner
           ↔ ∃ r0, r0 ∈ edges ∧ (id r0 = iden ∨ id r0 = iden2)
                   ∧ r = mk_df_row winner (days r0) (ypos r0) (xpos r0)
                                   (edge r0) (tile_name r0)).
  { intros r. rewrite Hout, rows_of_relabel_new by done.
    split; intros (r0 & Hr0 & Hid & ->); exists r0; (split; [done|]);
      (split; [by apply Hor | done]). }
  split; [rewrite Hout; by apply rows_of_relabel_old|].
  split; [done|].
  split.
  { intros i Hi Hi2. rewrite Hout. apply rows_of_relabel_other.
    - intros ->. destruct (proj1 (Hor loser)); [by left|done..].
    - intros ->. destruct (proj1 (Hor winner)); [by right|done..]. }
  intros r1 rs1 Hfresh Hrows Hd1. rewrite <- Hfresh in Hrows. subst d1. split.
  - intros r (r0 & Hr0 & Hid & ->)%Hmem. simpl.
    destruct Hid as [Hid|Hid].
    + assert (days r0 ∈ days r1 :: (days <$> rs1)) as Hd.
      { rewrite <- fmap_cons, <- Hrows. apply list_elem_of_fmap_2.
        by apply elem_of_rows_of. }
      apply min_of_le in Hd. lia.
    + assert (days r0 ∈ days r2 :: (days <$> rs2)) as Hd.
      { rewrite <- fmap_cons, <- Hrows2. apply list_elem_of_fmap_2.
        by apply elem_of_rows_of. }
      apply min_of_le in Hd. fold d12 in Hd. lia.
  - unfold winner. case_decide.
    + pose proof (min_of_attained (days r1) (days <$> rs1)) as Hmin.
      rewrite <- fmap_cons, <- Hrows in Hmin.
      apply list_elem_of_fmap in Hmin as (ra & Hra & Ha).
      exists ra. split; [done|]. lia.
    + pose proof (min_of_attained (days r2) (days <$> rs2)) as Hmin.
      rewrite <- fmap_cons, <- Hrows2 in Hmin.
      apply list_elem_of_fmap in Hmin as (ra & Hra & Ha).
      exists ra. split; [done|]. fold d12 in Hra. lia.
Qed.

Lemma merge_into_earliest_witness :
  rows_of (merge_pair 50 "h08v05_1" (rows_of df_corner "h08v05_1") 50
                      df_corner "h09v05_1") "h09v05_1" = []
  ∧ ∃ r0, r0 ∈ rows_of df_corner "h08v05_1" ∧ days r0 = 50.
Proof.
  destruct (proj1 merge_into_earliest 50 df_corner "h08v05_1" "h09v05_1"
              (rows_of df_corner "h08v05_1") 50)
    as (r2 & rs2 & Hrows & Hloser & _ & _ & Hfresh);
    [done | reflexivity |].
  vm_compute in Hrows. injection Hrows as <- <-.
  destruct (Hfresh (mk_df_row "h08v05_1" 50 1000 4990 true "h08v05")
              [mk_df_row "h08v05_1" 53 1010 4990 true "h08v05"])
    as [_ Hfirst]; [reflexivity..|].
  split; [exact Hloser | exact Hfirst].
Defined.

(** X10. What the stitcher never merges: if every two different ids of
    the edge frame are apart (all their rows temporal_param days or more from
    each other, or in y every pair of rows equal or sp_buf or more apart, or
    the same in x), the pass returns the frame unchanged. *)
Theorem apart_events_not_merged (temporal_param sp_buf : Z) (edges : list df_row) :
  (∀ i j, i ∈ id <$> edges → j ∈ id <$> edges → i ≠ j →
          apart temporal_param sp_buf edges i j) →
  merge_edges temporal_param sp_buf edges = inr edges.
Proof.
  intros Hap. unfold merge_edges.
  destruct (scan_ids_apart temporal_param sp_buf edges None (unique (id <$> edges)) Hap)
    as [dd' ->]; [|done].
  intros i. apply elem_of_unique.
Qed.

Lemma apart_events_not_merged_witness : merge_edges 11 50 df_seam = inr df_seam.
Proof.
  apply (apart_events_not_merged 11 50 df_seam).
  intros i j _ _ _. right. left.
  intros r1 r2 [_ H1]%list_elem_of_filter [_ H2]%list_elem_of_filter. left.
  assert (Hy : ∀ r, r ∈ df_seam → ypos r = 1000).
  { intros r Hr. unfold df_seam in Hr.
    repeat (apply elem_of_cons in Hr as [->|Hr]; [reflexivity|]).
    by apply elem_of_nil in Hr. }
  by rewrite (Hy r1), (Hy r2).
Defined.

(* --------------------------------------------------------------------- *)
(*  Where the points of the perimeters come from                          *)
(* --------------------------------------------------------------------- *)
Section provenance.

Lemma take_at_lookup (v idx r : list Z) (n : nat) (x : Z) :
  take_at v idx = inr r → r !! n = Some x →
  ∃ i k, idx !! n = Some i ∧ Py.index (length v) i = Some k ∧ v !! k = Some x.
Proof.
  revert r n. induction idx as [|i idx IH]; intros r n; simpl.
  - intros [= <-]. by rewrite lookup_nil.
  - destruct (Py.index (length v) i) as [k|] eqn:Hk; [|done].
    destruct (take_at v idx) as [e|r'] eqn:Hr'; [done|].
    intros [= <-]. destruct n as [|n]; simpl.
    + intros [= <-]. exists i, k. split; [done|]. split; [done|].
      apply list_lookup_lookup_total_lt.
      unfold Py.index in Hk. repeat case_decide; simplify_eq; lia.
    + intros Hx. by apply (IH r' n eq_refl).
Qed.

Lemma candidates_cells (T : tile) (y x b : Z) (pts : list point) :
  well_formed T →
  0 ≤ y < Z.of_nat (ny (input_array T)) →
  0 ≤ x < Z.of_nat (nx (input_array T)) →
  b > 0 → b ∈ time_series (input_array T) (Z.to_nat y) (Z.to_nat x) →
  let dims := (Z.of_nat (ny (input_array T)), Z.of_nat (nx (input_array T))) in
  let w := get_spatial_window (spatial_param T) y x dims in
  candidates T (extract_window (input_array T) w) (origin w) b = inr pts →
  ∀ pt, pt ∈ pts → near_detection T pt.
Proof.
  intros HT Hy Hx Hpos Hb dims w Hc pt Hpt.
  pose proof HT as (Hsp & _ & Hly & Hlx).
  destruct (window_facts (input_array T) (spatial_param T) y x Hsp Hy Hx)
    as ((Ht & _ & Hl & _) & Ho & Hdata & Hnz & Hwy & Hwx & _).
  fold dims in Ht, Hl, Ho, Hdata, Hnz, Hwy, Hwx.
  fold w in Ht, Hl, Ho, Hdata, Hnz, Hwy, Hwx.
  apply list_elem_of_fmap in Hb as (t0 & -> & Ht0). apply elem_of_seq in Ht0.
  unfold candidates in Hc. rewrite Ho in Hc.
  set (window := extract_window (input_array T) w) in *. clearbody window.
  set (locs := np_where3 _ _ _ _) in Hc.
  destruct (take_at (coord_y T) _) as [e|ys] eqn:Hys; [done|].
  destruct (take_at (coord_x T) _) as [e|xs] eqn:Hxs; [done|].
  injection Hc as <-.
  apply list_elem_of_lookup in Hpt as [n Hn].
  apply lookup_zip_with_Some in Hn as (yx & d & -> & Hyx & Hd).
  apply lookup_zip_with_Some in Hyx as (py & px & -> & Hpy & Hpx).
  destruct (take_at_lookup _ _ _ _ _ Hys Hpy) as (iy & ky & Hiy & Hky & Hvy).
  destruct (take_at_lookup _ _ _ _ _ Hxs Hpx) as (ix & kx & Hix & Hkx & Hvx).
  rewrite !list_lookup_fmap in Hiy, Hix. rewrite list_lookup_fmap in Hd.
  destruct (locs !! n) as [[[t li] lj]|] eqn:Hloc; [|done].
  cbn in Hiy, Hix, Hd. simplify_eq.
  apply list_elem_of_lookup_2, elem_of_np_where3 in Hloc as (Hlt & Hli & Hlj & Hcond).
  apply bool_decide_eq_true in Hcond. rewrite Hdata in Hcond.
  unfold Py.index in Hky, Hkx. rewrite Hly in Hky. rewrite Hlx in Hkx.
  rewrite decide_True in Hky by lia. rewrite decide_True in Hkx by lia.
  simplify_eq.
  exists t, (Z.to_nat (top w + Z.of_nat li)), (Z.to_nat (left w + Z.of_nat lj)),
         t0, (Z.to_nat y), (Z.to_nat x).
  cbn zeta. cbn [fst snd].
  replace (Z.to_nat (top w + Z.of_nat li)) with (Z.to_nat (top w) + li)%nat by lia.
  replace (Z.to_nat (left w + Z.of_nat lj)) with (Z.to_nat (left w) + lj)%nat by lia.
  replace (Z.to_nat (top w + Z.of_nat li)) with (Z.to_nat (top w) + li)%nat in Hvy by lia.
  replace (Z.to_nat (left w + Z.of_nat lj)) with (Z.to_nat (left w) + lj)%nat in Hvx by lia.
  rewrite Hdata. repeat split; try done; try lia.
Qed.

(* A step adds points of its candidate list only. *)
Lemma step_result_points (P : point → Prop) (s s' : store) (pts : list point) :
  (∀ pt, pt ∈ pts → P pt) →
  (∀ i p pt, perimeters s !! i = Some p → Pt pt ∈ coords p → P pt) →
  step_result s pts s' →
  ∀ i p pt, perimeters s' !! i = Some p → Pt pt ∈ coords p → P pt.
Proof.
  intros Hpts Hs Hstep.
  assert (Hnew : ∀ pt, pt ∈ (assign_points (event_grid s) pts [] []).1 → P pt).
  { intros pt Hpt.
    destruct (assign_points_spec (event_grid s) pts [] []) as (_ & _ & H).
    destruct (H pt Hpt) as [Hn|[Hin _]]; [by apply elem_of_nil in Hn | by apply Hpts]. }
  destruct Hstep
    as [Hf|e Hf Hn|e pe Hf Hn He Hp Hl|e0 e1 rest p0 p1 pts1 Hf He0 He1 Hne' Hp0 Hl0 Hp1 Hl1 Hc];
    intros i p pt; simpl.
  - intros [Hp|[_ Hp]]%lookup_app_Some; [by eapply Hs|].
    apply list_lookup_singleton_Some in Hp as [_ <-]. simpl.
    intros (pt' & [= <-] & Hin)%list_elem_of_fmap. by apply Hnew.
  - apply Hs.
  - rewrite list_lookup_alter. case_decide; [|apply Hs].
    destruct (perimeters s !! Z.to_nat (e - 1)) as [q|] eqn:Hq; [|done].
    intros [= <-]. simpl. intros [Hin|Hin]%elem_of_app; [by eapply Hs|].
    apply list_elem_of_fmap in Hin as (pt' & [= <-] & Hin). by apply Hnew.
  - rewrite list_lookup_alter. case_decide.
    { destruct (alter _ _ _ !! _); [|done]. intros [= <-]. simpl.
      intros [Hin|Hin]%elem_of_cons; [done|].
      by apply list_elem_of_singleton in Hin. }
    rewrite list_lookup_alter. case_decide.
    { rewrite list_lookup_alter_ne by lia.
      destruct (perimeters s !! Z.to_nat (e0 - 1)) as [q|] eqn:Hq; [|done].
      intros [= <-]. simpl. intros [Hin|Hin]%elem_of_app; [exact (Hs _ _ _ Hq Hin)|].
      apply (Hs _ p1 pt Hp1). by rewrite Hc. }
    rewrite list_lookup_alter_ne by done. apply Hs.
Qed.

Lemma run_near_detection (T : tile) (steps : list (Z * Z * Z)) (s : store) :
  well_formed T →
  (∀ step, step ∈ steps → step ∈ steps_of T) →
  wf s →
  (∀ i p pt, perimeters s !! i = Some p → Pt pt ∈ coords p → near_detection T pt) →
  ∃ s', run T steps s = Done tt s' ∧ wf s'
        ∧ ∀ i p pt, perimeters s' !! i = Some p → Pt pt ∈ coords p →
                    near_detection T pt.
Proof.
  intros HT Hsteps Hwf Hnear. unfold run.
  destruct (for_each_done
              (λ s, wf s ∧ ∀ i p pt, perimeters s !! i = Some p → Pt pt ∈ coords p →
                                     near_detection T pt)
              steps (classify_step T) s)
    as (s' & Hrun & H1 & H2); [|done|by exists s'].
  intros [[y x] b] s0 Hin [Hwf0 Hn0].
  destruct (elem_of_steps_of T y x b HT (Hsteps _ Hin)) as (Hy & Hx & Hpos & Hb).
  destruct (candidates_in_range T y x b HT Hy Hx) as [pts Hc].
  pose proof (candidates_cells T y x b pts HT Hy Hx Hpos Hb Hc) as Hcells.
  unfold classify_step. cbn [fst snd].
  destruct (process_burn_step T _ _ b pts s0 Hwf0 Hc) as (s1 & Hrun & Hstep).
  exists s1. split; [done|].
  split; [by eapply step_result_wf|].
  by eapply (step_result_points (near_detection T)).
Qed.

(* A row of the table is a point of a kept perimeter, flagged with the
   flag of the perimeter. *)
Lemma table_row_origin (T : tile) (sp_buf : Z) (perims : list EventPerimeter)
      (rows : list event_row) (r : event_row) :
  tile_table T sp_buf perims = inr rows → r ∈ rows →
  ∃ p coord, p ∈ perims ∧ coords p = Pt <$> coord
    ∧ (row_y r, row_x r, row_date r) ∈ coord
    ∧ row_edge r
      = Py.any ((λ c, edgeCheck (yedges_of T) (xedges_of T) c sp_buf) <$> coord)
    ∧ row_id r = event_id p.
Proof.
  unfold tile_table.
  destruct (remove_merged perims) as [e|kept] eqn:Hkept; [done|].
  intros Hrows Hr.
  apply (elem_of_table_rows T sp_buf kept rows r Hrows) in Hr as (p & coord & Hp & Hc & Hr).
  apply list_elem_of_fmap in Hr as ([[y x] d] & -> & Hin). simpl.
  exists p, coord. split.
  { apply remove_merged_sublist in Hkept. by eapply elem_of_sublist. }
  split; [|done].
  clear -Hc. revert coord Hc. induction (coords p) as [|c cs IH]; intros coord; simpl.
  - by intros [= <-].
  - destruct c; try done. destruct (as_points cs) as [e|r]; [done|].
    intros [= <-]. rewrite fmap_cons. f_equal. by apply IH.
Qed.

Lemma slice_from_zero {A} (l : list A) : Py.slice l (Some 0) None = l.
Proof.
  unfold Py.slice, Py.clip. cbn [from_option].
  rewrite decide_False by lia.
  replace (Z.to_nat (Z.min 0 (Z.of_nat (length l)))) with 0%nat by lia.
  rewrite drop_0, Nat.sub_0_r. by rewrite take_ge.
Qed.

End provenance.

(** X11. The table of a well-formed tile holds cells of the array only:
    every row carries the y and x of the coordinate vectors at some cell
    (i, j) and as date the value of that cell at some time step, and this
    cell lies within spatial_param rows and columns and within temporal_param
    days of a cell with a positive value (a detection). *)
Theorem table_rows_near_detections (T : tile) (sp_buf : Z) (rows : list event_row) :
  well_formed T →
  classify_tile T sp_buf = Some (inr rows) →
  ∀ r, r ∈ rows → near_detection T (row_y r, row_x r, row_date r).
Proof.
  intros HT Hrows r Hr.
  destruct (get_event_perimeters_total T HT) as (s & Hrun & Hsteps & _).
  unfold classify_tile in Hrows. rewrite Hrun in Hrows. injection Hrows as Hrows.
  destruct (run_near_detection T (steps_of T) init_store HT) as (s' & Hrun' & _ & Hnear).
  { done. }
  { apply wf_init. }
  { intros i p pt Hp. by destruct i. }
  rewrite Hsteps in Hrun'. injection Hrun' as <-.
  destruct (table_row_origin T sp_buf _ rows r Hrows Hr) as (p & coord & Hp & Hc & Hin & _).
  apply list_elem_of_lookup in Hp as [i Hp].
  apply (Hnear i p _ Hp). rewrite Hc. by apply list_elem_of_fmap_2.
Qed.

Lemma table_rows_near_detections_witness :
  ∃ rows, classify_tile tile_overlap 1 = Some (inr rows)
    ∧ ∀ r, r ∈ rows → near_detection tile_overlap (row_y r, row_x r, row_date r).
Proof.
  eexists. split; [vm_compute; reflexivity|].
  apply (table_rows_near_detections tile_overlap 1).
  - unfold well_formed. simpl. repeat split; (lia || done).
  - vm_compute. reflexivity.
Defined.

(** X12. With spatial_param = 0 the slice y[-0:] is the whole y axis (and
    x[-0:] the whole x axis), so yedges and xedges are the full coordinate
    vectors and every coordinate counts as an edge: every row of the table
    of a well-formed tile is flagged edge = True. *)
Theorem zero_spatial_param_all_edge (T : tile) (sp_buf : Z) (rows : list event_row) :
  well_formed T →
  spatial_param T = 0 →
  classify_tile T sp_buf = Some (inr rows) →
  yedges_of T = coord_y T
  ∧ xedges_of T = coord_x T
  ∧ ∀ r, r ∈ rows → row_edge r = true.
Proof.
  intros HT Hsp Hrows.
  assert (Hy : yedges_of T = coord_y T).
  { unfold yedges_of. rewrite Hsp. change (- 0) with 0. rewrite slice_from_zero.
    rewrite slice_first by lia. done. }
  assert (Hx : xedges_of T = coord_x T).
  { unfold xedges_of. rewrite Hsp. change (- 0) with 0. rewrite slice_from_zero.
    rewrite slice_first by lia. apply app_nil_r. }
  split; [done|]. split; [done|]. intros r Hr.
  destruct (get_event_perimeters_total T HT) as (s & Hrun & Hsteps & _).
  unfold classify_tile in Hrows. rewrite Hrun in Hrows. injection Hrows as Hrows.
  destruct (run_near_detection T (steps_of T) init_store HT) as (s' & Hrun' & _ & Hnear).
  { done. }
  { apply wf_init. }
  { intros i p pt Hp. by destruct i. }
  rewrite Hsteps in Hrun'. injection Hrun' as <-.
  destruct (table_row_origin T sp_buf _ rows r Hrows Hr) as (p & coord & Hp & Hc & Hin & -> & _).
  apply any_fmap_true. eexists. split; [exact Hin|].
  apply edgeCheck_true. left. rewrite Hy.
  apply list_elem_of_lookup in Hp as [i Hp].
  destruct (Hnear i p (row_y r, row_x r, row_date r) Hp)
    as (t & iy & ix & _ & _ & _ & _ & _ & _ & _ & Hcy & _).
  { rewrite Hc. by apply list_elem_of_fmap_2. }
  by eapply list_elem_of_lookup_2.
Qed.

Lemma zero_spatial_param_all_edge_witness :
  ∃ rows, classify_tile tile_single 50 = Some (inr rows)
    ∧ rows ≠ []
    ∧ ∀ r, r ∈ rows → row_edge r = true.
Proof.
  eexists. split; [vm_compute; reflexivity|]. split; [done|].
  refine (proj2 (proj2 (zero_spatial_param_all_edge tile_single 50 _ _ _ _))).
  - unfold well_formed. simpl. repeat split; (lia || done).
  - reflexivity.
  - vm_compute. reflexivity.
Defined.

(* --------------------------------------------------------------------- *)
(*  Resetting the ids in chronological order                              *)
(* --------------------------------------------------------------------- *)
Section renumbering_proofs.

Lemma elem_of_foldl_step {A} `{EqDecision A} (acc l : list A) (x : A) :
  x ∈ foldl (λ acc x, if bool_decide (x ∈ acc) then acc else acc ++ [x]) acc l
  ↔ x ∈ acc ∨ x ∈ l.
Proof.
  revert acc. induction l as [|a l IH]; intros acc; cbn [foldl].
  - split; [by left | intros [?|H]; [done | by apply elem_of_nil in H]].
  - rewrite IH, elem_of_cons. case_bool_decide as Ha.
    + split; [intros [?|?]; [by left | right; by right]|].
      intros [?|[->|?]]; [by left | by left | by right].
    + rewrite elem_of_app, list_elem_of_singleton. tauto.
Qed.

Lemma NoDup_foldl_step {A} `{EqDecision A} (acc l : list A) :
  NoDup acc →
  NoDup (foldl (λ acc x, if bool_decide (x ∈ acc) then acc else acc ++ [x]) acc l).
Proof.
  revert acc. induction l as [|a l IH]; intros acc Hacc; cbn [foldl]; [done|].
  apply IH. case_bool_decide; [done|].
  apply NoDup_app. split; [done|]. split; [|apply NoDup_singleton].
  intros x Hx ->%list_elem_of_singleton. done.
Qed.

Lemma elem_of_drop_duplicates {A} `{EqDecision A} (l : list A) (x : A) :
  x ∈ drop_duplicates l ↔ x ∈ l.
Proof.
  unfold drop_duplicates. rewrite elem_of_foldl_step. split; [|by right].
  intros [H|?]; [by apply elem_of_nil in H | done].
Qed.

Lemma NoDup_drop_duplicates {A} `{EqDecision A} (l : list A) :
  NoDup (drop_duplicates l).
Proof. unfold drop_duplicates. apply NoDup_foldl_step. constructor. Qed.

Lemma drop_duplicates_fmap {A B} `{EqDecision A, EqDecision B} (f : A → B) (l : list A) :
  Inj (=) (=) f → drop_duplicates (f <$> l) = f <$> drop_duplicates l.
Proof.
  intros Hf. unfold drop_duplicates.
  assert (H1 : ∀ acc,
    foldl (λ acc x, if bool_decide (x ∈ acc) then acc else acc ++ [x]) (f <$> acc) (f <$> l)
    = f <$> foldl (λ acc x, if bool_decide (x ∈ acc) then acc else acc ++ [x]) acc l).
  { induction l as [|a l IH]; intros acc; [done|].
    rewrite fmap_cons. cbn [foldl]. rewrite <- IH. f_equal.
    destruct (decide (a ∈ acc)) as [Hin|Hin].
    - rewrite !bool_decide_eq_true_2; [done..|]. by apply list_elem_of_fmap_2.
    - rewrite !bool_decide_eq_false_2; [by rewrite fmap_app|done|].
      intros (a' & Ha & Hin')%list_elem_of_fmap. apply Hf in Ha. by subst. }
  apply (H1 []).
Qed.

Lemma foldl_insert_lookup (l : list (string * Z)) (m : gmap string Z) (k : string) (v : Z) :
  NoDup l.*1 →
  foldl (λ m kv, <[kv.1 := kv.2]> m) m l !! k = Some v
  ↔ (k, v) ∈ l ∨ ((k ∉ fst <$> l) ∧ m !! k = Some v).
Proof.
  revert m. induction l as [|[k0 v0] l IH]; intros m Hnd.
  - simpl. split; [intros ?; right; split; [apply not_elem_of_nil | done]|].
    intros [H|[_ H]]; [by apply elem_of_nil in H | done].
  - rewrite fmap_cons in Hnd. apply NoDup_cons in Hnd as [Hk0 Hnd].
    cbn [foldl fst snd]. rewrite (IH _ Hnd). rewrite fmap_cons. cbn [fst].
    destruct (decide (k = k0)) as [->|Hne].
    + rewrite lookup_insert_eq. split.
      * intros [Hin|[_ [= ->]]]; [|left; constructor].
        exfalso. apply Hk0. apply list_elem_of_fmap. by exists (k0, v).
      * intros [[[= ->]|Hin]%elem_of_cons|[Hn _]].
        -- right. done.
        -- exfalso. apply Hk0. apply list_elem_of_fmap. by exists (k0, v).
        -- exfalso. apply Hn. constructor.
    + rewrite lookup_insert_ne by done. split.
      * intros [Hin|[Hn Hm]]; [left; by constructor|].
        right. split; [|done]. intros [?|?]%elem_of_cons; done.
      * intros [[[= -> ->]|Hin]%elem_of_cons|[Hn Hm]]; [done | by left|].
        right. split; [|done]. intros ?. apply Hn. by constructor.
Qed.

Lemma dict_of_zip_lookup (keys : list string) (values : list Z) (k : string) (v : Z) :
  NoDup keys → length keys = length values →
  dict_of_zip keys values !! k = Some v
  ↔ ∃ n, keys !! n = Some k ∧ values !! n = Some v.
Proof.
  intros Hnd Hlen. unfold dict_of_zip.
  rewrite foldl_insert_lookup by (rewrite fst_zip by lia; done).
  rewrite lookup_empty. split.
  - intros [Hin|[_ ?]]; [|done].
    apply list_elem_of_lookup in Hin as [n Hn].
    apply lookup_zip_with_Some in Hn as (x & y & [= -> ->] & Hx & Hy). by exists n.
  - intros (n & Hk & Hv). left. apply list_elem_of_lookup. exists n.
    apply lookup_zip_with_Some. by exists k, v.
Qed.

Lemma StronglySorted_lookup {A} (R : relation A) (l : list A) (i j : nat) (a b : A) :
  StronglySorted R l → l !! i = Some a → l !! j = Some b → (i < j)%nat → R a b.
Proof.
  intros Hs. revert i j. induction Hs as [|x l Hs IH Hall]; intros i j Hi Hj Hlt.
  - by rewrite lookup_nil in Hi.
  - destruct j as [|j]; [lia|]. simpl in Hj. destruct i as [|i].
    + injection Hi as <-. rewrite Forall_forall in Hall. apply Hall.
      by eapply list_elem_of_lookup_2.
    + simpl in Hi. apply (IH i j); [done..|lia].
Qed.

Lemma first_day_le (df : list df_row) (r : df_row) :
  r ∈ df → first_day df (id r) ≤ days r.
Proof.
  intros Hr. unfold first_day.
  assert (Hin : days r ∈ days <$> rows_of df (id r)).
  { apply list_elem_of_fmap_2. by apply elem_of_rows_of. }
  destruct (days <$> rows_of df (id r)) as [|d ds]; [by apply elem_of_nil in Hin|].
  by apply min_of_le.
Qed.

Lemma first_day_attained (df : list df_row) (r : df_row) :
  r ∈ df → ∃ r', r' ∈ df ∧ id r' = id r ∧ days r' = first_day df (id r).
Proof.
  intros Hr. unfold first_day.
  assert (Hin : days r ∈ days <$> rows_of df (id r)).
  { apply list_elem_of_fmap_2. by apply elem_of_rows_of. }
  destruct (days <$> rows_of df (id r)) as [|d ds] eqn:Hd; [by apply elem_of_nil in Hin|].
  pose proof (min_of_attained d ds) as Hmin. rewrite <- Hd in Hmin.
  apply list_elem_of_fmap in Hmin as (r' & Hr' & [Hid Hin']%elem_of_rows_of).
  by exists r'.
Qed.

(* The dict built by the renumbering: an id of the frame at position p of the
   sorted list of firsts gets p + 1. *)
Lemma idmap_positions (sort_firsts : list (string * Z) → list (string * Z))
      (df : list df_row) :
  sorts by_first sort_firsts →
  ∃ L : list (string * Z),
    L.*1 ≡ₚ unique (id <$> df)
    ∧ NoDup L.*1
    ∧ StronglySorted by_first L
    ∧ (∀ x, x ∈ L → x.2 = first_day df x.1)
    ∧ ∀ k v, idmap sort_firsts df !! k = Some v
             ↔ ∃ p, L.*1 !! p = Some k ∧ v = Z.of_nat p + 1.
Proof.
  intros Hsort. unfold idmap.
  set (F := drop_duplicates _).
  assert (HF : F = (λ i, (i, first_day df i)) <$> unique (id <$> df)).
  { unfold F, unique. fold (@drop_duplicates string _ (id <$> df)).
    rewrite <- drop_duplicates_fmap by (by intros ?? [= ->]).
    by rewrite <- list_fmap_compose. }
  destruct (Hsort F) as [Hperm Hsorted].
  set (L := sort_firsts F) in *.
  assert (HL1 : L.*1 ≡ₚ unique (id <$> df)).
  { rewrite Hperm, HF, <- list_fmap_compose. by rewrite list_fmap_id. }
  assert (Hnd : NoDup L.*1).
  { rewrite HL1. apply (NoDup_drop_duplicates (id <$> df)). }
  exists L. split; [done|]. split; [done|]. split; [done|]. split.
  { intros x Hx. rewrite Hperm, HF in Hx.
    by apply list_elem_of_fmap in Hx as (i & -> & _). }
  intros k v. rewrite dict_of_zip_lookup; [|done|by rewrite !length_fmap, length_seq].
  split; intros (p & Hk & Hv); exists p; (split; [done|]).
  - rewrite list_lookup_fmap in Hv.
    destruct (seq 1 (length L) !! p) as [q|] eqn:Hq; [|done].
    apply lookup_seq in Hq as [-> _]. injection Hv as <-. lia.
  - rewrite list_lookup_fmap.
    assert (seq 1 (length L) !! p = Some (1 + p)%nat) as ->.
    { apply lookup_seq. split; [done|].
      apply lookup_lt_Some in Hk. by rewrite length_fmap in Hk. }
    simpl. f_equal. lia.
Qed.

(* A merge sort by the key is one sorting routine that qualifies. *)
Lemma merge_sort_by_first : sorts by_first (merge_sort by_first).
Proof.
  assert (Transitive by_first) by (intros a b c; unfold by_first; lia).
  assert (Total by_first) by (intros a b; unfold by_first; lia).
  intros l. split; [apply merge_sort_Permutation | by apply StronglySorted_merge_sort].
Qed.

Lemma merge_sort_by_new_id : sorts by_new_id (merge_sort by_new_id).
Proof.
  assert (Transitive by_new_id).
  { intros a b c. unfold by_new_id.
    destruct (new_id a), (new_id b), (new_id c); (done || lia). }
  assert (Total by_new_id).
  { intros a b. unfold by_new_id. destruct (new_id a), (new_id b); (lia || tauto). }
  intros l. split; [apply merge_sort_Permutation | by apply StronglySorted_merge_sort].
Qed.

Lemma renumber_ids
        (sort_firsts : list (string * Z) → list (string * Z))
        (sort_rows : list saved_row → list saved_row) (df : list df_row) :
  sorts by_first sort_firsts →
  sorts by_new_id sort_rows →
  let n := Z.of_nat (length (unique (id <$> df))) in
  ∃ f : string → Z,
    renumber sort_firsts sort_rows df
      ≡ₚ (λ r, mk_saved (Some (f (id r))) (tile_name r) (days r) (xpos r) (ypos r)) <$> df
    ∧ StronglySorted by_new_id (renumber sort_firsts sort_rows df)
    ∧ (∀ i, i ∈ id <$> df → 1 ≤ f i ≤ n)
    ∧ (∀ i j, i ∈ id <$> df → j ∈ id <$> df → f i = f j → i = j)
    ∧ (∀ k, 1 ≤ k ≤ n → ∃ i, i ∈ id <$> df ∧ f i = k)
    ∧ (∀ i j, i ∈ id <$> df → j ∈ id <$> df →
              first_day df i < first_day df j → f i < f j)
    ∧ (∀ r, r ∈ df → first_day df (id r) ≤ days r
                     ∧ ∃ r', r' ∈ df ∧ id r' = id r ∧ days r' = first_day df (id r)).
Proof.
  intros Hsf Hsr n.
  destruct (idmap_positions sort_firsts df Hsf) as (L & HL1 & Hnd & Hsorted & Hsnd & Hmap).
  set (m := idmap sort_firsts df) in *.
  assert (Hlen : length L = length (unique (id <$> df))).
  { rewrite <- (length_fmap fst L). by apply Permutation_length. }
  assert (Hpos : ∀ i, i ∈ id <$> df →
                      ∃ p, (p < length L)%nat ∧ L !! p = Some (i, first_day df i)
                           ∧ m !! i = Some (Z.of_nat p + 1)).
  { intros i Hi.
    assert (i ∈ L.*1) as [p Hp]%list_elem_of_lookup.
    { rewrite HL1. by apply (elem_of_drop_duplicates (id <$> df)). }
    exists p. split; [apply lookup_lt_Some in Hp; by rewrite length_fmap in Hp|].
    split; [|apply Hmap; by exists p].
    rewrite list_lookup_fmap in Hp. destruct (L !! p) as [[i' d]|] eqn:HLp; [|done].
    injection Hp as ->. f_equal.
    apply (f_equal (pair i)). apply (Hsnd (i, d)). by eapply list_elem_of_lookup_2. }
  exists (λ i, default 0 (m !! i)).
  split; [|split; [apply Hsr|]].
  { unfold renumber. fold m. etrans; [apply Hsr|].
    erewrite list_fmap_ext; [done|]. intros k r Hr. simpl.
    destruct (Hpos (id r)) as (p & _ & _ & ->).
    { apply list_elem_of_fmap_2. by eapply list_elem_of_lookup_2. }
    done. }
  split.
  { intros i Hi. destruct (Hpos i Hi) as (p & Hp & _ & ->). simpl. unfold n. lia. }
  split.
  { intros i j Hi Hj. destruct (Hpos i Hi) as (p & _ & Hp & ->).
    destruct (Hpos j Hj) as (q & _ & Hq & ->). simpl. intros Hpq.
    assert (p = q) as -> by lia. rewrite Hp in Hq. by injection Hq. }
  split.
  { intros k Hk. unfold n in Hk.
    destruct (lookup_lt_is_Some_2 L (Z.to_nat (k - 1))) as [[i d] Hi]; [lia|].
    assert (Hi1 : L.*1 !! Z.to_nat (k - 1) = Some i) by (by rewrite list_lookup_fmap, Hi).
    exists i. split.
    - apply (elem_of_drop_duplicates (id <$> df)). fold (unique (id <$> df)).
      rewrite <- HL1. by eapply list_elem_of_lookup_2.
    - assert (m !! i = Some (Z.of_nat (Z.to_nat (k - 1)) + 1)) as ->
        by (apply Hmap; by eexists).
      simpl. lia. }
  split.
  { intros i j Hi Hj Hlt. destruct (Hpos i Hi) as (p & _ & Hp & ->).
    destruct (Hpos j Hj) as (q & _ & Hq & ->). simpl.
    destruct (decide (p < q)%nat) as [?|Hge]; [lia|]. exfalso.
    destruct (decide (p = q)) as [->|Hne].
    - rewrite Hp in Hq. injection Hq as ->. lia.
    - pose proof (StronglySorted_lookup by_first L q p _ _ Hsorted Hq Hp) as Hle.
      unfold by_first in Hle. simpl in Hle. lia. }
  intros r Hr. split; [by apply first_day_le | by apply first_day_attained].
Qed.

End renumbering_proofs.

(** X13. Resetting the ids in chronological order: provided sort_values
    permutes its rows and orders them by the key, the saved table is the
    frame with every id replaced through one map f, reordered by new id.
    On the ids of the frame f is a bijection onto 1..n, n the number of
    distinct ids, and it is chronological: an id whose first day (the minimum
    of its rows' days) is earlier gets the smaller number. *)
Theorem renumbering_chronological
        (sort_firsts : list (string * Z) → list (string * Z))
        (sort_rows : list saved_row → list saved_row) (df : list df_row) :
  sorts by_first sort_firsts →
  sorts by_new_id sort_rows →
  let n := Z.of_nat (length (unique (id <$> df))) in
  ∃ f : string → Z,
    renumber sort_firsts sort_rows df
      ≡ₚ (λ r, mk_saved (Some (f (id r))) (tile_name r) (days r) (xpos r) (ypos r)) <$> df
    ∧ StronglySorted by_new_id (renumber sort_firsts sort_rows df)
    ∧ (∀ i, i ∈ id <$> df → 1 ≤ f i ≤ n)
    ∧ (∀ i j, i ∈ id <$> df → j ∈ id <$> df → f i = f j → i = j)
    ∧ (∀ k, 1 ≤ k ≤ n → ∃ i, i ∈ id <$> df ∧ f i = k)
    ∧ (∀ i j, i ∈ id <$> df → j ∈ id <$> df →
              first_day df i < first_day df j → f i < f j)
    ∧ (∀ r, r ∈ df → first_day df (id r) ≤ days r
                     ∧ ∃ r', r' ∈ df ∧ id r' = id r ∧ days r' = first_day df (id r)).
Proof. apply renumber_ids. Qed.

Lemma renumbering_chronological_witness :
  ∃ f : string → Z,
    renumber (merge_sort by_first) (merge_sort by_new_id) df_chain
      ≡ₚ (λ r, mk_saved (Some (f (id r))) (tile_name r) (days r) (xpos r) (ypos r))
           <$> df_chain
    ∧ ∀ i j, i ∈ id <$> df_chain → j ∈ id <$> df_chain →
             first_day df_chain i < first_day df_chain j → f i < f j.
Proof.
  destruct (renumbering_chronological (merge_sort by_first) (merge_sort by_new_id) df_chain
              merge_sort_by_first merge_sort_by_new_id)
    as (f & Hperm & _ & _ & _ & _ & Hchron & _).
  exists f. split; [exact Hperm | exact Hchron].
Defined.

(* --------------------------------------------------------------------- *)
(*  The ids given to the events of different tiles                        *)
(* --------------------------------------------------------------------- *)
Section unique_ids.

Lemma pretty_N_char_digit (x : N) : pretty_N_char x ≠ "_"%char.
Proof. unfold pretty_N_char. by repeat case_match. Qed.

Lemma pretty_N_go_chars (x : N) (s : string) :
  "_"%char ∉ String.list_ascii_of_string s → "_"%char ∉ String.list_ascii_of_string (pretty_N_go x s).
Proof.
  revert s. induction (N.lt_wf_0 x) as [x _ IH]; intros s Hs.
  assert (x = 0 ∨ 0 < x)%N as [->|?] by lia.
  - by rewrite pretty_N_go_0.
  - rewrite pretty_N_go_step by done. apply IH.
    { by apply N.div_lt. }
    simpl. intros [Hc|Hin]%elem_of_cons; [|done].
    by apply (pretty_N_char_digit (x `mod` 10)%N).
Qed.

Lemma pretty_N_chars (x : N) : "_"%char ∉ String.list_ascii_of_string (pretty x).
Proof.
  unfold pretty, pretty_N. case_decide.
  - simpl. intros [?|?%elem_of_nil]%elem_of_cons; done.
  - apply pretty_N_go_chars. simpl. apply not_elem_of_nil.
Qed.

Lemma pretty_Z_chars (z : Z) : "_"%char ∉ String.list_ascii_of_string (pretty z).
Proof.
  destruct z as [|p|p]; unfold pretty, pretty_Z.
  - simpl. intros [?|?%elem_of_nil]%elem_of_cons; done.
  - apply (pretty_N_chars (N.pos p)).
  - simpl. intros [?|Hin]%elem_of_cons; [done|].
    by apply (pretty_N_chars (N.pos p)).
Qed.

Lemma chars_app (s1 s2 : string) :
  String.list_ascii_of_string (s1 +:+ s2) = String.list_ascii_of_string s1 ++ String.list_ascii_of_string s2.
Proof. induction s1 as [|c s1 IH]; simpl; [done | by rewrite IH]. Qed.

(* The last underscore of a unique id is the separator. *)
Lemma split_at_separator (t1 t2 p1 p2 : string) :
  "_"%char ∉ String.list_ascii_of_string p1 → "_"%char ∉ String.list_ascii_of_string p2 →
  t1 +:+ String "_"%char p1 = t2 +:+ String "_"%char p2 → t1 = t2 ∧ p1 = p2.
Proof.
  intros H1 H2. revert t2. induction t1 as [|c t1 IH]; intros [|c2 t2]; simpl.
  - by intros [= ->].
  - intros [= <- ->]. exfalso. apply H1. rewrite chars_app. simpl.
    apply elem_of_app. right. constructor.
  - intros [= -> <-]. exfalso. apply H2. rewrite chars_app. simpl.
    apply elem_of_app. right. constructor.
  - intros [= -> Heq]. destruct (IH _ Heq) as [-> ->]. done.
Qed.

End unique_ids.

(** X14. The ids of the concatenated frame, tile + "_" + str(id), tell
    the events of all tiles apart: two of them are equal only for the same
    tile name and the same event number, whatever the tile names are. *)
Theorem unique_id_distinct (tile1 tile2 : string) (id1 id2 : Z) :
  unique_id tile1 id1 = unique_id tile2 id2 ↔ tile1 = tile2 ∧ id1 = id2.
Proof.
  split; [|by intros [-> ->]].
  unfold unique_id. intros Heq.
  apply split_at_separator in Heq as [-> Hp]; [|apply pretty_Z_chars..].
  split; [done|]. by apply (inj pretty).
Qed.

(* --------------------------------------------------------------------- *)
(*  convertDates                                                          *)
(* --------------------------------------------------------------------- *)
Section dates.

Lemma convertDate_day_of_year (julien_day year : Z) :
  1 ≤ year ≤ 9998 → 0 < julien_day ≤ 366 →
  convertDate julien_day year
  = inr (Datetime.days_before_year year - Datetime.days_before_year 1970 + julien_day).
Proof.
  intros Hy Hj. unfold convertDate, Datetime.january_first, Datetime.timedelta, Datetime.add.
  rewrite decide_True by lia. rewrite decide_True by lia.
  rewrite decide_True.
  - f_equal. lia.
  - unfold Datetime.days_before_year. Z.div_mod_to_equations. lia.
Qed.

Lemma days_before_year_mono (year : Z) :
  1970 ≤ year → Datetime.days_before_year 1970 ≤ Datetime.days_before_year year.
Proof. intros Hy. unfold Datetime.days_before_year. Z.div_mod_to_equations. lia. Qed.

Lemma StronglySorted_NoDup {A} (R : relation A) (l : list A) :
  (∀ a, ¬ R a a) → StronglySorted R l → NoDup l.
Proof.
  intros Hirr. induction 1 as [|a l Hs IH Hall]; constructor; [|done].
  intros Hin. rewrite Forall_forall in Hall. by apply (Hirr a), Hall.
Qed.

Lemma np_where2_NoDup (ny nx : nat) (cond : nat → nat → bool) :
  NoDup (np_where2 ny nx cond).
Proof.
  apply (StronglySorted_NoDup nat_row_major_lt); [|apply np_where2_sorted].
  intros [y x]. unfold nat_row_major_lt. simpl. lia.
Qed.

Lemma convert_cells_spec (setitem : Z → option Z) (f : Z → Z) (year : Z)
      (locs : list (nat * nat)) (a : ndarray2) :
  NoDup locs →
  (∀ y x, (y, x) ∈ locs →
          convertDate (cell a y x) year = inr (f (cell a y x))
          ∧ setitem (f (cell a y x)) = Some (f (cell a y x))) →
  ∃ a', convert_cells setitem locs year a = inr a'
        ∧ rows2 a' = rows2 a ∧ cols2 a' = cols2 a
        ∧ ∀ y x, cell a' y x
                 = if decide ((y, x) ∈ locs) then f (cell a y x) else cell a y x.
Proof.
  revert a. induction locs as [|[y0 x0] locs IH]; intros a Hnd Hok.
  - exists a. split; [done|]. split; [done|]. split; [done|]. intros y x.
    rewrite decide_False; [done | apply not_elem_of_nil].
  - apply NoDup_cons in Hnd as [Hnin Hnd]. cbn [convert_cells].
    destruct (Hok y0 x0) as [-> ->]; [constructor|].
    destruct (IH (set_cell a y0 x0 (f (cell a y0 x0))) Hnd) as (a' & -> & Hr & Hc & Hcell).
    { intros y x Hin. simpl. rewrite decide_False.
      - apply Hok. by constructor.
      - intros [-> ->]. done. }
    exists a'. split; [done|]. split; [done|]. split; [done|]. intros y x.
    rewrite Hcell. simpl.
    destruct (decide (y = y0 ∧ x = x0)) as [[-> ->]|Hne].
    + rewrite decide_False by done. rewrite decide_True by constructor. done.
    + destruct (decide ((y, x) ∈ locs)) as [Hin|Hin].
      * rewrite decide_True by (by constructor). done.
      * rewrite decide_False; [done|].
        intros [[= -> ->]|?]%elem_of_cons; [by apply Hne | done].
Qed.

End dates.

(** X15. convertDates on a raster of days of the year: for a year in
    1..9998, values of at most 366 and results that fit the array's integer
    type, it returns the array with the same shape in which every cell with
    a value > 0 holds the number of days from 1970-01-01 to January 1 of the
    year plus the old value, and every other cell is unchanged; from 1970 on
    the cells > 0 before are exactly the cells > 0 after, and the
    differences between the detections of a raster are unchanged. *)
Theorem convertDates_days_since_1970 (setitem : Z → option Z) (array : ndarray2)
        (year : Z) :
  let shift := Datetime.days_before_year year - Datetime.days_before_year 1970 in
  1 ≤ year ≤ 9998 →
  (∀ y x, (y < rows2 array)%nat → (x < cols2 array)%nat → cell array y x ≤ 366) →
  (∀ y x, (y < rows2 array)%nat → (x < cols2 array)%nat → 0 < cell array y x →
          setitem (shift + cell array y x) = Some (shift + cell array y x)) →
  ∃ array',
    convertDates setitem array year = inr array'
    ∧ rows2 array' = rows2 array ∧ cols2 array' = cols2 array
    ∧ (∀ y x, (y < rows2 array)%nat → (x < cols2 array)%nat →
         cell array' y x
         = if decide (0 < cell array y x) then shift + cell array y x
           else cell array y x)
    ∧ (1970 ≤ year →
       ∀ y x, (y < rows2 array)%nat → (x < cols2 array)%nat →
              0 < cell array' y x ↔ 0 < cell array y x)
    ∧ (∀ y x y' x', (y < rows2 array)%nat → (x < cols2 array)%nat →
         (y' < rows2 array)%nat → (x' < cols2 array)%nat →
         0 < cell array y x → 0 < cell array y' x' →
         cell array' y x - cell array' y' x' = cell array y x - cell array y' x').
Proof.
  intros shift Hyear Hmax Hfit.
  set (f := λ v, shift + v).
  destruct (convert_cells_spec setitem f year
              (np_where2 (rows2 array) (cols2 array)
                 (λ y x, bool_decide (cell array y x > 0))) array)
    as (a' & Hrun & Hr & Hc & Hcell).
  { apply np_where2_NoDup. }
  { intros y x (Hy & Hx & Hpos%bool_decide_eq_true)%elem_of_np_where2. split.
    - rewrite convertDate_day_of_year; [done | lia|]. split; [lia | by apply Hmax].
    - apply Hfit; [done..|lia]. }
  assert (Hval : ∀ y x, (y < rows2 array)%nat → (x < cols2 array)%nat →
            cell a' y x
            = if decide (0 < cell array y x) then shift + cell array y x
              else cell array y x).
  { intros y x Hy Hx. rewrite Hcell.
    destruct (decide (0 < cell array y x)) as [Hpos|Hneg].
    - rewrite decide_True; [done|]. apply elem_of_np_where2.
      split; [done|]. split; [done|]. apply bool_decide_eq_true. lia.
    - rewrite decide_False; [done|].
      intros (_ & _ & Hpos%bool_decide_eq_true)%elem_of_np_where2. lia. }
  exists a'. split; [done|]. split; [done|]. split; [done|]. split; [done|]. split.
  - intros H1970 y x Hy Hx. rewrite (Hval y x Hy Hx).
    pose proof (days_before_year_mono year H1970). fold shift in H.
    case_decide; lia.
  - intros y x y' x' Hy Hx Hy' Hx' Hp Hp'.
    rewrite (Hval y x Hy Hx), (Hval y' x' Hy' Hx'). rewrite !decide_True by done. lia.
Qed.

Lemma convertDates_days_since_1970_witness :
  ∃ array', convertDates setitem_int16 raster_2020 2020 = inr array'
    ∧ cell array' 0 0 = 18263 ∧ cell array' 0 1 = 0
    ∧ cell array' 1 0 = -1 ∧ cell array' 1 1 = 18628.
Proof.
  destruct (convertDates_days_since_1970 setitem_int16 raster_2020 2020)
    as (a' & Hrun & _ & _ & Hcell & _).
  - lia.
  - intros [|[|y]] [|[|x]] Hy Hx; simpl in *; (lia || done).
  - intros [|[|y]] [|[|x]] Hy Hx; simpl in *; (lia || done).
  - exists a'. split; [exact Hrun|].
    repeat split; rewrite Hcell by (simpl; lia); reflexivity.
Defined.

(* --------------------------------------------------------------------- *)
(*  The events of a tile do not share points                              *)
(* --------------------------------------------------------------------- *)
Section disjoint.

(* An invariant of the steps is an invariant of get_event_perimeters. *)
Lemma get_event_perimeters_inv (I : store → Prop) (T : tile) :
  I init_store →
  (∀ s pts s', wf s → I s → step_result s pts s' → I s') →
  ∃ s, final_store (get_event_perimeters T init_store) = Some s ∧ wf s ∧ I s.
Proof.
  intros Hinit Hstep.
  assert (Hburn : ∀ window origin b s, wf s ∧ I s →
            ∃ s', final_store (process_burn T window origin b s) = Some s'
                  ∧ wf s' ∧ I s').
  { intros window origin b s [Hwf HI].
    destruct (candidates T window origin b) as [e|pts] eqn:Hc.
    - exists s. unfold process_burn. rewrite Hc. done.
    - destruct (process_burn_step T _ _ _ pts s Hwf Hc) as (s' & -> & Hs).
      exists s'. split; [done|]. split; [by eapply step_result_wf | by eapply Hstep]. }
  assert (Hpair : ∀ pair s, wf s ∧ I s →
            ∃ s', final_store (process_pair T pair s) = Some s' ∧ wf s' ∧ I s').
  { intros pair s Hs. unfold process_pair. cbv [bind lift].
    destruct (column _ _ _) as [e|cb]; simpl; [by exists s|].
    apply (for_each_final (λ s', wf s' ∧ I s')); [|done].
    intros b s1 Hs1. by apply Hburn. }
  unfold get_event_perimeters. cbv [bind lift get put ret raise].
  destruct (get_availables _) as [e|pairs]; simpl.
  { exists init_store. split; [done|]. split; [apply wf_init | done]. }
  destruct (for_each_final (λ s, wf s ∧ I s) pairs (process_pair T) init_store)
    as (s & Hf & Hs); [by intros; apply Hpair | split; [apply wf_init | done]|].
  exists s. split; [|done].
  change (mk_store ∅ 1 []) with init_store.
  destruct (for_each pairs (process_pair T) init_store); simpl in *; congruence.
Qed.

Lemma new_points_unfiled (s : store) (pts : list point) (pt : point) :
  pt ∈ (assign_points (event_grid s) pts [] []).1 → event_grid s !! (inl pt : key) = None.
Proof.
  intros Hpt. destruct (assign_points_spec (event_grid s) pts [] []) as (_ & _ & H).
  destruct (H pt Hpt) as [Hn|[_ ?]]; [by apply elem_of_nil in Hn | done].
Qed.

Lemma elem_of_inl_points (pts : list point) (pt : point) :
  (inl pt : key) ∈ (inl <$> pts : list key) ↔ pt ∈ pts.
Proof.
  rewrite list_elem_of_fmap. split; [by intros (q & [= ->] & ?) | intros ?; by exists pt].
Qed.

Lemma lookup_fill_point (e : Z) (eg : gmap key Z) (pts : list point) (pt : point) :
  fill e eg pts !! (inl pt : key)
  = if decide (pt ∈ pts) then Some e else eg !! (inl pt : key).
Proof.
  rewrite lookup_fill.
  destruct (decide (pt ∈ pts)) as [Hin|Hin].
  - rewrite decide_True; [done | by apply elem_of_inl_points].
  - rewrite decide_False; [done | by rewrite elem_of_inl_points].
Qed.

Lemma step_result_filed (s s' : store) (pts : list point) :
  wf s → filed s → step_result s pts s' → filed s'.
Proof.
  intros Hwf Hfiled Hstep.
  pose proof (new_points_unfiled s pts) as Hnew.
  destruct Hstep
    as [Hf|e Hf Hn|e pe Hf Hn He Hp Hl|e0 e1 rest p0 p1 pts1 Hf He0 He1 Hne' Hp0 Hl0 Hp1 Hl1 Hc];
    intros i p pt; simpl.
  - intros Hp Hlive Hin. rewrite lookup_fill_point.
    apply lookup_app_Some in Hp as [Hp|[Hlen Hp]].
    + rewrite decide_False; [by eapply Hfiled|].
      intros Hpt%Hnew. by rewrite (Hfiled i p pt Hp Hlive Hin) in Hpt.
    + apply list_lookup_singleton_Some in Hp as [Hi <-]. simpl in Hin.
      apply list_elem_of_fmap in Hin as (pt' & [= <-] & Hin).
      rewrite decide_True by done. f_equal.
      rewrite (wf_next s Hwf). lia.
  - apply Hfiled.
  - rewrite list_lookup_alter. rewrite lookup_fill_point.
    case_decide as Hi.
    + subst i. rewrite Hp. intros [= <-] _. simpl.
      intros [Hin|Hin]%elem_of_app.
      * rewrite (Hfiled _ pe pt Hp Hl Hin). case_decide; f_equal; lia.
      * apply list_elem_of_fmap in Hin as (pt' & [= <-] & Hin).
        rewrite decide_True by done. f_equal. lia.
    + intros Hp' Hlive Hin. rewrite decide_False; [by eapply Hfiled|].
      intros Hpt%Hnew. by rewrite (Hfiled i p pt Hp' Hlive Hin) in Hpt.
  - rewrite lookup_fill_point.
    rewrite list_lookup_alter. case_decide as Hi1.
    { destruct (alter _ _ _ !! _); [|done]. intros [= <-] [_ Hl]. simpl in Hl.
      destruct (Hl (Notice (merge_notice e0))) as [? ?]; [constructor | done]. }
    rewrite list_lookup_alter. case_decide as Hi0.
    { subst i. rewrite list_lookup_alter_ne by lia. rewrite Hp0.
      intros [= <-] _. simpl. intros [Hin|Hin]%elem_of_app.
      - rewrite (Hfiled _ p0 pt Hp0 Hl0 Hin). case_decide; f_equal; lia.
      - apply list_elem_of_fmap in Hin as (pt' & [= <-] & Hin).
        rewrite decide_True by done. f_equal. lia. }
    rewrite list_lookup_alter_ne by done.
    intros Hp Hlive Hin. rewrite decide_False; [by eapply Hfiled|].
    intros Hpt.
    assert (Hin1 : Pt pt ∈ coords p1) by (rewrite Hc; by apply list_elem_of_fmap_2).
    pose proof (Hfiled _ p1 pt Hp1 Hl1 Hin1) as H1.
    pose proof (Hfiled i p pt Hp Hlive Hin) as H2.
    rewrite H1 in H2. injection H2 as H2. lia.
Qed.

Lemma filed_init : filed init_store.
Proof. intros i p pt Hp. by destruct i. Qed.

End disjoint.

(** X16. The events of a tile do not share points: when classification
    has returned, every point of a perimeter without merge id is filed in
    event_grid under that perimeter's id, so no (y, x, date) belongs to two
    such perimeters and two rows of the tile's table with the same y, x and
    date carry the same event id. *)
Theorem table_events_disjoint (T : tile) (sp_buf : Z) (perims : list EventPerimeter)
        (s : store) (rows : list event_row) :
  get_event_perimeters T init_store = Done perims s →
  tile_table T sp_buf perims = inr rows →
  filed s
  ∧ ∀ r1 r2, r1 ∈ rows → r2 ∈ rows →
      row_y r1 = row_y r2 → row_x r1 = row_x r2 → row_date r1 = row_date r2 →
      row_id r1 = row_id r2.
Proof.
  intros Hrun Hrows.
  destruct (get_event_perimeters_inv filed T filed_init
              (λ s pts s', step_result_filed s s' pts))
    as (s' & Hf & Hwf & Hfiled).
  rewrite Hrun in Hf. injection Hf as <-.
  apply get_event_perimeters_returns in Hrun as [-> _].
  split; [done|].
  assert (Hid : ∀ r, r ∈ rows →
            event_grid s !! (inl (row_y r, row_x r, row_date r) : key) = Some (row_id r)).
  { intros r Hr.
    destruct (table_row_origin T sp_buf _ rows r Hrows Hr)
      as (p & coord & Hp & Hc & Hin & _ & ->).
    apply list_elem_of_lookup in Hp as [i Hp].
    assert (Hpt : Pt (row_y r, row_x r, row_date r) ∈ coords p)
      by (rewrite Hc; by apply list_elem_of_fmap_2).
    rewrite (wf_ids s Hwf i p Hp). apply (Hfiled i p); [done| |done].
    destruct (wf_state s Hwf i p Hp) as [Hl|(m & l & _ & Ht)]; [done|].
    rewrite Ht in Hpt. apply elem_of_cons in Hpt as [?|Hpt]; [done|].
    by apply list_elem_of_singleton in Hpt. }
  intros r1 r2 Hr1 Hr2 Hy Hx Hd.
  pose proof (Hid r1 Hr1) as H1. pose proof (Hid r2 Hr2) as H2.
  rewrite Hy, Hx, Hd, H2 in H1. by injection H1.
Qed.

Lemma table_events_disjoint_witness :
  ∃ s rows,
    classify_tile tile_overlap 1 = Some (inr rows)
    ∧ filed s
    ∧ ∀ r1 r2, r1 ∈ rows → r2 ∈ rows →
        row_y r1 = row_y r2 → row_x r1 = row_x r2 → row_date r1 = row_date r2 →
        row_id r1 = row_id r2.
Proof.
  eexists _, _. split; [vm_compute; reflexivity|].
  eapply (table_events_disjoint tile_overlap 1);
    [vm_compute; reflexivity | vm_compute; reflexivity].
Defined.

(* --------------------------------------------------------------------- *)
(*  From the concatenated frame to the saved table                        *)
(* --------------------------------------------------------------------- *)
Section saved_table.

Lemma split_by_edge (df : list df_row) :
  filter (λ r, edge r = false) df ++ filter (λ r, edge r = true) df ≡ₚ df.
Proof.
  induction df as [|r df IH]; [done|].
  rewrite !filter_cons. destruct (edge r) eqn:He.
  - rewrite decide_False by done. rewrite decide_True by done.
    rewrite <- Permutation_middle. by constructor.
  - rewrite decide_True by done. rewrite decide_False by done.
    simpl. by constructor.
Qed.

Lemma same_detection_fmap (l l' : list df_row) :
  Forall2 same_detection l l' → detection <$> l' = detection <$> l.
Proof.
  induction 1 as [|r r' l l' (Hd & Hy & Hx & _ & Ht) _ IH]; [done|].
  rewrite !fmap_cons, IH. f_equal. unfold detection. by rewrite Hd, Hy, Hx, Ht.
Qed.

Lemma length_unique (l : list string) : (length (unique l) ≤ length l)%nat.
Proof.
  apply submseteq_length, NoDup_submseteq.
  - apply (NoDup_drop_duplicates l).
  - intros x. apply elem_of_unique.
Qed.

End saved_table.

(** X17. Merging the edge events and resetting the ids never fails and
    neither loses nor invents a detection: provided sort_values permutes its
    rows and orders them by the key, the saved table has, up to the order of
    the rows, exactly the (tile, day, x, y) of the rows of the concatenated
    frame, each with a number (never NaN) between 1 and the number of rows
    as id, and it is ordered by id. *)
Theorem merged_table_keeps_detections
        (sort_firsts : list (string * Z) → list (string * Z))
        (sort_rows : list saved_row → list saved_row)
        (temporal_param sp_buf : Z) (df : list df_row) :
  sorts by_first sort_firsts →
  sorts by_new_id sort_rows →
  ∃ out,
    merged_event_table sort_firsts sort_rows temporal_param sp_buf df = inr out
    ∧ saved_detection <$> out ≡ₚ detection <$> df
    ∧ StronglySorted by_new_id out
    ∧ ∀ r, r ∈ out → ∃ k, new_id r = Some k ∧ 1 ≤ k ≤ Z.of_nat (length df).
Proof.
  intros Hsf Hsr. unfold merged_event_table, stitch.
  destruct (merge_edges_relabelling temporal_param sp_buf (filter (λ r, edge r = true) df))
    as (edges' & -> & Hsame & _).
  set (df' := filter (λ r, edge r = false) df ++ edges').
  destruct (renumber_ids sort_firsts sort_rows df' Hsf Hsr)
    as (f & Hperm & Hsorted & Hrange & _).
  assert (Hdet : detection <$> df' ≡ₚ detection <$> df).
  { unfold df'. rewrite fmap_app, (same_detection_fmap _ _ Hsame), <- fmap_app.
    by rewrite split_by_edge. }
  eexists. split; [done|]. split; [|split; [done|]].
  - rewrite Hperm, <- list_fmap_compose. etrans; [|exact Hdet].
    by erewrite list_fmap_ext.
  - intros r Hr. rewrite Hperm in Hr.
    apply list_elem_of_fmap in Hr as (r0 & -> & Hr0). simpl.
    eexists. split; [done|].
    destruct (Hrange (id r0)) as [H1 H2]; [by apply list_elem_of_fmap_2|].
    split; [done|]. etrans; [exact H2|].
    pose proof (length_unique (id <$> df')) as Hlen. rewrite length_fmap in Hlen.
    apply Permutation_length in Hdet. rewrite !length_fmap in Hdet. lia.
Qed.

Lemma merged_table_keeps_detections_witness :
  ∃ out,
    merged_event_table (merge_sort by_first) (merge_sort by_new_id) 11 2 df_chain = inr out
    ∧ saved_detection <$> out ≡ₚ detection <$> df_chain.
Proof.
  destruct (merged_table_keeps_detections (merge_sort by_first) (merge_sort by_new_id)
              11 2 df_chain merge_sort_by_first merge_sort_by_new_id)
    as (out & Hrun & Hperm & _).
  exists out. split; [exact Hrun | exact Hperm].
Defined.

(* --------------------------------------------------------------------- *)
(*  mode                                                                  *)
(* --------------------------------------------------------------------- *)
Section most_frequent.

(* The dict of groups by length: every entry is a group of that length,
   and the length of every group is a key. *)
Lemma counts_spec (groups : list (list Z)) (m0 : gmap nat (list Z)) :
  let m := foldl (λ m a, <[length a := a]> m) m0 groups in
  (∀ n a, m !! n = Some a → (a ∈ groups ∧ length a = n) ∨ m0 !! n = Some a)
  ∧ (∀ a, a ∈ groups → is_Some (m !! length a))
  ∧ (∀ n, is_Some (m0 !! n) → is_Some (m !! n)).
Proof.
  revert m0. induction groups as [|g groups IH]; intros m0; cbn [foldl].
  - split; [by right|]. split; [by intros a ?%elem_of_nil | done].
  - destruct (IH (<[length g := g]> m0)) as (H1 & H2 & H3).
    split; [|split].
    + intros n a Ha. destruct (H1 n a Ha) as [[Hin Hl]|Hm].
      * left. split; [by constructor | done].
      * destruct (decide (n = length g)) as [->|Hne].
        -- rewrite lookup_insert_eq in Hm. injection Hm as <-.
           left. split; [constructor | done].
        -- rewrite lookup_insert_ne in Hm by done. by right.
    + intros a [->|Hin]%elem_of_cons; [|by apply H2].
      apply H3. rewrite lookup_insert_eq. by eexists.
    + intros n Hn. apply H3.
      destruct (decide (n = length g)) as [->|Hne].
      * rewrite lookup_insert_eq. by eexists.
      * by rewrite lookup_insert_ne.
Qed.

Lemma foldr_max_bound (k : nat) (ks : list nat) :
  foldr Nat.max k ks ∈ k :: ks ∧ ∀ n, n ∈ k :: ks → (n ≤ foldr Nat.max k ks)%nat.
Proof.
  induction ks as [|a ks [IH1 IH2]]; simpl.
  - split; [constructor|]. by intros n ->%list_elem_of_singleton.
  - split.
    + destruct (Nat.max_spec a (foldr Nat.max k ks)) as [[_ ->]|[_ ->]].
      * apply elem_of_cons in IH1 as [->|IH1]; [constructor|].
        apply elem_of_cons. right. by constructor.
      * apply elem_of_cons. right. constructor.
    + intros n [->|[->|Hn]%elem_of_cons]%elem_of_cons.
      * pose proof (IH2 k). etrans; [apply H; constructor | apply Nat.le_max_r].
      * apply Nat.le_max_l.
      * etrans; [apply IH2; by constructor | apply Nat.le_max_r].
Qed.

Lemma group_of (lst : list Z) (s : Z) :
  ∀ v, v ∈ filter (λ v, v = s) lst → v = s.
Proof. by intros v [-> _]%list_elem_of_filter. Qed.

Lemma count_absent (lst : list Z) (x : Z) :
  x ∉ lst → filter (λ v, v = x) lst = [].
Proof.
  intros Hx. induction lst as [|a lst IH]; [done|].
  rewrite filter_cons. rewrite decide_False.
  - apply IH. intros ?. apply Hx. by constructor.
  - intros ->. apply Hx. constructor.
Qed.

Lemma mode_spec (lst : list Z) :
  match mode lst with
  | inr m =>
      m ∈ lst
      ∧ ∀ x, (length (filter (λ v, v = x) lst) ≤ length (filter (λ v, v = m) lst))%nat
  | inl e => e = Py.IndexError ∧ lst = []
  end.
Proof.
  unfold mode. case_decide as Hlen.
  - set (groups := (λ s, filter (λ v, v = s) lst) <$> lst).
    destruct (counts_spec groups ∅) as (H1 & H2 & _).
    set (m := foldl _ ∅ groups) in *.
    assert (Hne : ∃ s, s ∈ lst).
    { destruct lst as [|s lst]; [simpl in Hlen; lia|]. exists s. constructor. }
    destruct Hne as [s0 Hs0].
    assert (Hkey : ∀ a, a ∈ groups → length a ∈ (map_to_list m).*1).
    { intros a Ha. destruct (H2 a Ha) as [b Hb].
      apply list_elem_of_fmap. exists (length a, b). split; [done|].
      by apply elem_of_map_to_list. }
    destruct ((map_to_list m).*1) as [|k ks] eqn:Hks.
    { exfalso. assert (Hg : filter (λ v, v = s0) lst ∈ groups).
      { apply list_elem_of_fmap. by exists s0. }
      apply Hkey in Hg. by apply elem_of_nil in Hg. }
    destruct (foldr_max_bound k ks) as [Hmax Hle].
    set (M := foldr Nat.max k ks) in *.
    rewrite <- Hks in Hmax. apply list_elem_of_fmap in Hmax as ([n a] & HM & Hin).
    apply elem_of_map_to_list in Hin. simpl in HM. subst n. rewrite Hin.
    destruct (H1 M a Hin) as [[Ha HaM]|Hemp]; [|by rewrite lookup_empty in Hemp].
    apply list_elem_of_fmap in Ha as (s & -> & Hs).
    assert (Hsin : s ∈ filter (λ v, v = s) lst) by (by apply list_elem_of_filter).
    destruct (filter (λ v, v = s) lst) as [|x rest] eqn:Hgrp; [by apply elem_of_nil in Hsin|].
    assert (x = s) as ->.
    { apply (group_of lst s). rewrite Hgrp. constructor. }
    split; [done|]. intros y. rewrite Hgrp, HaM.
    destruct (decide (y ∈ lst)) as [Hy|Hy].
    + apply Hle. apply Hkey. apply list_elem_of_fmap. by exists y.
    + rewrite (count_absent lst y Hy). simpl. lia.
  - assert (Hin : ∀ x, x ∈ lst → x ∈ drop_duplicates lst)
      by (intros x; apply elem_of_drop_duplicates).
    destruct (drop_duplicates lst) as [|d rest] eqn:Hd.
    + split; [done|]. destruct lst as [|a lst]; [done|].
      exfalso. by apply (elem_of_nil a), Hin; constructor.
    + assert (rest = []) as -> by (destruct rest; [done | simpl in Hlen; lia]).
      assert (Hall : ∀ x, x ∈ lst → x = d).
      { intros x Hx%Hin. by apply list_elem_of_singleton in Hx. }
      split.
      * apply (elem_of_drop_duplicates lst). rewrite Hd. constructor.
      * intros x. destruct (decide (x ∈ lst)) as [Hx|Hx].
        -- by rewrite (Hall x Hx).
        -- rewrite (count_absent lst x Hx). simpl. lia.
Qed.

End most_frequent.

(** X18. mode returns a most frequent value of a series of integers: it
    raises (IndexError) only on the empty series, and otherwise returns a
    member of the series that no other value outnumbers. *)
Theorem mode_most_frequent (lst : list Z) :
  match mode lst with
  | inr m =>
      m ∈ lst
      ∧ ∀ x, (length (filter (λ v, v = x) lst) ≤ length (filter (λ v, v = m) lst))%nat
  | inl e => e = Py.IndexError ∧ lst = []
  end.
Proof. apply mode_spec. Qed.

(** X6. On a well-formed tile with temporal_param >= 0 whose values are
    all days that datetime can add to 1970-01-01 (between -719162 and
    2932896), the whole per-tile pipeline completes without an exception:
    every step has at least one candidate point (the detection it started
    from), so get_event_perimeters returns perimeters none of which has an
    empty coords list, the test type(p.coords[0]) is str never raises
    IndexError, base + dt.timedelta(c[2]) never raises OverflowError, and
    the table of the tile is built. Without the bound on the values the
    table need not be built: on tile_far_future building it raises
    OverflowError. *)
Theorem tile_table_is_built (T : tile) (sp_buf : Z) :
  well_formed T → 0 ≤ temporal_param T → days_in_range T →
  (∃ s rows,
     get_event_perimeters T init_store = Done (perimeters s) s
     ∧ all_nonempty s
     ∧ classify_tile T sp_buf = Some (inr rows))
  ∧ classify_tile tile_far_future sp_buf = Some (inl Py.OverflowError).
Proof.
  intros HT Htp Hdays. split; [|by vm_compute].
  destruct (get_event_perimeters_total T HT) as (s & Hrun & Hsteps & Hwf).
  destruct (run_nonempty T (steps_of T) init_store HT Htp) as (s' & Hrun' & _ & Hne);
    [done | apply wf_init | apply all_nonempty_init|].
  rewrite Hsteps in Hrun'. injection Hrun' as <-.
  destruct (run_near_detection T (steps_of T) init_store HT) as (s' & Hrun' & _ & Hnear).
  { done. }
  { apply wf_init. }
  { intros i p pt Hp. by destruct i. }
  rewrite Hsteps in Hrun'. injection Hrun' as <-.
  destruct (tile_table_total T sp_buf s Hwf Hne) as [rows Hrows].
  { intros i p pt Hp Hpt.
    destruct (Hnear i p pt Hp Hpt)
      as (t & iy & ix & _ & _ & _ & Ht & _ & _ & _ & Hcy & Hcx & <- & _).
    destruct HT as (_ & _ & Hly & Hlx).
    apply lookup_lt_Some in Hcy, Hcx. apply Hdays; [done | lia | lia]. }
  exists s, rows. split; [done|]. split; [done|].
  unfold classify_tile. by rewrite Hrun, Hrows.
Qed.

Lemma tile_table_is_built_witness :
  ∃ s rows,
    get_event_perimeters tile_overlap init_store = Done (perimeters s) s
    ∧ all_nonempty s
    ∧ classify_tile tile_overlap 1 = Some (inr rows).
Proof.
  apply (tile_table_is_built tile_overlap 1).
  - split; [simpl; lia|]. split; [simpl; discriminate|]. split; reflexivity.
  - simpl. lia.
  - intros [|t] [|[|[|i]]] [|[|[|[|j]]]] Ht Hi Hj; simpl in *; lia.
Defined.

(* --------------------------------------------------------------------- *)
(*  One pass of the stitcher                                              *)
(* --------------------------------------------------------------------- *)
Section one_pass.




Lemma unique_nil : unique [] = [].
Proof. done. Qed.




























End one_pass.



